(** * Klipper G-code front end: keyword table and incremental lexer

    A shallow embedding of [klippy/chelper/gcode_keywords.generated.c] and
    [klippy/chelper/gcode_lexer.c], with the properties of the front-end
    specification stated over it.

    Conventions of the embedding.
    - A C [char] is an [ascii]; a NUL-terminated C string handed to a callback
      is a [string] (the bytes before the first NUL).
    - Fixed-width integers are [Z] with their wrap-around written out.
    - The lexer struct is a record; every C helper that mutates the lexer is a
      computation in a small state monad over that record.
    - [malloc]/[realloc] are taken to succeed; the bytes of a block that were
      never written are whatever [uninit] says they are. *)

From Stdlib Require Import ZArith List Bool Ascii String Lia PeanoNat.
Import ListNotations.

Local Open Scope Z_scope.

(** ** Characters and C strings *)

Definition NUL : ascii := "000"%char.
Definition LF : ascii := "010"%char.
Definition HT : ascii := "009"%char.
Definition VT : ascii := "011"%char.
Definition CR : ascii := "013"%char.
Definition DQUOTE : ascii := "034"%char.
Definition BACKSLASH : ascii := "092"%char.

Definition code (ch : ascii) : Z := Z.of_nat (nat_of_ascii ch).

(** Conversion of an integer to [char]: the low eight bits. *)
Definition to_char (v : Z) : ascii := ascii_of_nat (Z.to_nat (v mod 256)).

(** [between lo ch hi] is the C test [ch >= lo && ch <= hi]. *)
Definition between (lo ch hi : ascii) : bool :=
  (code lo <=? code ch) && (code ch <=? code hi).

(** The bytes of a buffer up to, not including, the first NUL: what a callee
    sees when it is handed the buffer as a [const char*].  A buffer without
    NUL is read to its end. *)
Fixpoint cstr (buf : list ascii) : string :=
  match buf with
  | [] => EmptyString
  | c :: rest => if Ascii.eqb c NUL then EmptyString else String c (cstr rest)
  end.

Definition first_char (s : string) : ascii :=
  match s with EmptyString => NUL | String c _ => c end.

Definition rest_chars (s : string) : string :=
  match s with EmptyString => EmptyString | String _ t => t end.

(** ** The keyword table ([gcode_keywords.generated.c]) *)

Module Keywords.

Record GCodeKeywordDetail := { name : string; id : Z }.

Definition TOTAL_KEYWORDS : nat := 24.
Definition MIN_WORD_LENGTH : nat := 1.
Definition MAX_WORD_LENGTH : nat := 8.
Definition MIN_HASH_VALUE : nat := 1.
Definition MAX_HASH_VALUE : nat := 32.

Definition asso_values : list nat :=
  [ 33; 33; 33; 33; 33; 33; 33; 33; 33; 33;
     4; 33; 33; 33; 33; 33; 33; 33; 33; 33;
    33; 33; 33; 33; 33; 33; 33; 33; 33; 33;
    33; 33; 33; 31; 33; 33; 33; 26; 33; 33;
    28; 23; 15; 18; 13;  8; 30; 25; 33; 33;
    33; 33; 33; 33; 33; 33; 33; 33; 33; 33;
    10; 20;  5; 33; 33; 10; 33; 33; 33;  0;
    33; 33; 33;  0; 33; 33; 33; 33;  0; 20;
    33; 33; 33; 33; 33; 33; 33; 33; 33; 33;
    33; 33; 33; 33; 33; 33; 33; 33; 33; 33;
    33; 33; 33; 33; 33; 33; 33; 33; 33; 33;
    33; 33; 33; 33; 33; 33; 33; 33; 33; 33;
    33; 33; 33; 33; 33; 33;  0; 33; 33; 33;
    33; 33; 33; 33; 33; 33; 33; 33; 33; 33;
    33; 33; 33; 33; 33; 33; 33; 33; 33; 33;
    33; 33; 33; 33; 33; 33; 33; 33; 33; 33;
    33; 33; 33; 33; 33; 33; 33; 33; 33; 33;
    33; 33; 33; 33; 33; 33; 33; 33; 33; 33;
    33; 33; 33; 33; 33; 33; 33; 33; 33; 33;
    33; 33; 33; 33; 33; 33; 33; 33; 33; 33;
    33; 33; 33; 33; 33; 33; 33; 33; 33; 33;
    33; 33; 33; 33; 33; 33; 33; 33; 33; 33;
    33; 33; 33; 33; 33; 33; 33; 33; 33; 33;
    33; 33; 33; 33; 33; 33; 33; 33; 33; 33;
    33; 33; 33; 33; 33; 33; 33; 33; 33; 33;
    33; 33; 33; 33; 33; 33 ]%nat.

(** [hash]: the length plus the associated value of the first byte. *)
Definition hash (str : string) (len : nat) : nat :=
  (len + nth (nat_of_ascii (first_char str)) asso_values 33)%nat.

Definition kw (n : string) (i : Z) : GCodeKeywordDetail :=
  {| name := n; id := i |}.

(** An unused slot of the table (an empty name), whose id is
    zero-initialised. *)
Definition slot : GCodeKeywordDetail := kw EmptyString 0.

Definition wordlist : list GCodeKeywordDetail :=
  [ slot;
    kw "~" 266;
    kw "IF" 278;
    kw "NAN" 284;
    kw "ELSE" 279;
    kw (String LF EmptyString) 262;
    kw ">" 274;
    kw ">=" 276;
    kw "INFINITY" 285;
    kw "-" 268;
    slot;
    kw "<" 273;
    kw "<=" 275;
    kw "AND" 264;
    kw "," 281;
    slot;
    kw "*" 271;
    kw "**" 270;
    slot;
    kw "+" 267;
    slot;
    kw "=" 265;
    kw "OR" 263;
    slot;
    kw ")" 283;
    slot;
    kw "/" 272;
    kw "%" 269;
    slot;
    kw "(" 282;
    slot;
    kw "." 280;
    kw "!" 277 ].

(** [gcode_keyword_lookup (str, len)]: [None] is the null pointer.  The
    comparison [*str == *s && !strcmp (str + 1, s + 1)] looks at the tails
    only when the first bytes agree. *)
Definition gcode_keyword_lookup (str : string) (len : nat)
  : option GCodeKeywordDetail :=
  if (len <=? MAX_WORD_LENGTH)%nat && (MIN_WORD_LENGTH <=? len)%nat then
    let key := hash str len in
    if (key <=? MAX_HASH_VALUE)%nat then
      let s := nth key wordlist slot in
      if Ascii.eqb (first_char str) (first_char (name s))
         && String.eqb (rest_chars str) (rest_chars (name s))
      then Some s
      else None
    else None
  else None.

(** The entries of the table that hold a keyword, in table order. *)
Definition keywords : list GCodeKeywordDetail :=
  filter (fun e => negb (String.eqb (name e) EmptyString)) wordlist.

End Keywords.

(** ** The lexer ([gcode_lexer.c]) *)

(** *** What the lexer takes from its surroundings *)

(** The C library as the lexer uses it.  [strtod s] is the value that
    [strtod (s, &end)] returns together with the number of bytes of [s] it
    consumed ([end - s]); [wctomb v] is [None] when the conversion fails (the
    C function returns -1) and the multi-byte encoding otherwise; [uninit i]
    is the content of byte [i] of a block fresh from [malloc]. *)
Class Platform := {
  float : Type;
  strtod : string -> float * nat;
  wctomb : Z -> option (list ascii);
  uninit : nat -> ascii
}.

(** One call of an emission callback: the callback and its arguments after
    the context pointer.  The callbacks are declared in [gcode_lexer.h]; the
    argument lists are those of the calls in [gcode_lexer.c]. *)
Inductive emission `{Platform} : Type :=
| lex_error (msg : string)
| lex_keyword (token : string)
| lex_identifier (token : string)
| lex_str_literal (token : string)
| lex_int_literal (value : Z)
| lex_float_literal (value : float)
| lex_bridge
| lex_end_statement.

(** The owner of the lexer: the object behind the context pointer and what
    a callback does with it.  A callback returns the new state of that object
    and its boolean result. *)
Class Callbacks `{Platform} := {
  Ctx : Type;
  callback : Ctx -> emission -> Ctx * bool
}.

Inductive state_t : Set :=
| SCAN_NEWLINE
| SCAN_ERROR
| SCAN_LINENO
| SCAN_AFTER_LINENO
| SCAN_COMMAND_NAME
| SCAN_ARGS
| SCAN_EXTENDED_KEY
| SCAN_AFTER_EXTENDED_KEY
| SCAN_AFTER_EXTENDED_SEPARATOR
| SCAN_AFTER_TRADITIONAL_KEY
| SCAN_ARG_VALUE
| SCAN_COMMENT
| SCAN_EMPTY_LINE_COMMENT
| SCAN_EXPR
| SCAN_AFTER_EXPR
| SCAN_SYMBOL
| SCAN_IDENTIFIER
| SCAN_STR
| SCAN_STR_ESCAPE
| SCAN_STR_OCTAL
| SCAN_STR_HEX
| SCAN_STR_LOW_UNICODE
| SCAN_STR_HIGH_UNICODE
| SCAN_NUMBER_BASE
| SCAN_DECIMAL
| SCAN_HEX
| SCAN_BINARY
| SCAN_OCTAL
| SCAN_DOT
| SCAN_DECIMAL_FLOAT
| SCAN_DECIMAL_FRACTION
| SCAN_DECIMAL_EXPONENT_SIGN
| SCAN_DECIMAL_EXPONENT
| SCAN_HEX_FLOAT
| SCAN_HEX_FRACTION
| SCAN_HEX_EXPONENT_SIGN
| SCAN_HEX_EXPONENT.

Inductive arg_mode_t : Set :=
| ARG_TRADITIONAL
| ARG_EXTENDED
| ARG_RAW.

Definition state_eqb (a b : state_t) : bool :=
  match a, b with
  | SCAN_NEWLINE, SCAN_NEWLINE | SCAN_ERROR, SCAN_ERROR
  | SCAN_LINENO, SCAN_LINENO | SCAN_AFTER_LINENO, SCAN_AFTER_LINENO
  | SCAN_COMMAND_NAME, SCAN_COMMAND_NAME | SCAN_ARGS, SCAN_ARGS
  | SCAN_EXTENDED_KEY, SCAN_EXTENDED_KEY
  | SCAN_AFTER_EXTENDED_KEY, SCAN_AFTER_EXTENDED_KEY
  | SCAN_AFTER_EXTENDED_SEPARATOR, SCAN_AFTER_EXTENDED_SEPARATOR
  | SCAN_AFTER_TRADITIONAL_KEY, SCAN_AFTER_TRADITIONAL_KEY
  | SCAN_ARG_VALUE, SCAN_ARG_VALUE | SCAN_COMMENT, SCAN_COMMENT
  | SCAN_EMPTY_LINE_COMMENT, SCAN_EMPTY_LINE_COMMENT
  | SCAN_EXPR, SCAN_EXPR | SCAN_AFTER_EXPR, SCAN_AFTER_EXPR
  | SCAN_SYMBOL, SCAN_SYMBOL | SCAN_IDENTIFIER, SCAN_IDENTIFIER
  | SCAN_STR, SCAN_STR | SCAN_STR_ESCAPE, SCAN_STR_ESCAPE
  | SCAN_STR_OCTAL, SCAN_STR_OCTAL | SCAN_STR_HEX, SCAN_STR_HEX
  | SCAN_STR_LOW_UNICODE, SCAN_STR_LOW_UNICODE
  | SCAN_STR_HIGH_UNICODE, SCAN_STR_HIGH_UNICODE
  | SCAN_NUMBER_BASE, SCAN_NUMBER_BASE | SCAN_DECIMAL, SCAN_DECIMAL
  | SCAN_HEX, SCAN_HEX | SCAN_BINARY, SCAN_BINARY | SCAN_OCTAL, SCAN_OCTAL
  | SCAN_DOT, SCAN_DOT | SCAN_DECIMAL_FLOAT, SCAN_DECIMAL_FLOAT
  | SCAN_DECIMAL_FRACTION, SCAN_DECIMAL_FRACTION
  | SCAN_DECIMAL_EXPONENT_SIGN, SCAN_DECIMAL_EXPONENT_SIGN
  | SCAN_DECIMAL_EXPONENT, SCAN_DECIMAL_EXPONENT
  | SCAN_HEX_FLOAT, SCAN_HEX_FLOAT | SCAN_HEX_FRACTION, SCAN_HEX_FRACTION
  | SCAN_HEX_EXPONENT_SIGN, SCAN_HEX_EXPONENT_SIGN
  | SCAN_HEX_EXPONENT, SCAN_HEX_EXPONENT => true
  | _, _ => false
  end.

(** [GCodeLocation] is declared in [gcode_lexer.h]; the lexer writes these
    four fields of it. *)
Record GCodeLocation := {
  first_line : Z;
  first_column : Z;
  last_line : Z;
  last_column : Z
}.

(** *** Fixed-width arithmetic *)

Definition wrap_unsigned (bits v : Z) : Z := v mod 2 ^ bits.

Definition wrap_signed (bits v : Z) : Z :=
  (v + 2 ^ (bits - 1)) mod 2 ^ bits - 2 ^ (bits - 1).

Definition SIZE_MAX : Z := 2 ^ 64 - 1.
Definition INT64_MAX : Z := 2 ^ 63 - 1.
Definition UNICODE_MAX : Z := 1114111.

(** [size_t], [uint32_t], [int64_t], [int8_t] and (32-bit) [int]. *)
Definition to_size_t : Z -> Z := wrap_unsigned 64.
Definition to_uint32 : Z -> Z := wrap_unsigned 32.
Definition to_int64 : Z -> Z := wrap_signed 64.
Definition to_int8 : Z -> Z := wrap_signed 8.
Definition to_int : Z -> Z := wrap_signed 32.

Section Lexer.

Context {PF : Platform} {CB : Callbacks}.

(** The struct.  [token_str] and [error_str] are [None] for the null pointer
    and the bytes of the allocated block otherwise.  [emitted] is not a field
    of the C struct: it records, in order, every callback invocation made
    through this lexer. *)
Record GCodeLexer := {
  context : Ctx;
  state : state_t;
  token_str : option (list ascii);
  token_length : nat;
  token_limit : nat;
  error_str : option string;
  error_limit : nat;
  expr_nesting : Z;
  int_value : Z;
  digit_count : Z;
  line : Z;
  column : Z;
  arg_mode : arg_mode_t;
  after_str : state_t;
  in_arg_value : bool;
  location : option GCodeLocation;
  emitted : list emission
}.

Definition set_context v l :=
  Build_GCodeLexer v (state l) (token_str l) (token_length l) (token_limit l)
    (error_str l) (error_limit l) (expr_nesting l) (int_value l)
    (digit_count l) (line l) (column l) (arg_mode l) (after_str l)
    (in_arg_value l) (location l) (emitted l).
Definition set_state v l :=
  Build_GCodeLexer (context l) v (token_str l) (token_length l) (token_limit l)
    (error_str l) (error_limit l) (expr_nesting l) (int_value l)
    (digit_count l) (line l) (column l) (arg_mode l) (after_str l)
    (in_arg_value l) (location l) (emitted l).
Definition set_token_str v l :=
  Build_GCodeLexer (context l) (state l) v (token_length l) (token_limit l)
    (error_str l) (error_limit l) (expr_nesting l) (int_value l)
    (digit_count l) (line l) (column l) (arg_mode l) (after_str l)
    (in_arg_value l) (location l) (emitted l).
Definition set_token_length v l :=
  Build_GCodeLexer (context l) (state l) (token_str l) v (token_limit l)
    (error_str l) (error_limit l) (expr_nesting l) (int_value l)
    (digit_count l) (line l) (column l) (arg_mode l) (after_str l)
    (in_arg_value l) (location l) (emitted l).
Definition set_token_limit v l :=
  Build_GCodeLexer (context l) (state l) (token_str l) (token_length l) v
    (error_str l) (error_limit l) (expr_nesting l) (int_value l)
    (digit_count l) (line l) (column l) (arg_mode l) (after_str l)
    (in_arg_value l) (location l) (emitted l).
Definition set_error_str v l :=
  Build_GCodeLexer (context l) (state l) (token_str l) (token_length l)
    (token_limit l) v (error_limit l) (expr_nesting l) (int_value l)
    (digit_count l) (line l) (column l) (arg_mode l) (after_str l)
    (in_arg_value l) (location l) (emitted l).
Definition set_error_limit v l :=
  Build_GCodeLexer (context l) (state l) (token_str l) (token_length l)
    (token_limit l) (error_str l) v (expr_nesting l) (int_value l)
    (digit_count l) (line l) (column l) (arg_mode l) (after_str l)
    (in_arg_value l) (location l) (emitted l).
Definition set_expr_nesting v l :=
  Build_GCodeLexer (context l) (state l) (token_str l) (token_length l)
    (token_limit l) (error_str l) (error_limit l) v (int_value l)
    (digit_count l) (line l) (column l) (arg_mode l) (after_str l)
    (in_arg_value l) (location l) (emitted l).
Definition set_int_value v l :=
  Build_GCodeLexer (context l) (state l) (token_str l) (token_length l)
    (token_limit l) (error_str l) (error_limit l) (expr_nesting l) v
    (digit_count l) (line l) (column l) (arg_mode l) (after_str l)
    (in_arg_value l) (location l) (emitted l).
Definition set_digit_count v l :=
  Build_GCodeLexer (context l) (state l) (token_str l) (token_length l)
    (token_limit l) (error_str l) (error_limit l) (expr_nesting l)
    (int_value l) v (line l) (column l) (arg_mode l) (after_str l)
    (in_arg_value l) (location l) (emitted l).
Definition set_line v l :=
  Build_GCodeLexer (context l) (state l) (token_str l) (token_length l)
    (token_limit l) (error_str l) (error_limit l) (expr_nesting l)
    (int_value l) (digit_count l) v (column l) (arg_mode l) (after_str l)
    (in_arg_value l) (location l) (emitted l).
Definition set_column v l :=
  Build_GCodeLexer (context l) (state l) (token_str l) (token_length l)
    (token_limit l) (error_str l) (error_limit l) (expr_nesting l)
    (int_value l) (digit_count l) (line l) v (arg_mode l) (after_str l)
    (in_arg_value l) (location l) (emitted l).
Definition set_arg_mode v l :=
  Build_GCodeLexer (context l) (state l) (token_str l) (token_length l)
    (token_limit l) (error_str l) (error_limit l) (expr_nesting l)
    (int_value l) (digit_count l) (line l) (column l) v (after_str l)
    (in_arg_value l) (location l) (emitted l).
Definition set_after_str v l :=
  Build_GCodeLexer (context l) (state l) (token_str l) (token_length l)
    (token_limit l) (error_str l) (error_limit l) (expr_nesting l)
    (int_value l) (digit_count l) (line l) (column l) (arg_mode l) v
    (in_arg_value l) (location l) (emitted l).
Definition set_in_arg_value v l :=
  Build_GCodeLexer (context l) (state l) (token_str l) (token_length l)
    (token_limit l) (error_str l) (error_limit l) (expr_nesting l)
    (int_value l) (digit_count l) (line l) (column l) (arg_mode l)
    (after_str l) v (location l) (emitted l).
Definition set_location v l :=
  Build_GCodeLexer (context l) (state l) (token_str l) (token_length l)
    (token_limit l) (error_str l) (error_limit l) (expr_nesting l)
    (int_value l) (digit_count l) (line l) (column l) (arg_mode l)
    (after_str l) (in_arg_value l) v (emitted l).
Definition set_emitted v l :=
  Build_GCodeLexer (context l) (state l) (token_str l) (token_length l)
    (token_limit l) (error_str l) (error_limit l) (expr_nesting l)
    (int_value l) (digit_count l) (line l) (column l) (arg_mode l)
    (after_str l) (in_arg_value l) (location l) v.

(** *** The monad of the helpers: a computation on the lexer struct *)

Definition M (A : Type) : Type := GCodeLexer -> A * GCodeLexer.

Definition ret {A} (a : A) : M A := fun l => (a, l).

Definition bind {A B} (m : M A) (k : A -> M B) : M B :=
  fun l => let (a, l') := m l in k a l'.

Definition gets {A} (f : GCodeLexer -> A) : M A := fun l => (f l, l).

Definition modify (f : GCodeLexer -> GCodeLexer) : M unit := fun l => (tt, f l).

End Lexer.

Arguments GCodeLexer {_ _}.
Arguments M {_ _} A.

Declare Scope lexer_scope.
Delimit Scope lexer_scope with lexer.
Notation "x <- m ;; k" := (bind m (fun x => k))
  (at level 61, m at next level, right associativity) : lexer_scope.
Notation "m ;; k" := (bind m (fun _ => k))
  (at level 61, right associativity) : lexer_scope.
Local Open Scope lexer_scope.

Definition is_char (ch c : ascii) : bool := Ascii.eqb ch c.
Arguments is_char ch%_char c%_char.
Arguments between lo%_char ch%_char hi%_char.

(** [CASE_SPACE] *)
Definition is_space (ch : ascii) : bool :=
  is_char ch " " || is_char ch HT || is_char ch VT || is_char ch CR.

Definition ENTER_EXPR : ascii := "{"%char.
Definition EXIT_EXPR : ascii := "}"%char.

(** Writing one byte of a block; a write outside the block is not modelled
    (it does not happen: [token_char] grows the block first). *)
Fixpoint poke (i : nat) (ch : ascii) (buf : list ascii) : list ascii :=
  match buf, i with
  | [], _ => []
  | _ :: rest, O => ch :: rest
  | c :: rest, S j => c :: poke j ch rest
  end.

(** Doubling of [error_limit]: [while (limit < wanted) limit *= 2]. *)
Fixpoint double_until (fuel wanted limit : nat) : nat :=
  match fuel with
  | O => limit
  | S fuel' =>
      if (limit <? wanted)%nat then double_until fuel' wanted (2 * limit)
      else limit
  end.

Definition hex_digit_to_int (ch : ascii) : Z :=
  if between "0" ch "9" then code ch - code "0"
  else if between "a" ch "f" then 10 + code ch - code "a"
  else if between "A" ch "Z" then 10 + code ch - code "A"
  else -1.

Definition is_ident_char (ch : ascii) : bool :=
  between "a" ch "z" || between "A" ch "Z" || between "0" ch "9"
  || is_char ch "_" || is_char ch "$".

Definition is_symbol_char (ch : ascii) : bool :=
  is_char ch "`" || is_char ch "~" || is_char ch "!" || is_char ch "@"
  || is_char ch "#" || is_char ch "%" || is_char ch "^" || is_char ch "&"
  || is_char ch "*" || is_char ch "(" || is_char ch ")" || is_char ch "-"
  || is_char ch "+" || is_char ch "=" || is_char ch "{" || is_char ch "["
  || is_char ch "}" || is_char ch "]" || is_char ch "|" || is_char ch BACKSLASH
  || is_char ch ":" || is_char ch "," || is_char ch "<" || is_char ch "."
  || is_char ch ">" || is_char ch "?" || is_char ch "/".

Definition continue_symbol (c1 c2 : ascii) : bool :=
  if is_char c1 "*" then is_char c2 "*"
  else if is_char c1 "<" || is_char c1 ">" || is_char c1 "=" then is_char c2 "="
  else false.

(** [ch >= 'a' && ch <= 'z' ? ch - 32 : ch] and its counterpart. *)
Definition upper (ch : ascii) : ascii :=
  if between "a" ch "z" then to_char (code ch - 32) else ch.

Definition lower (ch : ascii) : ascii :=
  if between "A" ch "Z" then to_char (code ch + 32) else ch.

Definition is_digit (ch : ascii) : bool := between "0" ch "9".

Section Helpers.

Context {PF : Platform} {CB : Callbacks}.

(** The block that [malloc]/[realloc] returns: the old bytes, then bytes
    never written. *)
Definition block (old : list ascii) (size : nat) : list ascii :=
  firstn size old
  ++ map uninit (seq (List.length old) (size - List.length old)).

(** The token buffer read as a C string, the way [token_str] is handed to
    [strcmp], [strtod] and the callbacks. *)
Definition token_text (l : GCodeLexer) : string :=
  match token_str l with
  | None => EmptyString
  | Some buf => cstr buf
  end.

(** [lexer->token_str[i]] *)
Definition token_at (l : GCodeLexer) (i : nat) : ascii :=
  match token_str l with
  | None => NUL
  | Some buf => nth i buf NUL
  end.

Definition set_state_m (s : state_t) : M unit := modify (set_state s).

(** A call of one of the callbacks with [lexer->context]. *)
Definition call (e : emission) : M bool :=
  fun l =>
    let (c, ok) := callback (context l) e in
    (ok, set_emitted (emitted l ++ [e]) (set_context c l)).

Definition TOKEN_STOP : M unit :=
  modify (fun l =>
    match location l with
    | None => l
    | Some loc =>
        set_location
          (Some {| first_line := first_line loc;
                   first_column := first_column loc;
                   last_line := line l;
                   last_column := to_uint32 (column l + 1) |}) l
    end).

Definition TOKEN_START : M unit :=
  modify (fun l =>
    match location l with
    | None => l
    | Some loc =>
        set_location
          (Some {| first_line := line l;
                   first_column := column l;
                   last_line := last_line loc;
                   last_column := last_column loc |}) l
    end) ;;
  TOKEN_STOP.

(** [error_printf] with the message already formatted; the result is the
    length [vsnprintf] reports.  The buffer receives at most
    [error_limit - 1] bytes of the message. *)
Definition error_printf (limit : nat) (msg : string) : M Z :=
  modify (fun l =>
    if (error_limit l <? limit)%nat then
      let start := if (error_limit l =? 0)%nat then 256%nat else error_limit l in
      set_error_limit (double_until limit limit start) l
    else l) ;;
  modify (fun l =>
    set_error_str (Some (substring 0 (error_limit l - 1) msg)) l) ;;
  ret (Z.of_nat (String.length msg)).

Definition emit_error (msg : string) : M unit :=
  rv <- error_printf 256 msg ;;
  if rv <? 0 then ret tt
  else
    limit <- gets error_limit ;;
    if Z.of_nat limit <? rv then
      _ <- error_printf (Z.to_nat rv) msg ;; ret tt
    else ret tt.

(** The macro [ERROR]. *)
Definition ERROR (msg : string) : M unit :=
  emit_error msg ;;
  set_state_m SCAN_ERROR.

Definition token_alloc : M bool :=
  fun l =>
    match token_str l with
    | None =>
        (true, set_token_str (Some (block [] 128)) (set_token_limit 128 l))
    | Some buf =>
        let limit := (token_limit l * 2)%nat in
        (true, set_token_str (Some (block buf limit)) (set_token_limit limit l))
    end.

Definition token_char (ch : ascii) : M bool :=
  full <- gets (fun l => (token_length l =? token_limit l)%nat) ;;
  ok <- (if full then token_alloc else ret true) ;;
  if ok then
    modify (fun l =>
      set_token_length (S (token_length l))
        (set_token_str (option_map (poke (token_length l) ch) (token_str l)) l)) ;;
    ret true
  else ret false.

(** [for (i = 0; i < len; i++) if (!token_char (lexer, buf[i])) return false;] *)
Fixpoint token_chars (bytes : list ascii) : M bool :=
  match bytes with
  | [] => ret true
  | b :: rest =>
      ok <- token_char b ;;
      if ok then token_chars rest else ret false
  end.

Definition add_str_wchar : M bool :=
  v <- gets int_value ;;
  match wctomb v with
  | None => _ <- token_char "?" ;; ret true
  | Some bytes => token_chars bytes
  end.

Definition terminate_token : M bool := token_char NUL.

Definition add_safe_digit (value base : Z) : M unit :=
  modify (fun l => set_int_value (to_int64 (int_value l * base + value)) l) ;;
  modify (fun l => set_digit_count (to_int8 (digit_count l + 1)) l).

Definition free_token : M unit := modify (set_token_length 0).

Definition emit_symbol : M bool :=
  TOKEN_STOP ;;
  s <- gets token_text ;;
  ok <- call (lex_keyword s) ;;
  if ok then free_token ;; ret true
  else set_state_m SCAN_ERROR ;; free_token ;; ret false.

Definition emit_char_symbol (ch : ascii) : M bool :=
  TOKEN_START ;;
  TOKEN_STOP ;;
  _ <- token_char ch ;;
  _ <- terminate_token ;;
  s <- gets token_text ;;
  ok <- call (lex_keyword s) ;;
  if ok then free_token ;; ret true
  else set_state_m SCAN_ERROR ;; free_token ;; ret false.

Definition emit_bridge : M bool :=
  TOKEN_START ;;
  TOKEN_STOP ;;
  ok <- call lex_bridge ;;
  if ok then ret true
  else set_state_m SCAN_ERROR ;; ret false.

Definition emit_end_of_statement : M bool :=
  TOKEN_START ;;
  TOKEN_STOP ;;
  _ <- call lex_end_statement ;;
  set_state_m SCAN_NEWLINE ;;
  ret true.

Definition emit_str : M bool :=
  TOKEN_STOP ;;
  terminated <- terminate_token ;;
  if terminated then
    s <- gets token_text ;;
    ok <- call (lex_str_literal s) ;;
    if ok then free_token ;; ret true
    else set_state_m SCAN_ERROR ;; free_token ;; ret false
  else free_token ;; ret false.

Definition emit_possible_str : M bool :=
  len <- gets token_length ;;
  if (0 <? len)%nat then emit_str else ret true.

Definition emit_ident : M bool :=
  TOKEN_STOP ;;
  terminated <- terminate_token ;;
  if terminated then
    s <- gets token_text ;;
    ok <- call (lex_identifier s) ;;
    if ok then free_token ;; ret true
    else set_state_m SCAN_ERROR ;; free_token ;; ret false
  else free_token ;; ret false.

(** The loop of [enter_args] over [name[1 .. length - 1]]: true when every
    byte is a decimal digit. *)
Definition all_digits_from_1 (l : GCodeLexer) : bool :=
  forallb (fun i => is_digit (token_at l i)) (seq 1 (token_length l - 1)).

Definition enter_args : M bool :=
  set_state_m SCAN_ARGS ;;
  name <- gets token_text ;;
  length <- gets token_length ;;
  if String.eqb name "M117" || String.eqb name "ECHO" then
    modify (set_arg_mode ARG_RAW) ;;
    emit_ident
  else
    name0 <- gets (fun l => token_at l 0) ;;
    if (1 <? length)%nat && between "A" name0 "Z" then
      digits <- gets all_digits_from_1 ;;
      if digits then
        modify (set_arg_mode ARG_TRADITIONAL) ;;
        emit_ident
      else
        modify (set_arg_mode ARG_EXTENDED) ;;
        emit_ident
    else
      modify (set_arg_mode ARG_EXTENDED) ;;
      emit_ident.

(** [emit_int (GCodeLexer* lexer, int value)]: the argument is converted to
    [int] at the call. *)
Definition emit_int (value : Z) : M bool :=
  let value := to_int value in
  TOKEN_STOP ;;
  ok <- call (lex_int_literal value) ;;
  if ok then ret true
  else set_state_m SCAN_ERROR ;; ret false.

Definition EMIT_INT : M bool :=
  v <- gets int_value ;;
  emit_int v.

Definition emit_float : M bool :=
  TOKEN_STOP ;;
  _ <- terminate_token ;;
  s <- gets token_text ;;
  let (value, consumed) := strtod s in
  free_token ;;
  if (consumed <? String.length s)%nat then
    ERROR ("Invalid float " ++ s) ;;
    ret false
  else
    ok <- call (lex_float_literal value) ;;
    if ok then ret true
    else set_state_m SCAN_ERROR ;; ret false.

Definition emit_keyword_or_identifier : M bool :=
  TOKEN_STOP ;;
  s <- gets token_text ;;
  result <- call (lex_identifier s) ;;
  free_token ;;
  ret result.

(** [lexer->int_value > (max - value) / base], with C's truncating
    division. *)
Definition digit_exceeds (value base max : Z) : M bool :=
  v <- gets int_value ;;
  ret ((max - value) ÷ base <? v).

Definition add_digit (value base max : Z) (err : string) : M bool :=
  exceeds <- digit_exceeds value base max ;;
  if exceeds then
    ERROR err ;;
    free_token ;;
    ret false
  else
    add_safe_digit value base ;;
    ret true.

Definition enter_expr : M bool :=
  ok <- emit_char_symbol ENTER_EXPR ;;
  if ok then
    set_state_m SCAN_EXPR ;;
    modify (set_expr_nesting 1) ;;
    ret true
  else ret false.

(** [end_arg_segment]: the first [switch] may return from the function; the
    second sets the state by the byte. *)
Definition end_arg_segment (ch : ascii) : M unit :=
  mode <- gets arg_mode ;;
  in_value <- gets in_arg_value ;;
  returned <-
    match mode with
    | ARG_TRADITIONAL =>
        if negb in_value then
          TOKEN_START ;;
          TOKEN_STOP ;;
          _ <- emit_str ;;
          ret false
        else ret false
    | ARG_EXTENDED =>
        if negb in_value then
          TOKEN_START ;;
          TOKEN_STOP ;;
          ERROR "Expected '=' after parameter name" ;;
          (if is_char ch LF then _ <- emit_end_of_statement ;; ret true
           else ret true)
        else ret false
    | ARG_RAW =>
        if negb (is_char ch CR) && negb (is_char ch LF) then
          bridged <- emit_bridge ;;
          (if bridged then
             stored <- token_char ch ;;
             if stored then set_state_m SCAN_ARG_VALUE ;; ret true
             else ret true
           else ret true)
        else ret false
    end ;;
  if returned then ret tt
  else if is_char ch ";" then set_state_m SCAN_COMMENT
  else if is_char ch LF then
    _ <- emit_end_of_statement ;;
    set_state_m SCAN_NEWLINE
  else set_state_m SCAN_ARGS.

End Helpers.

(** *** The cases of the switch in [gcode_lexer_scan]

    One definition per [case] of [switch (lexer->state)].  The result of a
    case says whether it ran the macro [BACK_UP], after which the loop looks
    at the same byte again (and [ch] is zero for the rest of the iteration). *)

Section Scan.

Context {PF : Platform} {CB : Callbacks}.

Definition BACK_UP : M bool := ret true.
Definition next_byte : M bool := ret false.

(** [if (a) then-statement] for a call [a] that reports success. *)
Definition if_ok (a : M bool) (then_ : M unit) : M unit :=
  ok <- a ;;
  if ok then then_ else ret tt.

(** [a && b] with C's short-circuit evaluation. *)
Definition and_then (a b : M bool) : M bool :=
  ok <- a ;;
  if ok then b else ret false.

Definition ignore (a : M bool) : M unit := _ <- a ;; ret tt.

Definition TOKEN_CHAR (ch : ascii) : M bool := token_char ch.
Definition TOKEN_CHAR_UPPER (ch : ascii) : M bool := token_char (upper ch).
Definition TOKEN_CHAR_LOWER (ch : ascii) : M bool := token_char (lower ch).
Definition EMIT_CHAR_SYMBOL (ch : ascii) : M bool := emit_char_symbol ch.

Definition clear_number : M unit :=
  modify (set_int_value 0) ;;
  modify (set_digit_count 0).

Definition case_NEWLINE (ch : ascii) : M bool :=
  modify (set_expr_nesting 0) ;;
  if is_char ch "N" || is_char ch "n" then
    set_state_m SCAN_LINENO ;; next_byte
  else if is_char ch ";" then
    set_state_m SCAN_EMPTY_LINE_COMMENT ;; next_byte
  else if is_char ch LF || is_space ch then next_byte
  else
    set_state_m SCAN_COMMAND_NAME ;; BACK_UP.

Definition case_ERROR (ch : ascii) : M bool :=
  if is_char ch LF then set_state_m SCAN_NEWLINE ;; next_byte
  else next_byte.

Definition case_LINENO (ch : ascii) : M bool :=
  if is_char ch LF then set_state_m SCAN_NEWLINE ;; next_byte
  else if is_space ch then set_state_m SCAN_AFTER_LINENO ;; next_byte
  else if is_char ch ";" then
    set_state_m SCAN_EMPTY_LINE_COMMENT ;; next_byte
  else if is_char ch DQUOTE then
    ERROR "String not allowed in line number" ;; next_byte
  else if is_char ch ENTER_EXPR then
    ERROR "Expression not allowed in line number" ;; next_byte
  else next_byte.

Definition case_AFTER_LINENO (ch : ascii) : M bool :=
  if is_char ch LF then set_state_m SCAN_NEWLINE ;; next_byte
  else if is_space ch then next_byte
  else if is_char ch ";" then
    set_state_m SCAN_EMPTY_LINE_COMMENT ;; next_byte
  else
    set_state_m SCAN_COMMAND_NAME ;; BACK_UP.

Definition case_COMMAND_NAME (ch : ascii) : M bool :=
  if is_char ch ENTER_EXPR then
    TOKEN_START ;;
    free_token ;;
    ERROR "Expressions not allowed in command name" ;;
    next_byte
  else if is_char ch DQUOTE then
    TOKEN_START ;;
    free_token ;;
    ERROR "Strings not allowed in command name" ;;
    next_byte
  else if is_char ch LF then
    ignore emit_ident ;;
    ignore emit_end_of_statement ;;
    next_byte
  else if is_space ch then
    ignore enter_args ;;
    next_byte
  else if is_char ch ";" then
    if_ok emit_ident (set_state_m SCAN_COMMENT) ;;
    next_byte
  else
    ignore (TOKEN_CHAR_UPPER ch) ;;
    next_byte.

Definition case_ARGS (ch : ascii) : M bool :=
  if is_char ch ENTER_EXPR then
    modify (set_in_arg_value false) ;;
    if_ok (EMIT_CHAR_SYMBOL ch) (set_state_m SCAN_EXPR) ;;
    next_byte
  else if is_char ch DQUOTE then
    mode <- gets arg_mode ;;
    match mode with
    | ARG_TRADITIONAL =>
        modify (set_after_str SCAN_AFTER_TRADITIONAL_KEY) ;;
        set_state_m SCAN_STR
    | ARG_EXTENDED =>
        modify (set_in_arg_value false) ;;
        modify (set_after_str SCAN_AFTER_EXPR) ;;
        set_state_m SCAN_STR
    | ARG_RAW =>
        ignore (TOKEN_CHAR ch)
    end ;;
    next_byte
  else if is_char ch LF then
    ignore emit_end_of_statement ;;
    next_byte
  else if is_char ch ";" then
    set_state_m SCAN_COMMENT ;; next_byte
  else if is_char ch "=" then
    ERROR "Expected parameter name before '='" ;; next_byte
  else if is_space ch then next_byte
  else
    TOKEN_START ;;
    mode <- gets arg_mode ;;
    match mode with
    | ARG_TRADITIONAL =>
        if_ok (and_then (TOKEN_CHAR_UPPER ch) emit_str)
          (modify (set_in_arg_value false) ;;
           set_state_m SCAN_AFTER_TRADITIONAL_KEY)
    | ARG_EXTENDED =>
        if_ok (TOKEN_CHAR_UPPER ch)
          (modify (set_in_arg_value false) ;;
           set_state_m SCAN_EXTENDED_KEY)
    | ARG_RAW =>
        if_ok (TOKEN_CHAR ch) (set_state_m SCAN_ARG_VALUE)
    end ;;
    next_byte.

Definition case_EXTENDED_KEY (ch : ascii) : M bool :=
  if is_char ch LF || is_char ch ";" then
    free_token ;;
    end_arg_segment ch ;;
    next_byte
  else if is_space ch then
    if_ok emit_possible_str (set_state_m SCAN_AFTER_EXTENDED_KEY) ;;
    next_byte
  else if is_char ch "=" then
    if_ok emit_possible_str (set_state_m SCAN_AFTER_EXTENDED_SEPARATOR) ;;
    next_byte
  else if is_char ch ENTER_EXPR then
    if_ok (and_then emit_possible_str emit_bridge) (ignore enter_expr) ;;
    next_byte
  else if is_char ch DQUOTE then
    if_ok (and_then emit_possible_str emit_bridge)
      (modify (set_after_str SCAN_AFTER_EXPR) ;;
       set_state_m SCAN_STR) ;;
    next_byte
  else
    ignore (TOKEN_CHAR_UPPER ch) ;;
    next_byte.

Definition case_AFTER_EXTENDED_KEY (ch : ascii) : M bool :=
  if is_char ch "=" then
    set_state_m SCAN_AFTER_EXTENDED_SEPARATOR ;; next_byte
  else if is_space ch then next_byte
  else if is_char ch ";" || is_char ch LF then
    end_arg_segment ch ;; next_byte
  else
    modify (set_in_arg_value true) ;;
    end_arg_segment ch ;;
    next_byte.

Definition case_AFTER_EXTENDED_SEPARATOR (ch : ascii) : M bool :=
  if is_char ch LF || is_char ch ";" then
    end_arg_segment ch ;; next_byte
  else if is_space ch then next_byte
  else if is_char ch DQUOTE then
    modify (set_in_arg_value true) ;;
    modify (set_after_str SCAN_AFTER_EXPR) ;;
    set_state_m SCAN_STR ;;
    next_byte
  else if is_char ch ENTER_EXPR then
    modify (set_in_arg_value true) ;;
    ignore enter_expr ;;
    next_byte
  else
    modify (set_in_arg_value true) ;;
    set_state_m SCAN_ARG_VALUE ;;
    BACK_UP.

Definition case_AFTER_TRADITIONAL_KEY (ch : ascii) : M bool :=
  if is_char ch "=" then next_byte
  else if is_char ch LF || is_char ch ";" || is_space ch then
    end_arg_segment ch ;; next_byte
  else if is_char ch DQUOTE then
    modify (set_after_str SCAN_ARG_VALUE) ;;
    set_state_m SCAN_STR ;;
    next_byte
  else if is_char ch ENTER_EXPR then
    modify (set_in_arg_value true) ;;
    ignore enter_expr ;;
    next_byte
  else
    set_state_m SCAN_ARG_VALUE ;;
    modify (set_in_arg_value true) ;;
    BACK_UP.

Definition case_ARG_VALUE (ch : ascii) : M bool :=
  if is_char ch LF then
    ignore emit_possible_str ;;
    ignore emit_end_of_statement ;;
    next_byte
  else if is_char ch ";" then
    mode <- gets arg_mode ;;
    match mode with
    | ARG_RAW => ignore (TOKEN_CHAR ch)
    | _ => if_ok emit_possible_str (set_state_m SCAN_COMMENT)
    end ;;
    next_byte
  else if is_space ch then
    mode <- gets arg_mode ;;
    match mode with
    | ARG_RAW => ignore (TOKEN_CHAR ch)
    | _ => if_ok emit_possible_str (set_state_m SCAN_ARGS)
    end ;;
    next_byte
  else if is_char ch DQUOTE then
    if_ok (and_then emit_possible_str emit_bridge)
      (modify (set_after_str SCAN_AFTER_EXPR) ;;
       set_state_m SCAN_STR) ;;
    next_byte
  else if is_char ch ENTER_EXPR then
    if_ok (and_then emit_possible_str emit_bridge) (ignore enter_expr) ;;
    next_byte
  else
    ignore (TOKEN_CHAR ch) ;;
    next_byte.

Definition case_COMMENT (ch : ascii) : M bool :=
  if is_char ch LF then ignore emit_end_of_statement ;; next_byte
  else next_byte.

Definition case_EMPTY_LINE_COMMENT (ch : ascii) : M bool :=
  if is_char ch LF then set_state_m SCAN_NEWLINE ;; next_byte
  else next_byte.

Definition case_EXPR (ch : ascii) : M bool :=
  if is_char ch LF then
    TOKEN_START ;;
    TOKEN_STOP ;;
    ERROR "Unterminated expression" ;;
    set_state_m SCAN_NEWLINE ;;
    next_byte
  else if is_space ch then next_byte
  else if is_char ch "(" then
    modify (fun l => set_expr_nesting (to_size_t (expr_nesting l + 1)) l) ;;
    ignore (EMIT_CHAR_SYMBOL ch) ;;
    next_byte
  else if is_char ch ")" then
    modify (fun l =>
      if negb (expr_nesting l =? 0)
      then set_expr_nesting (to_size_t (expr_nesting l - 1)) l
      else l) ;;
    ignore (EMIT_CHAR_SYMBOL ch) ;;
    next_byte
  else if is_char ch EXIT_EXPR then
    modify (set_expr_nesting 0) ;;
    if_ok (EMIT_CHAR_SYMBOL ch) (set_state_m SCAN_AFTER_EXPR) ;;
    next_byte
  else if is_char ch "0" then
    TOKEN_START ;;
    ignore (TOKEN_CHAR ch) ;;
    set_state_m SCAN_NUMBER_BASE ;;
    next_byte
  else if is_char ch "'" || is_char ch "`" then
    TOKEN_START ;;
    ERROR ("Unexpected character " ++ String ch EmptyString) ;;
    next_byte
  else if is_char ch "." then
    TOKEN_START ;;
    ignore (TOKEN_CHAR ch) ;;
    set_state_m SCAN_DOT ;;
    next_byte
  else if is_char ch DQUOTE then
    TOKEN_START ;;
    modify (set_after_str SCAN_EXPR) ;;
    set_state_m SCAN_STR ;;
    next_byte
  else
    TOKEN_START ;;
    (if between "1" ch "9" then
       ignore (TOKEN_CHAR ch) ;;
       modify (set_int_value (code ch - code "0")) ;;
       modify (set_digit_count 1) ;;
       set_state_m SCAN_DECIMAL
     else if is_symbol_char ch then
       set_state_m SCAN_SYMBOL ;;
       ignore (TOKEN_CHAR ch)
     else
       set_state_m SCAN_IDENTIFIER ;;
       ignore (TOKEN_CHAR_LOWER ch)) ;;
    next_byte.

Definition case_AFTER_EXPR (ch : ascii) : M bool :=
  mode <- gets arg_mode ;;
  in_value <- gets in_arg_value ;;
  match mode with
  | ARG_RAW => end_arg_segment ch ;; next_byte
  | _ =>
      if is_char ch LF || is_char ch ";" then
        end_arg_segment ch ;; next_byte
      else if is_space ch then
        match mode, in_value with
        | ARG_EXTENDED, false => set_state_m SCAN_AFTER_EXTENDED_KEY
        | _, _ => end_arg_segment ch
        end ;;
        next_byte
      else
        match mode with
        | ARG_TRADITIONAL =>
            if in_value then
              (if negb (is_char ch DQUOTE) && negb (is_char ch ENTER_EXPR)
               then ignore emit_bridge else ret tt) ;;
              set_state_m SCAN_ARG_VALUE
            else set_state_m SCAN_AFTER_TRADITIONAL_KEY
        | _ =>
            (if negb (is_char ch DQUOTE) && negb (is_char ch ENTER_EXPR)
             then ignore emit_bridge else ret tt) ;;
            if in_value then set_state_m SCAN_ARG_VALUE
            else set_state_m SCAN_EXTENDED_KEY
        end ;;
        BACK_UP
  end.

Definition case_SYMBOL (ch : ascii) : M bool :=
  len <- gets token_length ;;
  c1 <- gets (fun l => token_at l 0) ;;
  if (len =? 0)%nat || ((len =? 1)%nat && continue_symbol c1 ch) then
    ignore (TOKEN_CHAR ch) ;;
    next_byte
  else
    ok <- emit_symbol ;;
    if negb ok then next_byte
    else
      set_state_m SCAN_EXPR ;;
      BACK_UP.

Definition case_IDENTIFIER (ch : ascii) : M bool :=
  if is_ident_char ch then
    ignore (TOKEN_CHAR_LOWER ch) ;;
    next_byte
  else
    ok <- emit_keyword_or_identifier ;;
    if negb ok then next_byte
    else if is_char ch "." then
      ignore (TOKEN_CHAR ch) ;;
      set_state_m SCAN_DOT ;;
      next_byte
    else
      set_state_m SCAN_EXPR ;;
      BACK_UP.

Definition case_STR (ch : ascii) : M bool :=
  if is_char ch BACKSLASH then
    set_state_m SCAN_STR_ESCAPE ;; next_byte
  else if is_char ch DQUOTE then
    if_ok emit_str (s <- gets after_str ;; set_state_m s) ;;
    next_byte
  else if is_char ch LF then
    ERROR "Unterminated string" ;;
    free_token ;;
    set_state_m SCAN_NEWLINE ;;
    next_byte
  else
    ignore (TOKEN_CHAR ch) ;;
    next_byte.

(** The macro [CASE_STR_ESC]. *)
Definition CASE_STR_ESC (byte : ascii) : M bool :=
  if_ok (TOKEN_CHAR byte) (set_state_m SCAN_STR) ;;
  next_byte.

Definition case_STR_ESCAPE (ch : ascii) : M bool :=
  if is_char ch "a" then CASE_STR_ESC "007"
  else if is_char ch "b" then CASE_STR_ESC "008"
  else if is_char ch "e" then CASE_STR_ESC "027"
  else if is_char ch "f" then CASE_STR_ESC "012"
  else if is_char ch "n" then CASE_STR_ESC "010"
  else if is_char ch "r" then CASE_STR_ESC "013"
  else if is_char ch "t" then CASE_STR_ESC "009"
  else if is_char ch "v" then CASE_STR_ESC "011"
  else if is_char ch BACKSLASH then CASE_STR_ESC BACKSLASH
  else if is_char ch "'" then CASE_STR_ESC "'"
  else if is_char ch DQUOTE then CASE_STR_ESC DQUOTE
  else if is_char ch "?" then CASE_STR_ESC "?"
  else if is_char ch "x" then
    clear_number ;; set_state_m SCAN_STR_HEX ;; next_byte
  else if is_char ch "u" then
    clear_number ;; set_state_m SCAN_STR_LOW_UNICODE ;; next_byte
  else if is_char ch "U" then
    clear_number ;; set_state_m SCAN_STR_HIGH_UNICODE ;; next_byte
  else if is_char ch LF then
    ERROR "Unterminated string" ;;
    free_token ;;
    set_state_m SCAN_NEWLINE ;;
    next_byte
  else if between "0" ch "9" then
    clear_number ;;
    set_state_m SCAN_STR_OCTAL ;;
    BACK_UP
  else
    ERROR ("Illegal string escape " ++ String BACKSLASH (String ch EmptyString)) ;;
    free_token ;;
    next_byte.

Definition digit_count_is (n : Z) : M bool :=
  d <- gets digit_count ;; ret (d =? n).

Definition case_STR_OCTAL (ch : ascii) : M bool :=
  if between "0" ch "7" then
    if_ok (and_then
             (add_digit (code ch - code "0") 8 255
                "Octal escape (\nnn) exceeds byte value")
             (and_then (digit_count_is 3)
                (v <- gets int_value ;; TOKEN_CHAR (to_char v))))
      (set_state_m SCAN_STR) ;;
    next_byte
  else if is_char ch "8" || is_char ch "9" then
    ERROR "Illegal digit in octal escape (\nnn)" ;;
    free_token ;;
    next_byte
  else
    if_ok (v <- gets int_value ;; TOKEN_CHAR (to_char v))
      (set_state_m SCAN_STR) ;;
    BACK_UP.

Definition case_STR_HEX (ch : ascii) : M bool :=
  let digit_value := hex_digit_to_int ch in
  if digit_value =? -1 then
    no_digits <- digit_count_is 0 ;;
    if no_digits then
      ERROR "Hex string escape (\x) requires at least one digit" ;;
      free_token ;;
      next_byte
    else
      if_ok (v <- gets int_value ;; TOKEN_CHAR (to_char v))
        (set_state_m SCAN_STR) ;;
      BACK_UP
  else
    ok <- add_digit digit_value 16 255 "Hex escape exceeds byte value" ;;
    (if negb ok then set_state_m SCAN_ERROR else ret tt) ;;
    next_byte.

Definition case_STR_LOW_UNICODE (ch : ascii) : M bool :=
  let digit_value := hex_digit_to_int ch in
  if digit_value =? -1 then
    ERROR "Low unicode escape (\u) requires exactly four digits" ;;
    free_token ;;
    next_byte
  else
    add_safe_digit digit_value 16 ;;
    if_ok (and_then (digit_count_is 4) add_str_wchar) (set_state_m SCAN_STR) ;;
    next_byte.

Definition case_STR_HIGH_UNICODE (ch : ascii) : M bool :=
  let digit_value := hex_digit_to_int ch in
  if digit_value =? -1 then
    ERROR "High unicode escape (\U) requires exactly eight digits" ;;
    free_token ;;
    next_byte
  else
    if_ok (and_then
             (add_digit digit_value 16 UNICODE_MAX
                "High unicode escape (\U) exceeds unicode value")
             (and_then (digit_count_is 8) add_str_wchar))
      (set_state_m SCAN_STR) ;;
    next_byte.

Definition case_NUMBER_BASE (ch : ascii) : M bool :=
  if is_char ch "b" || is_char ch "B" then
    free_token ;;
    clear_number ;;
    set_state_m SCAN_BINARY ;;
    next_byte
  else if is_char ch "x" || is_char ch "X" then
    ignore (TOKEN_CHAR ch) ;;
    clear_number ;;
    set_state_m SCAN_HEX ;;
    next_byte
  else if is_char ch "." then
    ignore (TOKEN_CHAR ch) ;;
    set_state_m SCAN_DECIMAL_FRACTION ;;
    next_byte
  else if is_char ch "e" || is_char ch "E" then
    ignore (TOKEN_CHAR ch) ;;
    set_state_m SCAN_DECIMAL_EXPONENT_SIGN ;;
    next_byte
  else if between "0" ch "9" then
    free_token ;;
    modify (set_int_value 0) ;;
    set_state_m SCAN_OCTAL ;;
    BACK_UP
  else
    free_token ;;
    if_ok (emit_int 0) (set_state_m SCAN_EXPR) ;;
    BACK_UP.

Definition case_DECIMAL (ch : ascii) : M bool :=
  if is_char ch "." then
    ignore (TOKEN_CHAR ch) ;;
    set_state_m SCAN_DECIMAL_FRACTION ;;
    next_byte
  else if is_char ch "e" || is_char ch "E" then
    ignore (TOKEN_CHAR ch) ;;
    set_state_m SCAN_DECIMAL_EXPONENT_SIGN ;;
    next_byte
  else if between "0" ch "9" then
    ignore (TOKEN_CHAR ch) ;;
    exceeds <- digit_exceeds (code ch - code "0") 10 INT64_MAX ;;
    (if exceeds then set_state_m SCAN_DECIMAL_FLOAT
     else add_safe_digit (code ch - code "0") 10) ;;
    next_byte
  else
    free_token ;;
    if_ok EMIT_INT (set_state_m SCAN_EXPR) ;;
    BACK_UP.

Definition case_HEX (ch : ascii) : M bool :=
  if is_char ch "." then
    ignore (TOKEN_CHAR ch) ;;
    set_state_m SCAN_HEX_FRACTION ;;
    next_byte
  else if is_char ch "p" || is_char ch "P" then
    ignore (TOKEN_CHAR ch) ;;
    set_state_m SCAN_HEX_EXPONENT_SIGN ;;
    next_byte
  else
    let digit_value := hex_digit_to_int ch in
    if negb (digit_value =? -1) then
      ignore (TOKEN_CHAR ch) ;;
      exceeds <- digit_exceeds digit_value 16 INT64_MAX ;;
      (if exceeds then set_state_m SCAN_HEX_FLOAT
       else add_safe_digit digit_value 16) ;;
      next_byte
    else
      free_token ;;
      if_ok EMIT_INT (set_state_m SCAN_EXPR) ;;
      BACK_UP.

Definition case_BINARY (ch : ascii) : M bool :=
  if is_char ch "0" || is_char ch "1" then
    ignore (add_digit (code ch - code "0") 2 INT64_MAX
              "Binary literal exceeds maximum value") ;;
    next_byte
  else if is_char ch "." then
    ERROR "Fractional binary literals not allowed" ;; next_byte
  else if between "2" ch "9" then
    ERROR ("Illegal binary digit " ++ String ch EmptyString) ;; next_byte
  else
    if_ok EMIT_INT (set_state_m SCAN_EXPR) ;;
    BACK_UP.

Definition case_OCTAL (ch : ascii) : M bool :=
  if between "0" ch "7" then
    ignore (add_digit (code ch - code "0") 8 INT64_MAX
              "Octal literal exceeds maximum value") ;;
    next_byte
  else if is_char ch "." then
    ERROR "Fractional octal literals not allowed" ;; next_byte
  else if is_char ch "8" || is_char ch "9" then
    ERROR ("Illegal octal digit " ++ String ch EmptyString) ;; next_byte
  else
    if_ok EMIT_INT (set_state_m SCAN_EXPR) ;;
    BACK_UP.

Definition case_DOT (ch : ascii) : M bool :=
  if between "0" ch "9" then
    ignore (TOKEN_CHAR ch) ;;
    set_state_m SCAN_DECIMAL_FRACTION ;;
    next_byte
  else
    ok <- emit_symbol ;;
    if negb ok then next_byte
    else
      set_state_m SCAN_EXPR ;;
      BACK_UP.

Definition case_DECIMAL_FLOAT (ch : ascii) : M bool :=
  if is_char ch "." then
    ignore (TOKEN_CHAR ch) ;;
    set_state_m SCAN_DECIMAL_FRACTION ;;
    next_byte
  else if is_char ch "e" || is_char ch "E" then
    ignore (TOKEN_CHAR ch) ;;
    set_state_m SCAN_DECIMAL_EXPONENT_SIGN ;;
    next_byte
  else if between "0" ch "9" then
    ignore (TOKEN_CHAR ch) ;;
    next_byte
  else
    if_ok emit_float (set_state_m SCAN_EXPR) ;;
    BACK_UP.

Definition case_DECIMAL_FRACTION (ch : ascii) : M bool :=
  if is_char ch "e" || is_char ch "E" then
    ignore (TOKEN_CHAR ch) ;;
    set_state_m SCAN_DECIMAL_EXPONENT_SIGN ;;
    next_byte
  else if between "0" ch "9" then
    ignore (TOKEN_CHAR ch) ;;
    next_byte
  else
    if_ok emit_float (set_state_m SCAN_EXPR) ;;
    BACK_UP.

Definition case_DECIMAL_EXPONENT_SIGN (ch : ascii) : M bool :=
  if is_char ch "-" then
    ignore (TOKEN_CHAR ch) ;;
    set_state_m SCAN_DECIMAL_EXPONENT ;;
    next_byte
  else
    set_state_m SCAN_DECIMAL_EXPONENT ;;
    BACK_UP.

Definition case_DECIMAL_EXPONENT (ch : ascii) : M bool :=
  if between "0" ch "9" then
    ignore (TOKEN_CHAR ch) ;;
    next_byte
  else
    no_digits <- digit_count_is 0 ;;
    if no_digits then
      free_token ;;
      ERROR "No digits after decimal exponent delimiter" ;;
      next_byte
    else
      if_ok emit_float (set_state_m SCAN_EXPR) ;;
      BACK_UP.

Definition case_HEX_FLOAT (ch : ascii) : M bool :=
  if is_char ch "." then
    ignore (TOKEN_CHAR ch) ;;
    set_state_m SCAN_HEX_FRACTION ;;
    next_byte
  else if is_char ch "p" || is_char ch "P" then
    ignore (TOKEN_CHAR ch) ;;
    set_state_m SCAN_HEX_EXPONENT_SIGN ;;
    next_byte
  else if negb (hex_digit_to_int ch =? -1) then
    ignore (TOKEN_CHAR ch) ;;
    next_byte
  else
    if_ok emit_float (set_state_m SCAN_EXPR) ;;
    BACK_UP.

Definition case_HEX_FRACTION (ch : ascii) : M bool :=
  if is_char ch "p" || is_char ch "P" then
    ignore (TOKEN_CHAR ch) ;;
    set_state_m SCAN_HEX_EXPONENT_SIGN ;;
    next_byte
  else if negb (hex_digit_to_int ch =? -1) then
    ignore (TOKEN_CHAR ch) ;;
    next_byte
  else
    if_ok emit_float (set_state_m SCAN_EXPR) ;;
    BACK_UP.

Definition case_HEX_EXPONENT_SIGN (ch : ascii) : M bool :=
  if is_char ch "-" then
    ignore (TOKEN_CHAR ch) ;;
    set_state_m SCAN_HEX_EXPONENT ;;
    next_byte
  else
    set_state_m SCAN_HEX_EXPONENT ;;
    BACK_UP.

Definition case_HEX_EXPONENT (ch : ascii) : M bool :=
  if negb (hex_digit_to_int ch =? -1) then
    ignore (TOKEN_CHAR ch) ;;
    next_byte
  else
    no_digits <- digit_count_is 0 ;;
    if no_digits then
      free_token ;;
      ERROR "No digits after hex exponent delimiter" ;;
      next_byte
    else
      ignore emit_float ;;
      set_state_m SCAN_EXPR ;;
      BACK_UP.

(** [switch (lexer->state)].  The [default:] of the C switch (an unknown
    state) has no counterpart: [state_t] has no other value. *)
Definition scan_case (s : state_t) (ch : ascii) : M bool :=
  match s with
  | SCAN_NEWLINE => case_NEWLINE ch
  | SCAN_ERROR => case_ERROR ch
  | SCAN_LINENO => case_LINENO ch
  | SCAN_AFTER_LINENO => case_AFTER_LINENO ch
  | SCAN_COMMAND_NAME => case_COMMAND_NAME ch
  | SCAN_ARGS => case_ARGS ch
  | SCAN_EXTENDED_KEY => case_EXTENDED_KEY ch
  | SCAN_AFTER_EXTENDED_KEY => case_AFTER_EXTENDED_KEY ch
  | SCAN_AFTER_EXTENDED_SEPARATOR => case_AFTER_EXTENDED_SEPARATOR ch
  | SCAN_AFTER_TRADITIONAL_KEY => case_AFTER_TRADITIONAL_KEY ch
  | SCAN_ARG_VALUE => case_ARG_VALUE ch
  | SCAN_COMMENT => case_COMMENT ch
  | SCAN_EMPTY_LINE_COMMENT => case_EMPTY_LINE_COMMENT ch
  | SCAN_EXPR => case_EXPR ch
  | SCAN_AFTER_EXPR => case_AFTER_EXPR ch
  | SCAN_SYMBOL => case_SYMBOL ch
  | SCAN_IDENTIFIER => case_IDENTIFIER ch
  | SCAN_STR => case_STR ch
  | SCAN_STR_ESCAPE => case_STR_ESCAPE ch
  | SCAN_STR_OCTAL => case_STR_OCTAL ch
  | SCAN_STR_HEX => case_STR_HEX ch
  | SCAN_STR_LOW_UNICODE => case_STR_LOW_UNICODE ch
  | SCAN_STR_HIGH_UNICODE => case_STR_HIGH_UNICODE ch
  | SCAN_NUMBER_BASE => case_NUMBER_BASE ch
  | SCAN_DECIMAL => case_DECIMAL ch
  | SCAN_HEX => case_HEX ch
  | SCAN_BINARY => case_BINARY ch
  | SCAN_OCTAL => case_OCTAL ch
  | SCAN_DOT => case_DOT ch
  | SCAN_DECIMAL_FLOAT => case_DECIMAL_FLOAT ch
  | SCAN_DECIMAL_FRACTION => case_DECIMAL_FRACTION ch
  | SCAN_DECIMAL_EXPONENT_SIGN => case_DECIMAL_EXPONENT_SIGN ch
  | SCAN_DECIMAL_EXPONENT => case_DECIMAL_EXPONENT ch
  | SCAN_HEX_FLOAT => case_HEX_FLOAT ch
  | SCAN_HEX_FRACTION => case_HEX_FRACTION ch
  | SCAN_HEX_EXPONENT_SIGN => case_HEX_EXPONENT_SIGN ch
  | SCAN_HEX_EXPONENT => case_HEX_EXPONENT ch
  end.

(** The end of the loop body: the position moves by the value [ch] has then
    (zero after [BACK_UP]). *)
Definition advance (ch : ascii) : M unit :=
  if is_char ch LF then
    modify (fun l => set_line (to_uint32 (line l + 1)) l) ;;
    modify (set_column 1)
  else
    modify (fun l => set_column (to_uint32 (column l + 1)) l).

(** One run of the loop body on the byte under [buffer]. *)
Definition scan_iteration (ch : ascii) : M bool :=
  s <- gets state ;;
  backed_up <- scan_case s ch ;;
  advance (if backed_up then NUL else ch) ;;
  ret backed_up.

(** The loop of [gcode_lexer_scan].  After [BACK_UP] the increment of the
    [for] brings [buffer] back to the same byte, so the recursion is not on
    the buffer alone; [fuel] bounds the number of runs of the body, and
    [None] means it was used up. *)
Fixpoint scan_loop (fuel : nat) (lexer : GCodeLexer) (buffer : list ascii)
  : option GCodeLexer :=
  match buffer with
  | [] => Some lexer
  | ch :: rest =>
      match fuel with
      | O => None
      | S fuel' =>
          let (backed_up, lexer') := scan_iteration ch lexer in
          scan_loop fuel' lexer' (if backed_up then buffer else rest)
      end
  end.

(** No byte is looked at more than three times (see [scan_total] below), so
    this much fuel is never used up. *)
Definition scan_fuel (buffer : list ascii) : nat := 3 * List.length buffer.

Definition gcode_lexer_scan (lexer : GCodeLexer) (buffer : list ascii)
  : option GCodeLexer :=
  scan_loop (scan_fuel buffer) lexer buffer.

Definition gcode_lexer_finish (lexer : GCodeLexer) : option GCodeLexer :=
  if negb (state_eqb (state lexer) SCAN_NEWLINE)
  then gcode_lexer_scan lexer [LF]
  else Some lexer.

Definition gcode_lexer_reset (lexer : GCodeLexer) : GCodeLexer :=
  set_column 1 (set_line 1 (set_token_length 0 (set_state SCAN_NEWLINE lexer))).

(** [gcode_lexer_new].  [raw] is the struct as [malloc] returns it: the
    fields that neither this function nor [gcode_lexer_reset] assigns keep
    the values they have in [raw].  The record of emissions starts empty. *)
Definition gcode_lexer_new (raw : GCodeLexer) (context : Ctx)
    (location : option GCodeLocation) : GCodeLexer :=
  gcode_lexer_reset
    (set_emitted []
      (set_error_limit 0
        (set_error_str None
          (set_token_limit 0
            (set_token_length 0
              (set_token_str None
                (set_location location
                  (set_context context raw)))))))).

(** Scanning a sequence of chunks, one call per chunk. *)
Fixpoint scan_chunks (lexer : GCodeLexer) (chunks : list (list ascii))
  : option GCodeLexer :=
  match chunks with
  | [] => Some lexer
  | chunk :: rest =>
      match gcode_lexer_scan lexer chunk with
      | Some lexer' => scan_chunks lexer' rest
      | None => None
      end
  end.

End Scan.

(** ** Concrete surroundings, for running the lexer on concrete inputs *)

(** A platform whose fresh memory is zeroed, whose [strtod] accepts the whole
    text it is given and returns it as the value, and whose [wctomb] knows
    the 7-bit characters only (the "C" locale). *)
Definition sample_platform : Platform := {|
  float := string;
  strtod := fun s => (s, String.length s);
  wctomb := fun v =>
    if (0 <=? v) && (v <? 128) then Some [to_char v] else None;
  uninit := fun _ => NUL
|}.

(** An owner without state whose callbacks all return true. *)
Definition accept_all `{Platform} : Callbacks := {|
  Ctx := unit;
  callback := fun c _ => (c, true)
|}.

(** An owner whose [lex_end_statement] returns false and whose other
    callbacks return true. *)
Definition reject_end_statement `{Platform} : Callbacks := {|
  Ctx := unit;
  callback := fun c e =>
    match e with
    | lex_end_statement => (c, false)
    | _ => (c, true)
    end
|}.

(** An owner whose [lex_identifier] returns false for the name [X] and
    whose other callbacks return true. *)
Definition reject_identifier_x `{Platform} : Callbacks := {|
  Ctx := unit;
  callback := fun c e =>
    match e with
    | lex_identifier "X" => (c, false)
    | _ => (c, true)
    end
|}.

(** A lexer struct whose every byte is zero. *)
Definition zeroed `{CB : Callbacks} (c : Ctx) : GCodeLexer := {|
  context := c;
  state := SCAN_NEWLINE;
  token_str := None;
  token_length := 0;
  token_limit := 0;
  error_str := None;
  error_limit := 0;
  expr_nesting := 0;
  int_value := 0;
  digit_count := 0;
  line := 0;
  column := 0;
  arg_mode := ARG_TRADITIONAL;
  after_str := SCAN_NEWLINE;
  in_arg_value := false;
  location := None;
  emitted := []
|}.

(** Input text: the bytes of each line, each followed by a newline. *)
Definition text_line (s : string) : list ascii := list_ascii_of_string s ++ [LF].

Fixpoint text_lines (lines : list string) : list ascii :=
  match lines with
  | [] => []
  | s :: rest => text_line s ++ text_lines rest
  end.

(** The emissions of a scan that ran to the end of its input. *)
Definition emissions `{CB : Callbacks} (r : option GCodeLexer) : list emission :=
  match r with
  | Some l => emitted l
  | None => []
  end.

(** ** Notions used in the statements *)

(** How many more times the loop can run [BACK_UP] on the byte it is
    looking at, by the state it is in: a case that backs up leaves the lexer
    in a state of smaller rank. *)
Definition backup_rank (s : state_t) : nat :=
  match s with
  | SCAN_AFTER_EXPR | SCAN_STR_ESCAPE | SCAN_NUMBER_BASE
  | SCAN_DECIMAL_EXPONENT_SIGN | SCAN_HEX_EXPONENT_SIGN => 2
  | SCAN_NEWLINE | SCAN_AFTER_LINENO | SCAN_AFTER_EXTENDED_SEPARATOR
  | SCAN_AFTER_TRADITIONAL_KEY | SCAN_SYMBOL | SCAN_IDENTIFIER
  | SCAN_STR_OCTAL | SCAN_STR_HEX | SCAN_DECIMAL | SCAN_HEX | SCAN_BINARY
  | SCAN_OCTAL | SCAN_DOT | SCAN_DECIMAL_FLOAT | SCAN_DECIMAL_FRACTION
  | SCAN_DECIMAL_EXPONENT | SCAN_HEX_FLOAT | SCAN_HEX_FRACTION
  | SCAN_HEX_EXPONENT => 1
  | _ => 0
  end.

(** Fuel that is enough for [scan_loop] on [buffer] from [lexer]. *)
Definition fuel_needed `{CB : Callbacks} (lexer : GCodeLexer)
    (buffer : list ascii) : nat :=
  match buffer with
  | [] => 0
  | _ :: rest => backup_rank (state lexer) + 1 + 3 * List.length rest
  end.

(** What buffer handling, location tracking, error formatting and callback
    calls leave alone: the state and the nesting counter. *)
Definition frame `{CB : Callbacks} (l l' : GCodeLexer) : Prop :=
  state l' = state l /\ expr_nesting l' = expr_nesting l.

(** The helpers that hand a token to a callback and look at its result. *)
Inductive emit_helper : Set :=
| via_emit_symbol
| via_emit_char_symbol (ch : ascii)
| via_emit_bridge
| via_emit_str
| via_emit_ident
| via_emit_int (value : Z)
| via_emit_float.

Definition run_helper `{CB : Callbacks} (h : emit_helper) : M bool :=
  match h with
  | via_emit_symbol => emit_symbol
  | via_emit_char_symbol ch => emit_char_symbol ch
  | via_emit_bridge => emit_bridge
  | via_emit_str => emit_str
  | via_emit_ident => emit_ident
  | via_emit_int value => emit_int value
  | via_emit_float => emit_float
  end.

(** The emissions made after the lexer was in the condition [before]. *)
Definition emissions_since `{CB : Callbacks} (before : GCodeLexer)
    (r : option GCodeLexer) : list emission :=
  skipn (List.length (emitted before)) (emissions r).

(** The token buffer as a list, and the bytes of the token in progress. *)
Definition token_block `{CB : Callbacks} (l : GCodeLexer) : list ascii :=
  match token_str l with
  | None => []
  | Some buf => buf
  end.

Definition token_bytes `{CB : Callbacks} (l : GCodeLexer) : list ascii :=
  firstn (token_length l) (token_block l).

(** The buffer fields agree with each other: no block and no capacity, or a
    block of [token_limit] bytes that holds the token. *)
Definition token_ok `{CB : Callbacks} (l : GCodeLexer) : Prop :=
  match token_str l with
  | None => token_limit l = 0%nat /\ token_length l = 0%nat
  | Some buf =>
      List.length buf = token_limit l
      /\ (token_length l <= token_limit l)%nat
      /\ (0 < token_limit l)%nat
  end.

(** A byte that raw text may contain after its first byte: no newline, no
    opening of a string or an expression, and not the terminator. *)
Definition raw_byte (ch : ascii) : bool :=
  negb (is_char ch LF) && negb (is_char ch DQUOTE)
  && negb (is_char ch ENTER_EXPR) && negb (is_char ch NUL).

(** A byte that starts raw text in the argument position. *)
Definition raw_first_byte (ch : ascii) : bool :=
  raw_byte ch && negb (is_space ch) && negb (is_char ch ";")
  && negb (is_char ch "=").

(** A byte that a command name may contain: [name_byte]; one that may
    start it when no line number precedes: [name_first_byte]. *)
Definition name_byte (ch : ascii) : bool :=
  negb (is_char ch ENTER_EXPR) && negb (is_char ch DQUOTE)
  && negb (is_char ch LF) && negb (is_space ch) && negb (is_char ch ";")
  && negb (is_char ch NUL).

Definition name_first_byte (ch : ascii) : bool :=
  name_byte ch && negb (is_char ch "N") && negb (is_char ch "n").

(** New lexers on the sample platform, one per sample owner, with a zeroed
    struct from [malloc] and no location slot. *)
Definition new_accepting : @GCodeLexer sample_platform accept_all :=
  @gcode_lexer_new sample_platform accept_all
    (@zeroed sample_platform accept_all tt) tt None.

Definition new_rejecting_end : @GCodeLexer sample_platform reject_end_statement :=
  @gcode_lexer_new sample_platform reject_end_statement
    (@zeroed sample_platform reject_end_statement tt) tt None.

Definition new_rejecting_x : @GCodeLexer sample_platform reject_identifier_x :=
  @gcode_lexer_new sample_platform reject_identifier_x
    (@zeroed sample_platform reject_identifier_x tt) tt None.

(** The lexer a scan leaves behind. *)
Definition after_scan `{CB : Callbacks} (l : GCodeLexer)
    (buffer : list ascii) : GCodeLexer :=
  match gcode_lexer_scan l buffer with
  | Some l' => l'
  | None => l
  end.

(** *** Notions used in the further properties *)

(** What a case of the switch leaves alone besides the control fields: the
    agreement of the buffer fields, and the position. *)
Definition keeps_buffer `{CB : Callbacks} (l l' : GCodeLexer) : Prop :=
  (token_ok l -> token_ok l') /\ line l' = line l /\ column l' = column l.

(** The number of newline bytes in a buffer. *)
Fixpoint count_newlines (buffer : list ascii) : Z :=
  match buffer with
  | [] => 0
  | ch :: rest => (if is_char ch LF then 1 else 0) + count_newlines rest
  end.


(** The number that a sequence of decimal digits denotes. *)
Definition decimal_value (digits : list ascii) : Z :=
  fold_left (fun v ch => v * 10 + (code ch - code "0")) digits 0.

(** A byte that ends a decimal integer literal. *)
Definition ends_decimal (ch : ascii) : bool :=
  negb (is_digit ch) && negb (is_char ch ".") && negb (is_char ch "e")
  && negb (is_char ch "E").

(** A byte of a string literal that stands for itself. *)
Definition string_byte (ch : ascii) : bool :=
  negb (is_char ch BACKSLASH) && negb (is_char ch DQUOTE)
  && negb (is_char ch LF) && negb (is_char ch NUL).

(** A byte of an unquoted argument value outside raw mode. *)
Definition value_byte (ch : ascii) : bool :=
  raw_byte ch && negb (is_space ch) && negb (is_char ch ";").

(** The states in which a newline byte ends the statement at once. *)
Definition ends_at_newline (s : state_t) : bool :=
  match s with
  | SCAN_NEWLINE | SCAN_ERROR | SCAN_LINENO | SCAN_AFTER_LINENO
  | SCAN_COMMAND_NAME | SCAN_ARGS | SCAN_EXTENDED_KEY
  | SCAN_AFTER_EXTENDED_KEY | SCAN_AFTER_EXTENDED_SEPARATOR
  | SCAN_AFTER_TRADITIONAL_KEY | SCAN_ARG_VALUE | SCAN_COMMENT
  | SCAN_EMPTY_LINE_COMMENT | SCAN_EXPR | SCAN_AFTER_EXPR | SCAN_STR
  | SCAN_STR_ESCAPE => true
  | _ => false
  end.

(** The states of a numeric string escape in which a newline byte is an
    error: [\u] and [\U] always, [\x] before its first digit. *)
Definition escape_open `{CB : Callbacks} (l : GCodeLexer) : bool :=
  match state l with
  | SCAN_STR_LOW_UNICODE | SCAN_STR_HIGH_UNICODE => true
  | SCAN_STR_HEX => digit_count l =? 0
  | _ => false
  end.




(** ** Properties *)

Section Facts.

Context {PF : Platform} {CB : Callbacks}.

Ltac fields :=
  cbn [fst snd state set_state set_context set_token_str set_token_length
       set_token_limit set_error_str set_error_limit set_expr_nesting
       set_int_value set_digit_count set_line set_column set_arg_mode
       set_after_str set_in_arg_value set_location set_emitted
       context token_str token_length token_limit error_str error_limit
       expr_nesting int_value digit_count line column arg_mode after_str
       in_arg_value location emitted negb andb orb] in *.

(** *** The primitives and the control fields *)

Lemma token_char_frame ch l :
  exists l', token_char ch l = (true, l') /\ frame l l'.
Proof.
  unfold token_char, token_alloc, bind, gets, modify, ret, frame.
  destruct (token_length l =? token_limit l)%nat; [destruct (token_str l)|];
    eexists; split; try reflexivity; fields; auto.
Qed.

Lemma token_chars_frame bytes l :
  exists l', token_chars bytes l = (true, l') /\ frame l l'.
Proof.
  revert l; induction bytes as [|b rest IH]; intros l; cbn [token_chars].
  - exists l. unfold ret, frame. auto.
  - unfold bind. destruct (token_char_frame b l) as (l1 & -> & H1 & H2).
    destruct (IH l1) as (l2 & -> & H3 & H4).
    exists l2. unfold frame. split; [reflexivity|]. split; congruence.
Qed.

Lemma TOKEN_STOP_frame l : exists l', TOKEN_STOP l = (tt, l') /\ frame l l'.
Proof.
  unfold TOKEN_STOP, modify, frame.
  destruct (location l); eexists; split; try reflexivity; fields; auto.
Qed.

Lemma TOKEN_START_frame l : exists l', TOKEN_START l = (tt, l') /\ frame l l'.
Proof.
  unfold TOKEN_START, bind, modify.
  match goal with
  | |- context [TOKEN_STOP ?x] =>
      destruct (TOKEN_STOP_frame x) as (l' & -> & H1 & H2)
  end.
  exists l'. split; [reflexivity|]. revert H1 H2. unfold frame.
  destruct (location l); fields; auto.
Qed.

Lemma emit_error_frame msg l :
  exists l', emit_error msg l = (tt, l') /\ frame l l'.
Proof.
  unfold emit_error, error_printf, bind, modify, gets, ret, frame.
  repeat match goal with
  | |- context [if ?b then _ else _] => destruct b
  end; eexists; split; try reflexivity; fields; auto.
Qed.

Lemma call_frame e l : exists ok l', call e l = (ok, l') /\ frame l l'.
Proof.
  unfold call, frame. destruct (callback (context l) e) as [c ok].
  do 2 eexists; split; try reflexivity; fields; auto.
Qed.

(** Unfolding of everything above the primitives. *)
Ltac unfold_helpers :=
  unfold case_NEWLINE, case_ERROR, case_LINENO, case_AFTER_LINENO,
    case_COMMAND_NAME, case_ARGS, case_EXTENDED_KEY, case_AFTER_EXTENDED_KEY,
    case_AFTER_EXTENDED_SEPARATOR, case_AFTER_TRADITIONAL_KEY, case_ARG_VALUE,
    case_COMMENT, case_EMPTY_LINE_COMMENT, case_EXPR, case_AFTER_EXPR,
    case_SYMBOL, case_IDENTIFIER, case_STR, case_STR_ESCAPE, case_STR_OCTAL,
    case_STR_HEX, case_STR_LOW_UNICODE, case_STR_HIGH_UNICODE,
    case_NUMBER_BASE, case_DECIMAL, case_HEX, case_BINARY, case_OCTAL,
    case_DOT, case_DECIMAL_FLOAT, case_DECIMAL_FRACTION,
    case_DECIMAL_EXPONENT_SIGN, case_DECIMAL_EXPONENT, case_HEX_FLOAT,
    case_HEX_FRACTION, case_HEX_EXPONENT_SIGN, case_HEX_EXPONENT,
    CASE_STR_ESC, BACK_UP, next_byte, if_ok, and_then, ignore, TOKEN_CHAR,
    TOKEN_CHAR_UPPER, TOKEN_CHAR_LOWER, EMIT_CHAR_SYMBOL, clear_number,
    digit_count_is, end_arg_segment, enter_expr, add_digit, digit_exceeds,
    emit_keyword_or_identifier, emit_float, EMIT_INT, emit_int, enter_args,
    emit_ident, emit_possible_str, emit_str, emit_end_of_statement,
    emit_bridge, emit_char_symbol, emit_symbol, free_token, add_safe_digit,
    terminate_token, add_str_wchar, ERROR, set_state_m,
    bind, ret, gets, modify in *.

(** A scrutinee that can be analysed now: nothing in it waits for another
    case analysis or for a primitive to be run. *)
Ltac atomic b :=
  lazymatch b with
  | context [if _ then _ else _] => fail
  | context [match _ with _ => _ end] => fail
  | context [token_char] => fail
  | context [token_chars] => fail
  | context [TOKEN_STOP] => fail
  | context [TOKEN_START] => fail
  | context [emit_error] => fail
  | context [call] => fail
  | _ => idtac
  end.

Ltac use_frame H :=
  let l' := fresh "l" in
  let Hs := fresh "Hstate" in
  let He := fresh "Hnest" in
  destruct H as (l' & -> & Hs & He); fields.

(** One step of symbolic execution: run a primitive by its frame lemma, or
    split on a test. *)
Ltac step :=
  fields;
  match goal with
  | |- context [token_char ?c ?l] =>
      atomic l; use_frame (token_char_frame c l)
  | |- context [token_chars ?c ?l] =>
      atomic l; use_frame (token_chars_frame c l)
  | |- context [TOKEN_STOP ?l] => atomic l; use_frame (TOKEN_STOP_frame l)
  | |- context [TOKEN_START ?l] => atomic l; use_frame (TOKEN_START_frame l)
  | |- context [emit_error ?m ?l] =>
      atomic l; use_frame (emit_error_frame m l)
  | |- context [call ?e ?l] =>
      atomic l;
      let ok := fresh "ok" in
      let H := fresh "Hcall" in
      destruct (call_frame e l) as (ok & H); use_frame H; destruct ok
  | |- context [if ?b then _ else _] => atomic b; destruct b eqn:?
  | |- context [match ?x with _ => _ end] => atomic x; destruct x eqn:?
  end.

Ltac rewrite_frames :=
  repeat match goal with
  | H : state ?g = _ |- context [state ?g] => rewrite H
  | H : expr_nesting ?g = _ |- context [expr_nesting ?g] => rewrite H
  end.

(** *** Termination of the loop *)

Lemma scan_case_backup_rank s ch l :
  fst (scan_case s ch l) = true ->
  (backup_rank (state (snd (scan_case s ch l))) < backup_rank s)%nat.
Proof.
  destruct s; unfold scan_case; unfold_helpers.
  all: repeat step; fields; rewrite_frames; cbn; intros;
    try discriminate; try lia.
Qed.

Lemma backup_rank_le_2 s : (backup_rank s <= 2)%nat.
Proof. destruct s; cbn; lia. Qed.

Lemma scan_iteration_state ch l :
  state (snd (scan_iteration ch l)) = state (snd (scan_case (state l) ch l))
  /\ fst (scan_iteration ch l) = fst (scan_case (state l) ch l).
Proof.
  unfold scan_iteration, advance, bind, gets, ret, modify.
  destruct (scan_case (state l) ch l) as [b l1].
  destruct (is_char (if b then NUL else ch) LF); fields; auto.
Qed.

Lemma scan_iteration_backup_rank ch l :
  fst (scan_iteration ch l) = true ->
  (backup_rank (state (snd (scan_iteration ch l))) < backup_rank (state l))%nat.
Proof.
  destruct (scan_iteration_state ch l) as [-> ->].
  apply scan_case_backup_rank.
Qed.

Lemma fuel_needed_le l buffer :
  (fuel_needed l buffer <= 3 * List.length buffer)%nat.
Proof.
  destruct buffer as [|ch rest]; cbn [fuel_needed List.length]; [lia|].
  pose proof (backup_rank_le_2 (state l)). lia.
Qed.

Lemma scan_loop_enough fuel : forall l buffer,
  (fuel_needed l buffer <= fuel)%nat ->
  exists l', scan_loop fuel l buffer = Some l'.
Proof.
  induction fuel as [|fuel IH]; intros l buffer Hfuel.
  - destruct buffer as [|ch rest]; cbn in *; [eauto | lia].
  - destruct buffer as [|ch rest]; [cbn; eauto|].
    cbn [scan_loop].
    pose proof (scan_iteration_backup_rank ch l) as Hrank.
    destruct (scan_iteration ch l) as [backed l1]; cbn [fst snd] in Hrank.
    destruct backed.
    + apply IH. specialize (Hrank eq_refl).
      cbn [fuel_needed] in *. lia.
    + apply IH. pose proof (fuel_needed_le l1 rest).
      cbn [fuel_needed] in *. lia.
Qed.

Lemma scan_loop_more_fuel fuel : forall fuel' l buffer l',
  scan_loop fuel l buffer = Some l' ->
  (fuel <= fuel')%nat ->
  scan_loop fuel' l buffer = Some l'.
Proof.
  induction fuel as [|fuel IH]; intros fuel' l buffer l' Hrun Hle.
  - destruct buffer; cbn in Hrun; [|discriminate].
    destruct fuel'; cbn; assumption.
  - destruct buffer as [|ch rest].
    + destruct fuel'; cbn in *; assumption.
    + destruct fuel' as [|fuel']; [lia|].
      cbn [scan_loop] in *.
      destruct (scan_iteration ch l) as [backed l1].
      apply IH; [assumption | lia].
Qed.

Lemma scan_loop_app fuel1 : forall fuel2 l buffer1 buffer2 l1 l2,
  scan_loop fuel1 l buffer1 = Some l1 ->
  scan_loop fuel2 l1 buffer2 = Some l2 ->
  scan_loop (fuel1 + fuel2) l (buffer1 ++ buffer2) = Some l2.
Proof.
  induction fuel1 as [|fuel1 IH]; intros fuel2 l buffer1 buffer2 l1 l2 H1 H2.
  - destruct buffer1; cbn in H1; [|discriminate].
    injection H1 as <-. cbn. assumption.
  - destruct buffer1 as [|ch rest].
    + cbn in H1. injection H1 as <-. cbn [app].
      apply scan_loop_more_fuel with (fuel := fuel2); [assumption | lia].
    + cbn [scan_loop app plus] in *.
      destruct (scan_iteration ch l) as [backed l'].
      destruct backed.
      * apply (IH fuel2 l' (ch :: rest) buffer2 l1 l2); assumption.
      * apply (IH fuel2 l' rest buffer2 l1 l2); assumption.
Qed.

(** [gcode_lexer_scan] always returns: the fuel it gives the loop is never
    used up. *)
Lemma scan_total l buffer : exists l', gcode_lexer_scan l buffer = Some l'.
Proof.
  unfold gcode_lexer_scan, scan_fuel.
  apply scan_loop_enough, fuel_needed_le.
Qed.

Lemma scan_app l buffer1 buffer2 :
  gcode_lexer_scan l (buffer1 ++ buffer2)
  = match gcode_lexer_scan l buffer1 with
    | Some l1 => gcode_lexer_scan l1 buffer2
    | None => None
    end.
Proof.
  destruct (scan_total l buffer1) as [l1 H1]. rewrite H1.
  destruct (scan_total l1 buffer2) as [l2 H2]. rewrite H2.
  unfold gcode_lexer_scan, scan_fuel in *.
  rewrite length_app, Nat.mul_add_distr_l.
  eapply scan_loop_app; eassumption.
Qed.

(** C1.  Chunk-boundary invariance.  For every lexer, every owner of the
    callbacks and every list of chunks, scanning the chunks with one call of
    [gcode_lexer_scan] per chunk ends in the same lexer as one call on their
    concatenation, and that call returns.  The lexer carries the record of
    all callback invocations ([emitted]) and the owner's state, so the two
    ways make the same invocations, with the same arguments, in the same
    order. *)
Theorem chunk_boundary_invariance :
  forall (l : GCodeLexer) (chunks : list (list ascii)),
    scan_chunks l chunks = gcode_lexer_scan l (List.concat chunks)
    /\ exists l', gcode_lexer_scan l (List.concat chunks) = Some l'.
Proof.
  intros l chunks. split; [|apply scan_total].
  revert l. induction chunks as [|chunk rest IH]; intros l.
  - reflexivity.
  - cbn [scan_chunks List.concat]. rewrite scan_app.
    destruct (gcode_lexer_scan l chunk) as [l1|]; [apply IH | reflexivity].
Qed.

(** *** The nesting counter *)

Lemma to_size_t_succ e : 0 <= e -> 0 <= to_size_t (e + 1) <= e + 1.
Proof.
  intros He. unfold to_size_t, wrap_unsigned.
  pose proof (Z.mod_pos_bound (e + 1) (2 ^ 64) ltac:(lia)).
  pose proof (Z.mod_le (e + 1) (2 ^ 64) ltac:(lia) ltac:(lia)). lia.
Qed.

Lemma to_size_t_pred e : 0 <= e -> e <> 0 -> 0 <= to_size_t (e - 1) <= e.
Proof.
  intros He Hne. unfold to_size_t, wrap_unsigned.
  pose proof (Z.mod_pos_bound (e - 1) (2 ^ 64) ltac:(lia)).
  pose proof (Z.mod_le (e - 1) (2 ^ 64) ltac:(lia) ltac:(lia)). lia.
Qed.

Lemma scan_case_nesting s ch l :
  (s = SCAN_NEWLINE -> expr_nesting (snd (scan_case s ch l)) = 0)
  /\ (0 <= expr_nesting l ->
      0 <= expr_nesting (snd (scan_case s ch l)) <= expr_nesting l + 1
      /\ (fst (scan_case s ch l) = true ->
          expr_nesting (snd (scan_case s ch l)) <= expr_nesting l)).
Proof.
  destruct s; unfold scan_case; unfold_helpers.
  all: repeat step; fields; rewrite_frames; cbn [fst snd];
    (split; [try discriminate; try reflexivity; intros _
            | intros He; split; [|try discriminate; intros _]]);
    rewrite_frames; try lia.
  all: try (pose proof (to_size_t_succ _ He); lia).
  all: match goal with
       | H : (expr_nesting _ =? 0) = false |- _ =>
           apply Z.eqb_neq in H; pose proof (to_size_t_pred _ He H); lia
       | H : negb (expr_nesting _ =? 0) = true |- _ =>
           apply negb_true_iff, Z.eqb_neq in H;
           pose proof (to_size_t_pred _ He H); lia
       end.
Qed.

Lemma scan_iteration_nesting ch l :
  expr_nesting (snd (scan_iteration ch l))
  = expr_nesting (snd (scan_case (state l) ch l)).
Proof.
  unfold scan_iteration, advance, bind, gets, ret, modify.
  destruct (scan_case (state l) ch l) as [b l1].
  destruct (is_char (if b then NUL else ch) LF); fields; auto.
Qed.

Lemma scan_loop_nesting fuel : forall l buffer l' (n : Z),
  scan_loop fuel l buffer = Some l' ->
  (state l = SCAN_NEWLINE /\ n = 0) \/ 0 <= expr_nesting l <= n ->
  buffer <> [] ->
  0 <= expr_nesting l' <= n + Z.of_nat (List.length buffer).
Proof.
  induction fuel as [|fuel IH]; intros l buffer l' n Hrun Hinv Hne.
  - destruct buffer; [contradiction | discriminate].
  - destruct buffer as [|ch rest]; [contradiction|].
    cbn [scan_loop] in Hrun.
    pose proof (scan_iteration_nesting ch l) as Hn.
    pose proof (scan_iteration_state ch l) as [_ Hb].
    pose proof (scan_case_nesting (state l) ch l) as [Hnl Hstep].
    destruct (scan_iteration ch l) as [backed l1]; cbn [fst snd] in *.
    assert (Hinv1 : 0 <= expr_nesting l1 <= n + (if backed then 0 else 1)).
    { destruct Hinv as [[Hs ->] | He].
      - rewrite Hn, (Hnl Hs). destruct backed; lia.
      - destruct (Hstep ltac:(lia)) as [H1 H2]. rewrite Hn.
        destruct backed; [specialize (H2 (eq_sym Hb)) |]; lia. }
    destruct backed.
    + specialize (IH l1 (ch :: rest) l' n Hrun).
      apply IH; [right; lia | discriminate].
    + destruct rest as [|ch' rest'].
      * destruct fuel; cbn in Hrun; injection Hrun as <-; cbn [List.length]; lia.
      * specialize (IH l1 (ch' :: rest') l' (n + 1) Hrun).
        cbn [List.length] in *.
        assert (0 <= expr_nesting l' <= n + 1 + Z.of_nat (S (List.length rest')))
          by (apply IH; [right; lia | discriminate]).
        lia.
Qed.

(** C9.  The expression-nesting counter is a count.  In every lexer: the
    first byte looked at in the Newline state leaves the counter at zero; in
    the Expr state a closing parenthesis leaves a zero counter at zero and
    takes one off a positive counter, an opening parenthesis adds one to a
    counter below [SIZE_MAX], and the closing brace sets it to zero.  After a
    new lexer has scanned a non-empty input the counter lies between zero
    and the number of bytes scanned, so on an input shorter than [2^64]
    bytes it never reaches the value at which the increment would wrap. *)
Theorem expr_nesting_is_a_count :
  (forall (l : GCodeLexer) (ch : ascii),
      state l = SCAN_NEWLINE ->
      expr_nesting (snd (scan_iteration ch l)) = 0)
  /\ (forall l : GCodeLexer,
        state l = SCAN_EXPR -> expr_nesting l = 0 ->
        expr_nesting (snd (scan_iteration ")" l)) = 0)
  /\ (forall l : GCodeLexer,
        state l = SCAN_EXPR -> 0 < expr_nesting l <= SIZE_MAX ->
        expr_nesting (snd (scan_iteration ")" l)) = expr_nesting l - 1)
  /\ (forall l : GCodeLexer,
        state l = SCAN_EXPR -> 0 <= expr_nesting l < SIZE_MAX ->
        expr_nesting (snd (scan_iteration "(" l)) = expr_nesting l + 1)
  /\ (forall l : GCodeLexer,
        state l = SCAN_EXPR ->
        expr_nesting (snd (scan_iteration EXIT_EXPR l)) = 0)
  /\ (forall (raw : GCodeLexer) (c : Ctx) (loc : option GCodeLocation)
             (buffer : list ascii) (l' : GCodeLexer),
        buffer <> [] ->
        gcode_lexer_scan (gcode_lexer_new raw c loc) buffer = Some l' ->
        0 <= expr_nesting l' <= Z.of_nat (List.length buffer)).
Proof.
  split; [|split; [|split; [|split; [|split]]]].
  - intros l ch Hs. rewrite scan_iteration_nesting.
    apply (scan_case_nesting (state l) ch l), Hs.
  - intros l Hs He. rewrite scan_iteration_nesting, Hs. cbn [scan_case].
    unfold case_EXPR. cbn [is_char is_space Ascii.eqb Bool.eqb LF HT VT CR orb andb].
    unfold_helpers. repeat step; fields; rewrite_frames; fields;
      rewrite ?He in *; cbn in *; try discriminate; reflexivity.
  - intros l Hs He. rewrite scan_iteration_nesting, Hs. cbn [scan_case].
    unfold case_EXPR. cbn [is_char is_space Ascii.eqb Bool.eqb LF HT VT CR orb andb].
    unfold_helpers.
    assert (Hwrap : to_size_t (expr_nesting l - 1) = expr_nesting l - 1).
    { unfold to_size_t, wrap_unsigned, SIZE_MAX in *.
      apply Z.mod_small. lia. }
    assert (Hnz : (expr_nesting l =? 0) = false) by (apply Z.eqb_neq; lia).
    repeat step; fields; rewrite_frames; fields;
      try (rewrite Hnz in *; discriminate); exact Hwrap.
  - intros l Hs He. rewrite scan_iteration_nesting, Hs. cbn [scan_case].
    unfold case_EXPR. cbn [is_char is_space Ascii.eqb Bool.eqb LF HT VT CR orb andb].
    unfold_helpers.
    assert (Hwrap : to_size_t (expr_nesting l + 1) = expr_nesting l + 1).
    { unfold to_size_t, wrap_unsigned, SIZE_MAX in *.
      apply Z.mod_small. lia. }
    repeat step; fields; rewrite_frames; fields; exact Hwrap.
  - intros l Hs. rewrite scan_iteration_nesting, Hs. cbn [scan_case].
    unfold case_EXPR, EXIT_EXPR.
    cbn [is_char is_space Ascii.eqb Bool.eqb LF HT VT CR orb andb].
    unfold_helpers. repeat step; fields; rewrite_frames; fields; reflexivity.
  - intros raw c loc buffer l' Hne Hrun.
    pose proof (scan_loop_nesting _ _ _ _ 0 Hrun) as H.
    apply H; [left; split; reflexivity | assumption].
Qed.

(** *** Callback results *)

Ltac unfold_primitives :=
  unfold token_char, token_alloc, TOKEN_START, TOKEN_STOP, emit_error,
    error_printf, call, bind, ret, gets, modify in *.

Ltac split_tests :=
  repeat (fields;
    match goal with
    | |- context [if ?b then _ else _] => atomic b; destruct b eqn:?
    | |- context [match ?x with _ => _ end] => atomic x; destruct x eqn:?
    end).

Lemma app_one_inv {A} (xs : list A) (a b : A) : xs ++ [a] = xs ++ [b] -> a = b.
Proof. intros H. apply app_inv_head in H. congruence. Qed.

Lemma app_one_neq {A} (xs : list A) (a : A) : xs <> xs ++ [a].
Proof.
  intros H. apply (f_equal (@List.length A)) in H.
  rewrite length_app in H. cbn in H. lia.
Qed.

Lemma helper_false_is_error h l e :
  emitted (snd (run_helper h l)) = emitted l ++ [e] ->
  snd (callback (context l) e) = false ->
  fst (run_helper h l) = false /\ state (snd (run_helper h l)) = SCAN_ERROR.
Proof.
  destruct h; unfold run_helper; unfold_helpers; unfold_primitives.
  all: split_tests; fields; intros Hemit Hfalse;
    try (exfalso; exact (app_one_neq _ _ Hemit));
    apply app_one_inv in Hemit; subst e;
    match goal with
    | H : callback _ _ = _ |- _ => rewrite H in Hfalse; cbn in Hfalse
    end; try discriminate; auto.
Qed.

Lemma error_state_absorbs l ch :
  state l = SCAN_ERROR ->
  emitted (snd (scan_iteration ch l)) = emitted l
  /\ fst (scan_iteration ch l) = false
  /\ state (snd (scan_iteration ch l))
     = (if is_char ch LF then SCAN_NEWLINE else SCAN_ERROR).
Proof.
  intros Hs. unfold scan_iteration, advance, bind, gets, ret, modify.
  rewrite Hs. cbn [scan_case]. unfold case_ERROR, next_byte, set_state_m, bind, ret, modify.
  destruct (is_char ch LF) eqn:Hlf; fields; rewrite ?Hlf; fields; auto.
Qed.

Lemma end_of_statement_ignores_result l :
  state (snd (emit_end_of_statement l)) = SCAN_NEWLINE
  /\ fst (emit_end_of_statement l) = true
  /\ emitted (snd (emit_end_of_statement l)) = emitted l ++ [lex_end_statement].
Proof.
  unfold emit_end_of_statement, set_state_m; unfold_primitives.
  split_tests; fields; auto.
Qed.

(** C5, as amended.  For the helpers that hand a keyword, a string
    literal, an identifier of a command, an integer literal, a float literal
    or a bridge to its callback ([emit_symbol], [emit_char_symbol],
    [emit_str], [emit_ident], [emit_int], [emit_float], [emit_bridge]): when
    the callback the helper invoked returned false, the helper returns false
    and leaves the lexer in the Error state.  In the Error state one run of
    the loop body emits nothing and looks at the next byte; the state stays
    Error unless the byte is a newline, which gives Newline.  The result of
    [lex_end_statement] is not looked at: [emit_end_of_statement] always
    returns true and leaves the lexer in the Newline state. *)
Theorem rejected_token_is_an_error :
  forall (h : emit_helper) (l : GCodeLexer) (e : emission),
    emitted (snd (run_helper h l)) = emitted l ++ [e] ->
    snd (callback (context l) e) = false ->
    (fst (run_helper h l) = false
     /\ state (snd (run_helper h l)) = SCAN_ERROR)
    /\ (forall (l2 : GCodeLexer) (ch : ascii),
          state l2 = SCAN_ERROR ->
          emitted (snd (scan_iteration ch l2)) = emitted l2
          /\ fst (scan_iteration ch l2) = false
          /\ state (snd (scan_iteration ch l2))
             = (if is_char ch LF then SCAN_NEWLINE else SCAN_ERROR))
    /\ (forall l2 : GCodeLexer,
          state (snd (emit_end_of_statement l2)) = SCAN_NEWLINE
          /\ fst (emit_end_of_statement l2) = true
          /\ emitted (snd (emit_end_of_statement l2))
             = emitted l2 ++ [lex_end_statement]).
Proof.
  intros h l e Hemit Hfalse. split; [|split].
  - apply (helper_false_is_error h l e); assumption.
  - apply error_state_absorbs.
  - apply end_of_statement_ignores_result.
Qed.

(** *** The token buffer *)

Lemma poke_length i ch buf : List.length (poke i ch buf) = List.length buf.
Proof.
  revert i; induction buf as [|c rest IH]; intros [|i]; cbn; auto.
Qed.

Lemma firstn_poke i ch buf :
  (i < List.length buf)%nat ->
  firstn (S i) (poke i ch buf) = firstn i buf ++ [ch].
Proof.
  revert i; induction buf as [|c rest IH]; intros [|i] Hi; cbn in *;
    try lia; auto.
  f_equal. apply IH. lia.
Qed.

Lemma cstr_terminated bytes tail :
  forallb (fun c => negb (is_char c NUL)) bytes = true ->
  cstr (bytes ++ NUL :: tail) = string_of_list_ascii bytes.
Proof.
  induction bytes as [|c rest IH]; intros Hn; cbn in *.
  - reflexivity.
  - apply andb_true_iff in Hn as [Hc Hrest]. unfold is_char in Hc.
    apply negb_true_iff in Hc. rewrite Hc. f_equal. auto.
Qed.

Lemma cstr_of_prefix n bytes buf :
  firstn (S n) buf = bytes ++ [NUL] ->
  forallb (fun c => negb (is_char c NUL)) bytes = true ->
  cstr buf = string_of_list_ascii bytes.
Proof.
  intros Hpre Hn. rewrite <- (firstn_skipn (S n) buf), Hpre, <- app_assoc.
  cbn [app]. apply cstr_terminated, Hn.
Qed.

Lemma token_char_spec ch l :
  token_ok l ->
  exists buf lim,
    token_char ch l
    = (true, set_token_length (S (token_length l))
               (set_token_str (Some buf) (set_token_limit lim l)))
    /\ List.length buf = lim
    /\ (S (token_length l) <= lim)%nat
    /\ firstn (S (token_length l)) buf = token_bytes l ++ [ch].
Proof.
  destruct l as [c s ts tlen tlim es el en iv dc ln col am af iav loc em].
  unfold token_ok, token_bytes, token_block, token_char, token_alloc,
    bind, gets, modify, ret; cbn -[firstn poke block Nat.mul].
  destruct (tlen =? tlim)%nat eqn:Hfull.
  - apply Nat.eqb_eq in Hfull. subst tlim.
    destruct ts as [buf|]; cbn -[firstn poke block Nat.mul].
    + intros (Hlen & _ & Hpos).
      exists (poke tlen ch (block buf (tlen * 2))), (tlen * 2)%nat.
      split; [reflexivity|].
      assert (Hblock : block buf (tlen * 2)
                       = buf ++ map uninit (seq tlen (tlen * 2 - tlen))).
      { unfold block. rewrite firstn_all2 by lia. rewrite Hlen. reflexivity. }
      rewrite Hblock, poke_length, length_app, length_map, length_seq.
      split; [lia|]. split; [lia|].
      rewrite firstn_poke
        by (rewrite length_app, length_map, length_seq; lia).
      rewrite firstn_app, Hlen, Nat.sub_diag, firstn_O, app_nil_r.
      rewrite <- Hlen. rewrite firstn_all. reflexivity.
    + intros (_ & ->).
      exists (poke 0 ch (block [] 128)), 128%nat.
      split; [reflexivity|].
      rewrite poke_length. unfold block. cbn [firstn app List.length].
      rewrite length_map, length_seq.
      split; [reflexivity|]. split; [lia|]. reflexivity.
  - apply Nat.eqb_neq in Hfull.
    destruct ts as [buf|]; cbn -[firstn poke block Nat.mul].
    + intros (Hlen & Hle & Hpos).
      exists (poke tlen ch buf), tlim. split; [reflexivity|].
      rewrite poke_length. split; [assumption|]. split; [lia|].
      apply firstn_poke. lia.
    + intros (-> & ->). contradiction.
Qed.

Lemma TOKEN_STOP_spec l : exists loc, TOKEN_STOP l = (tt, set_location loc l).
Proof.
  destruct l as [c s ts tlen tlim es el en iv dc ln col am af iav loc em].
  unfold TOKEN_STOP, modify. destruct loc as [g|]; cbn; eexists; reflexivity.
Qed.

Lemma TOKEN_START_spec l : exists loc, TOKEN_START l = (tt, set_location loc l).
Proof.
  destruct l as [c s ts tlen tlim es el en iv dc ln col am af iav loc em].
  unfold TOKEN_START, TOKEN_STOP, bind, modify.
  destruct loc as [g|]; cbn; eexists; reflexivity.
Qed.

(** *** Scanning byte by byte *)

Lemma scan_cons ch l l1 rest :
  scan_iteration ch l = (false, l1) ->
  gcode_lexer_scan l (ch :: rest) = gcode_lexer_scan l1 rest.
Proof.
  intros Hit. destruct (scan_total l1 rest) as [l2 H2]. rewrite H2.
  unfold gcode_lexer_scan, scan_fuel in *.
  cbn [List.length]. replace (3 * S (List.length rest))%nat
    with (S (2 + 3 * List.length rest)) by lia.
  cbn [scan_loop]. rewrite Hit.
  apply scan_loop_more_fuel with (fuel := (3 * List.length rest)%nat);
    [assumption | lia].
Qed.

Lemma is_space_cases ch :
  is_space ch = true -> ch = " "%char \/ ch = HT \/ ch = VT \/ ch = CR.
Proof.
  unfold is_space, is_char. intros H.
  repeat (apply orb_true_iff in H as [H|H]); apply Ascii.eqb_eq in H; auto.
Qed.

Lemma raw_space_iteration l ch :
  state l = SCAN_ARGS -> is_space ch = true ->
  scan_iteration ch l = (false, set_column (to_uint32 (column l + 1)) l).
Proof.
  intros Hs Hsp. unfold scan_iteration, bind, gets. rewrite Hs. cbn [scan_case].
  unfold case_ARGS. 
  destruct (is_space_cases ch Hsp) as [-> | [-> | [-> | ->]]]; reflexivity.
Qed.
Ltac split_andb H :=
  repeat match type of H with
  | (_ && _) = true =>
      let H' := fresh H in apply andb_true_iff in H as [H H']
  end;
  repeat match goal with
  | H0 : negb _ = true |- _ => apply negb_true_iff in H0
  end.

(** Running a primitive whose effect is known as an equation. *)
Ltac run_TOKEN_STOP :=
  match goal with
  | |- context [TOKEN_STOP ?l] =>
      let loc := fresh "loc" in
      destruct (TOKEN_STOP_spec l) as [loc ->]
  end.

Ltac run_TOKEN_START :=
  match goal with
  | |- context [TOKEN_START ?l] =>
      let loc := fresh "loc" in
      destruct (TOKEN_START_spec l) as [loc ->]
  end.

Lemma token_ok_same l l' :
  token_str l' = token_str l -> token_length l' = token_length l ->
  token_limit l' = token_limit l -> token_ok l -> token_ok l'.
Proof. unfold token_ok. intros -> -> ->. auto. Qed.

Lemma token_bytes_same l l' :
  token_str l' = token_str l -> token_length l' = token_length l ->
  token_bytes l' = token_bytes l.
Proof. unfold token_bytes, token_block. intros -> ->. auto. Qed.

Lemma raw_first_iteration l ch :
  state l = SCAN_ARGS -> arg_mode l = ARG_RAW -> token_ok l ->
  token_length l = 0%nat -> raw_first_byte ch = true ->
  exists l',
    scan_iteration ch l = (false, l')
    /\ state l' = SCAN_ARG_VALUE /\ arg_mode l' = ARG_RAW /\ token_ok l'
    /\ token_bytes l' = [ch] /\ emitted l' = emitted l.
Proof.
  intros Hs Hm Hok Hlen Hch. unfold raw_first_byte, raw_byte in Hch.
  split_andb Hch.
  unfold scan_iteration, bind, gets. rewrite Hs. cbn [scan_case].
  unfold case_ARGS, bind, gets, ENTER_EXPR in *.
  repeat match goal with H : _ = false |- _ => rewrite H end.
  cbn [orb]. run_TOKEN_START. fields. rewrite Hm.
  unfold if_ok, TOKEN_CHAR, bind.
  match goal with
  | |- context [token_char ch ?x] =>
      destruct (token_char_spec ch x) as (buf & lim & -> & Hl & Hle & Hpre);
        [apply (token_ok_same l); auto|]
  end.
  unfold set_state_m, modify, next_byte, ret, advance, bind.
  repeat match goal with H : _ = false |- _ => rewrite H end.
  eexists. split; [reflexivity|]. fields.
  repeat split; auto.
  - unfold token_ok; fields. rewrite Hlen in *. repeat split; try lia.
  - unfold token_bytes, token_block in *; fields.
    rewrite Hlen in *. cbn [firstn app] in Hpre. exact Hpre.
Qed.

Lemma raw_next_iteration l ch :
  state l = SCAN_ARG_VALUE -> arg_mode l = ARG_RAW -> token_ok l ->
  raw_byte ch = true ->
  exists l',
    scan_iteration ch l = (false, l')
    /\ state l' = SCAN_ARG_VALUE /\ arg_mode l' = ARG_RAW /\ token_ok l'
    /\ token_bytes l' = token_bytes l ++ [ch] /\ emitted l' = emitted l.
Proof.
  intros Hs Hm Hok Hch. unfold raw_byte in Hch. split_andb Hch.
  destruct (token_char_spec ch l Hok) as (buf & lim & Hrun & Hl & Hle & Hpre).
  unfold scan_iteration, bind, gets. rewrite Hs. cbn [scan_case].
  unfold case_ARG_VALUE, bind, gets, ENTER_EXPR in *.
  repeat match goal with H : is_char _ _ = false |- _ => rewrite H end.
  destruct (is_char ch ";") eqn:Hsemi; [|destruct (is_space ch) eqn:Hsp];
    fields; rewrite ?Hm; unfold ignore, TOKEN_CHAR, bind; rewrite Hrun;
    unfold next_byte, ret, advance, bind, modify;
    repeat match goal with H : is_char _ _ = false |- _ => rewrite H end;
    (eexists; split; [reflexivity|]); fields; repeat split; auto;
    try (unfold token_ok; fields; repeat split; lia);
    unfold token_bytes, token_block in *; fields; exact Hpre.
Qed.

Lemma raw_rest rest : forall l,
  state l = SCAN_ARG_VALUE -> arg_mode l = ARG_RAW -> token_ok l ->
  forallb raw_byte rest = true ->
  exists l',
    gcode_lexer_scan l rest = Some l'
    /\ state l' = SCAN_ARG_VALUE /\ arg_mode l' = ARG_RAW /\ token_ok l'
    /\ token_bytes l' = token_bytes l ++ rest /\ emitted l' = emitted l.
Proof.
  induction rest as [|ch rest IH]; intros l Hs Hm Hok Hrest.
  - exists l. rewrite app_nil_r. repeat split; auto.
  - cbn [forallb] in Hrest. apply andb_true_iff in Hrest as [Hch Hrest].
    destruct (raw_next_iteration l ch Hs Hm Hok Hch)
      as (l1 & Hit & Hs1 & Hm1 & Hok1 & Hb1 & He1).
    destruct (IH l1 Hs1 Hm1 Hok1 Hrest)
      as (l2 & Hrun & Hs2 & Hm2 & Hok2 & Hb2 & He2).
    exists l2. rewrite (scan_cons ch l l1 rest Hit).
    repeat split; auto.
    + rewrite Hb2, Hb1, <- app_assoc. reflexivity.
    + congruence.
Qed.

Lemma raw_spaces spaces : forall l,
  state l = SCAN_ARGS -> forallb is_space spaces = true ->
  exists l',
    gcode_lexer_scan l spaces = Some l'
    /\ state l' = SCAN_ARGS /\ arg_mode l' = arg_mode l
    /\ token_str l' = token_str l /\ token_length l' = token_length l
    /\ token_limit l' = token_limit l /\ emitted l' = emitted l.
Proof.
  induction spaces as [|ch rest IH]; intros l Hs Hsp.
  - exists l. repeat split; auto.
  - cbn [forallb] in Hsp. apply andb_true_iff in Hsp as [Hch Hrest].
    pose proof (raw_space_iteration l ch Hs Hch) as Hit.
    rewrite (scan_cons ch l _ rest Hit).
    destruct (IH (set_column (to_uint32 (column l + 1)) l) Hs Hrest)
      as (l2 & Hrun & H2); fields.
    exists l2. split; [assumption | exact H2].
Qed.

Lemma raw_end_iteration l :
  state l = SCAN_ARG_VALUE -> token_ok l -> token_bytes l <> [] ->
  forallb raw_byte (token_bytes l) = true ->
  exists l',
    scan_iteration LF l = (false, l')
    /\ state l' = SCAN_NEWLINE
    /\ emitted l'
       = emitted l
         ++ [lex_str_literal (string_of_list_ascii (token_bytes l));
             lex_end_statement].
Proof.
  intros Hs Hok Hne Hraw.
  assert (Hlen : (0 <? token_length l)%nat = true).
  { apply Nat.ltb_lt. unfold token_bytes in Hne.
    destruct (token_length l); [contradiction Hne; reflexivity | lia]. }
  assert (Hnul : forallb (fun c => negb (is_char c NUL)) (token_bytes l) = true).
  { rewrite forallb_forall in *. intros c Hc. specialize (Hraw c Hc).
    unfold raw_byte in Hraw. split_andb Hraw.
    apply negb_true_iff. assumption. }
  unfold scan_iteration, bind, gets. rewrite Hs. cbn [scan_case].
  assert (Hlf : is_char LF LF = true) by reflexivity.
  unfold case_ARG_VALUE. rewrite Hlf.
  unfold ignore, emit_possible_str, bind, gets. rewrite Hlen.
  unfold emit_str, terminate_token, bind.
  run_TOKEN_STOP.
  match goal with
  | |- context [token_char NUL ?x] =>
      destruct (token_char_spec NUL x) as (buf & lim & -> & Hl & Hle & Hpre);
        [apply (token_ok_same l); auto|]
  end.
  unfold gets.
  assert (Htext : forall x,
    token_str x = Some buf -> token_text x = string_of_list_ascii (token_bytes l)).
  { intros x Hx. unfold token_text. rewrite Hx.
    eapply cstr_of_prefix; [|exact Hnul].
    rewrite <- (token_bytes_same l (set_location loc l)) by reflexivity.
    exact Hpre. }
  rewrite Htext by reflexivity.
  unfold call; fields.
  destruct (callback (context l) (lex_str_literal (string_of_list_ascii (token_bytes l))))
    as [c1 ok1].
  unfold emit_end_of_statement, bind.
  destruct ok1; unfold set_state_m, free_token, bind, modify, ret;
    run_TOKEN_START; run_TOKEN_STOP; unfold call; fields;
    match goal with
    | |- context [callback ?c lex_end_statement] =>
        destruct (callback c lex_end_statement) as [c2 ok2]
    end;
    unfold next_byte, ret, advance, bind, modify;
    rewrite Hlf;
    (eexists; split; [reflexivity|]); fields; (split; [reflexivity|]);
    symmetry; apply (app_assoc (emitted l) [_] [_]).
Qed.
Lemma space_is_plain sp :
  is_space sp = true ->
  is_char sp ENTER_EXPR = false /\ is_char sp DQUOTE = false
  /\ is_char sp LF = false /\ is_char sp ";" = false.
Proof.
  intros H. destruct (is_space_cases sp H) as [-> | [-> | [-> | ->]]];
    repeat split; reflexivity.
Qed.

Lemma raw_command_iteration l name sp :
  state l = SCAN_COMMAND_NAME -> token_ok l ->
  name = "M117"%string \/ name = "ECHO"%string ->
  token_bytes l = list_ascii_of_string name ->
  token_text l = name ->
  snd (callback (context l) (lex_identifier name)) = true ->
  is_space sp = true ->
  exists l',
    scan_iteration sp l = (false, l')
    /\ state l' = SCAN_ARGS /\ arg_mode l' = ARG_RAW /\ token_ok l'
    /\ token_length l' = 0%nat
    /\ emitted l' = emitted l ++ [lex_identifier name].
Proof.
  intros Hs Hok Hname Hbytes Htext Hcb Hsp.
  destruct (space_is_plain sp Hsp) as (H1 & H2 & H3 & H4).
  assert (Hraw : (String.eqb name "M117" || String.eqb name "ECHO") = true)
    by (destruct Hname as [-> | ->]; reflexivity).
  assert (Hnul : forallb (fun c => negb (is_char c NUL)) (token_bytes l) = true)
    by (rewrite Hbytes; destruct Hname as [-> | ->]; reflexivity).
  unfold scan_iteration, bind, gets. rewrite Hs. cbn [scan_case].
  unfold case_COMMAND_NAME. rewrite H1, H2, H3, Hsp.
  unfold ignore, enter_args, set_state_m, bind, gets, modify.
  assert (Ht : token_text (set_state SCAN_ARGS l) = name) by exact Htext.
  rewrite Ht, Hraw.
  unfold emit_ident, terminate_token, bind.
  run_TOKEN_STOP.
  match goal with
  | |- context [token_char NUL ?x] =>
      destruct (token_char_spec NUL x) as (buf & lim & -> & Hl & Hle & Hpre);
        [apply (token_ok_same l); auto|]
  end.
  unfold gets.
  assert (Htext' : forall x, token_str x = Some buf -> token_text x = name).
  { intros x Hx. unfold token_text. rewrite Hx.
    rewrite <- (string_of_list_ascii_of_string name), <- Hbytes.
    eapply cstr_of_prefix; [|exact Hnul].
    erewrite <- token_bytes_same; [exact Hpre | reflexivity | reflexivity]. }
  rewrite Htext' by reflexivity.
  unfold call; fields.
  destruct (callback (context l) (lex_identifier name)) as [c1 ok1].
  cbn [snd] in Hcb. subst ok1.
  unfold free_token, next_byte, ret, advance, bind, modify. rewrite H3.
  eexists. split; [reflexivity|]. fields.
  split; [reflexivity|]. split; [reflexivity|].
  split; [|split; reflexivity].
  unfold token_ok; fields. lia.
Qed.

Lemma raw_first_is_raw ch : raw_first_byte ch = true -> raw_byte ch = true.
Proof.
  unfold raw_first_byte. intros H. split_andb H. assumption.
Qed.

(** C6, as amended.  A statement whose command name is M117 or ECHO: the
    lexer is in the command-name state with exactly that name in its token
    buffer, the buffer read as a C string is that name, and [lex_identifier]
    accepts it.  The name is followed by at least one whitespace byte; the
    whitespace after the name is skipped; the rest of the line is not empty,
    starts with a byte other than [;], [=], a double quote and an opening
    brace, and holds no double quote, no opening brace and no NUL.  Then the
    scan of that line emits the name, then the whole rest of the line up to
    the newline (semicolons and inner or trailing whitespace included) as one
    string literal, then the end of the statement. *)
Theorem raw_argument_is_one_string :
  forall (l : GCodeLexer) (name : string) (sp : ascii)
         (spaces : list ascii) (first : ascii) (rest : list ascii),
    state l = SCAN_COMMAND_NAME -> token_ok l ->
    name = "M117"%string \/ name = "ECHO"%string ->
    token_bytes l = list_ascii_of_string name ->
    token_text l = name ->
    snd (callback (context l) (lex_identifier name)) = true ->
    is_space sp = true -> forallb is_space spaces = true ->
    raw_first_byte first = true -> forallb raw_byte rest = true ->
    exists l',
      gcode_lexer_scan l (sp :: spaces ++ first :: rest ++ [LF]) = Some l'
      /\ state l' = SCAN_NEWLINE
      /\ emitted l'
         = emitted l
           ++ [lex_identifier name;
               lex_str_literal (string_of_list_ascii (first :: rest));
               lex_end_statement].
Proof.
  intros l name sp spaces first rest Hs Hok Hname Hbytes Htext Hcb Hsp
    Hspaces Hfirst Hrest.
  destruct (raw_command_iteration l name sp Hs Hok Hname Hbytes Htext Hcb Hsp)
    as (l1 & Hit1 & Hs1 & Hm1 & Hok1 & Hlen1 & He1).
  rewrite (scan_cons sp l l1 _ Hit1), scan_app.
  destruct (raw_spaces spaces l1 Hs1 Hspaces)
    as (l2 & -> & Hs2 & Hm2 & Hts2 & Htl2 & Hlim2 & He2).
  assert (Hok2 : token_ok l2) by (apply (token_ok_same l1); auto).
  destruct (raw_first_iteration l2 first Hs2 ltac:(congruence) Hok2
              ltac:(congruence) Hfirst)
    as (l3 & Hit3 & Hs3 & Hm3 & Hok3 & Hb3 & He3).
  rewrite (scan_cons first l2 l3 _ Hit3), scan_app.
  destruct (raw_rest rest l3 Hs3 Hm3 Hok3 Hrest)
    as (l4 & -> & Hs4 & Hm4 & Hok4 & Hb4 & He4).
  rewrite Hb3 in Hb4. cbn [app] in Hb4.
  destruct (raw_end_iteration l4 Hs4 Hok4) as (l5 & Hit5 & Hs5 & He5).
  { rewrite Hb4. discriminate. }
  { rewrite Hb4. cbn [forallb]. rewrite (raw_first_is_raw first Hfirst), Hrest.
    reflexivity. }
  rewrite (scan_cons LF l4 l5 [] Hit5).
  exists l5. split; [reflexivity|]. split; [assumption|].
  rewrite He5, Hb4, He4, He3, He2, He1, <- app_assoc. reflexivity.
Qed.

(** *** Lines without arguments *)

Lemma scan_cons_backup ch l l1 rest :
  scan_iteration ch l = (true, l1) ->
  gcode_lexer_scan l (ch :: rest) = gcode_lexer_scan l1 (ch :: rest).
Proof.
  intros Hit. destruct (scan_total l1 (ch :: rest)) as [l2 H2]. rewrite H2.
  pose proof (scan_iteration_backup_rank ch l) as Hrank.
  rewrite Hit in Hrank. cbn [fst snd] in Hrank. specialize (Hrank eq_refl).
  pose proof (backup_rank_le_2 (state l)) as Hle.
  destruct (scan_loop_enough (2 + 3 * List.length rest) l1 (ch :: rest))
    as [l3 H3]; [cbn [fuel_needed]; lia|].
  unfold gcode_lexer_scan, scan_fuel in *. cbn [List.length] in *.
  replace (3 * S (List.length rest))%nat
    with (S (2 + 3 * List.length rest)) in * by lia.
  cbn [scan_loop]. rewrite Hit.
  rewrite H3. rewrite <- H2. symmetry.
  apply scan_loop_more_fuel with (fuel := (2 + 3 * List.length rest)%nat);
    [assumption | lia].
Qed.

Lemma scan_nil l : gcode_lexer_scan l [] = Some l.
Proof. reflexivity. Qed.

(** *** Comment lines *)

Lemma comment_body text : forall l,
  state l = SCAN_EMPTY_LINE_COMMENT ->
  forallb (fun c => negb (is_char c LF)) text = true ->
  exists l',
    gcode_lexer_scan l (text ++ [LF]) = Some l'
    /\ state l' = SCAN_NEWLINE /\ emitted l' = emitted l
    /\ context l' = context l /\ token_str l' = token_str l
    /\ token_length l' = token_length l /\ token_limit l' = token_limit l.
Proof.
  induction text as [|ch rest IH]; intros l Hs Htext.
  - cbn [app].
    assert (Hit : scan_iteration LF l
                  = (false, set_column 1 (set_line (to_uint32 (line l + 1))
                                            (set_state SCAN_NEWLINE l)))).
    { unfold scan_iteration, bind, gets. rewrite Hs. reflexivity. }
    rewrite (scan_cons LF l _ [] Hit), scan_nil.
    eexists. split; [reflexivity|]. fields. repeat split.
  - cbn [forallb] in Htext. apply andb_true_iff in Htext as [Hch Hrest].
    apply negb_true_iff in Hch.
    assert (Hit : scan_iteration ch l
                  = (false, set_column (to_uint32 (column l + 1)) l)).
    { unfold scan_iteration, bind, gets. rewrite Hs. cbn [scan_case].
      unfold case_EMPTY_LINE_COMMENT, next_byte, ret. rewrite Hch.
      unfold advance. rewrite Hch. reflexivity. }
    cbn [app]. rewrite (scan_cons ch l _ _ Hit).
    destruct (IH (set_column (to_uint32 (column l + 1)) l) Hs Hrest)
      as (l' & Hrun & H'); fields.
    exists l'. split; [assumption | exact H'].
Qed.

Lemma comment_only_line l text :
  state l = SCAN_NEWLINE ->
  forallb (fun c => negb (is_char c LF)) text = true ->
  exists l',
    gcode_lexer_scan l (";"%char :: text ++ [LF]) = Some l'
    /\ state l' = SCAN_NEWLINE /\ emitted l' = emitted l
    /\ context l' = context l /\ token_str l' = token_str l
    /\ token_length l' = token_length l /\ token_limit l' = token_limit l.
Proof.
  intros Hs Htext.
  assert (Hit : scan_iteration ";" l
                = (false, set_column (to_uint32 (column l + 1))
                            (set_state SCAN_EMPTY_LINE_COMMENT
                               (set_expr_nesting 0 l)))).
  { unfold scan_iteration, bind, gets. rewrite Hs. reflexivity. }
  rewrite (scan_cons _ l _ _ Hit).
  match goal with
  | |- context [gcode_lexer_scan ?x _] =>
      destruct (comment_body text x eq_refl Htext) as (l' & Hrun & H')
  end.
  fields. exists l'. split; [assumption | exact H'].
Qed.

(** *** A line that holds a command name only *)

Lemma upper_keeps_text ch :
  is_char ch NUL = false -> is_char (upper ch) NUL = false.
Proof.
  destruct ch as [[] [] [] [] [] [] [] []]; intros H;
    first [reflexivity | discriminate H].
Qed.

Lemma name_first_iteration l ch :
  state l = SCAN_NEWLINE -> name_first_byte ch = true ->
  scan_iteration ch l
  = (true, set_column (to_uint32 (column l + 1))
             (set_state SCAN_COMMAND_NAME (set_expr_nesting 0 l))).
Proof.
  intros Hs Hch. unfold name_first_byte, name_byte in Hch. split_andb Hch.
  unfold scan_iteration, bind, gets. rewrite Hs. cbn [scan_case].
  unfold case_NEWLINE, bind, modify, set_state_m, BACK_UP, ret, advance,
    ENTER_EXPR in *.
  repeat match goal with H : _ = false |- _ => rewrite H end.
  reflexivity.
Qed.

Lemma name_next_iteration l ch :
  state l = SCAN_COMMAND_NAME -> token_ok l -> name_byte ch = true ->
  exists l',
    scan_iteration ch l = (false, l')
    /\ state l' = SCAN_COMMAND_NAME /\ token_ok l'
    /\ token_bytes l' = token_bytes l ++ [upper ch]
    /\ emitted l' = emitted l /\ context l' = context l.
Proof.
  intros Hs Hok Hch. unfold name_byte in Hch. split_andb Hch.
  destruct (token_char_spec (upper ch) l Hok)
    as (buf & lim & Hrun & Hl & Hle & Hpre).
  unfold scan_iteration, bind, gets. rewrite Hs. cbn [scan_case].
  unfold case_COMMAND_NAME, ENTER_EXPR in *.
  repeat match goal with H : _ = false |- _ => rewrite H end.
  unfold ignore, TOKEN_CHAR_UPPER, bind. rewrite Hrun.
  unfold next_byte, ret, advance, bind, modify.
  repeat match goal with H : _ = false |- _ => rewrite H end.
  eexists. split; [reflexivity|]. fields.
  split; [assumption|]. split; [unfold token_ok; fields; lia|].
  split; [|split; reflexivity].
  unfold token_bytes, token_block in *; fields. exact Hpre.
Qed.

Lemma name_rest rest : forall l,
  state l = SCAN_COMMAND_NAME -> token_ok l ->
  forallb name_byte rest = true ->
  exists l',
    gcode_lexer_scan l rest = Some l'
    /\ state l' = SCAN_COMMAND_NAME /\ token_ok l'
    /\ token_bytes l' = token_bytes l ++ map upper rest
    /\ emitted l' = emitted l /\ context l' = context l.
Proof.
  induction rest as [|ch rest IH]; intros l Hs Hok Hrest.
  - exists l. cbn [map]. rewrite app_nil_r. repeat split; auto.
  - cbn [forallb] in Hrest. apply andb_true_iff in Hrest as [Hch Hrest].
    destruct (name_next_iteration l ch Hs Hok Hch)
      as (l1 & Hit & Hs1 & Hok1 & Hb1 & He1 & Hc1).
    destruct (IH l1 Hs1 Hok1 Hrest)
      as (l2 & Hrun & Hs2 & Hok2 & Hb2 & He2 & Hc2).
    exists l2. rewrite (scan_cons ch l l1 rest Hit).
    split; [assumption|]. split; [assumption|]. split; [assumption|].
    split; [|split; congruence].
    rewrite Hb2, Hb1, <- app_assoc. reflexivity.
Qed.

Lemma name_end_iteration l :
  state l = SCAN_COMMAND_NAME -> token_ok l ->
  forallb (fun c => negb (is_char c NUL)) (token_bytes l) = true ->
  exists l',
    scan_iteration LF l = (false, l')
    /\ state l' = SCAN_NEWLINE
    /\ emitted l'
       = emitted l
         ++ [lex_identifier (string_of_list_ascii (token_bytes l));
             lex_end_statement].
Proof.
  intros Hs Hok Hnul.
  assert (Hlf : is_char LF LF = true) by reflexivity.
  unfold scan_iteration, bind, gets. rewrite Hs. cbn [scan_case].
  unfold case_COMMAND_NAME.
  change (is_char LF ENTER_EXPR) with false.
  change (is_char LF DQUOTE) with false. rewrite Hlf.
  unfold ignore, emit_ident, terminate_token, bind.
  run_TOKEN_STOP.
  match goal with
  | |- context [token_char NUL ?x] =>
      destruct (token_char_spec NUL x) as (buf & lim & -> & Hl & Hle & Hpre);
        [apply (token_ok_same l); auto|]
  end.
  unfold gets.
  assert (Htext : forall x,
    token_str x = Some buf -> token_text x = string_of_list_ascii (token_bytes l)).
  { intros x Hx. unfold token_text. rewrite Hx.
    eapply cstr_of_prefix; [|exact Hnul].
    rewrite <- (token_bytes_same l (set_location loc l)) by reflexivity.
    exact Hpre. }
  rewrite Htext by reflexivity.
  unfold call; fields.
  destruct (callback (context l) (lex_identifier (string_of_list_ascii (token_bytes l))))
    as [c1 ok1].
  unfold emit_end_of_statement, bind.
  destruct ok1; unfold set_state_m, free_token, bind, modify, ret;
    run_TOKEN_START; run_TOKEN_STOP; unfold call; fields;
    match goal with
    | |- context [callback ?c lex_end_statement] =>
        destruct (callback c lex_end_statement) as [c2 ok2]
    end;
    unfold next_byte, ret, advance, bind, modify;
    rewrite Hlf;
    (eexists; split; [reflexivity|]); fields; (split; [reflexivity|]);
    symmetry; apply (app_assoc (emitted l) [_] [_]).
Qed.

Lemma bare_command_line l first rest :
  state l = SCAN_NEWLINE -> token_ok l -> token_length l = 0%nat ->
  name_first_byte first = true -> forallb name_byte rest = true ->
  exists l',
    gcode_lexer_scan l (first :: rest ++ [LF]) = Some l'
    /\ state l' = SCAN_NEWLINE
    /\ emitted l'
       = emitted l
         ++ [lex_identifier (string_of_list_ascii (map upper (first :: rest)));
             lex_end_statement].
Proof.
  intros Hs Hok Hlen Hfirst Hrest.
  pose proof (name_first_iteration l first Hs Hfirst) as Hit0.
  rewrite (scan_cons_backup first l _ _ Hit0).
  assert (Hfirst' : name_byte first = true).
  { unfold name_first_byte in Hfirst. split_andb Hfirst. assumption. }
  change (first :: rest ++ [LF]) with ((first :: rest) ++ [LF]).
  rewrite scan_app.
  match goal with
  | |- context [gcode_lexer_scan ?x (first :: rest)] =>
      destruct (name_rest (first :: rest) x eq_refl) as
        (l2 & -> & Hs2 & Hok2 & Hb2 & He2 & Hc2);
        [apply (token_ok_same l); auto
        | cbn [forallb]; rewrite Hfirst', Hrest; reflexivity |]
  end.
  match type of Hb2 with
  | _ = token_bytes ?x ++ _ =>
      assert (Hb0 : token_bytes x = [])
        by (unfold token_bytes; fields; rewrite Hlen; reflexivity);
      rewrite Hb0 in Hb2
  end.
  fields. cbn [app] in Hb2.
  destruct (name_end_iteration l2 Hs2 Hok2) as (l3 & Hit3 & Hs3 & He3).
  { rewrite Hb2, forallb_forall. intros c Hc. apply in_map_iff in Hc
      as (c0 & <- & Hc0).
    apply negb_true_iff, upper_keeps_text.
    assert (Hn : name_byte c0 = true).
    { destruct Hc0 as [<- | Hc0]; [assumption|].
      rewrite forallb_forall in Hrest. auto. }
    unfold name_byte in Hn. split_andb Hn. assumption. }
  rewrite (scan_cons LF l2 l3 [] Hit3), scan_nil.
  exists l3. split; [reflexivity|]. split; [assumption|].
  rewrite He3, Hb2, He2. reflexivity.
Qed.

Lemma new_lexer_is_ready raw c loc :
  state (gcode_lexer_new raw c loc) = SCAN_NEWLINE
  /\ token_ok (gcode_lexer_new raw c loc)
  /\ token_length (gcode_lexer_new raw c loc) = 0%nat
  /\ emitted (gcode_lexer_new raw c loc) = [].
Proof. unfold token_ok. cbn. auto. Qed.

(** C7, as amended.  On a new lexer, whatever its owner and its platform,
    the scan of the comment line followed by the line G28 emits the
    identifier G28 and the end of that statement, and nothing before them:
    the comment-only line gives no end-of-statement. *)
Theorem comment_line_emits_nothing :
  forall (raw : GCodeLexer) (c : Ctx) (loc : option GCodeLocation),
    emissions
      (gcode_lexer_scan (gcode_lexer_new raw c loc)
         (text_lines ["; just a comment"; "G28"]%string))
    = [lex_identifier "G28"; lex_end_statement].
Proof.
  intros raw c loc.
  destruct (new_lexer_is_ready raw c loc) as (Hs & Hok & Hlen & Hem).
  pose (text := list_ascii_of_string " just a comment").
  pose (rest := list_ascii_of_string "28").
  assert (Hinput : text_lines ["; just a comment"; "G28"]%string
                   = (";"%char :: text ++ [LF]) ++ ("G"%char :: rest ++ [LF]))
    by reflexivity.
  assert (Htext : forallb (fun ch => negb (is_char ch LF)) text = true)
    by reflexivity.
  assert (Hrest : forallb name_byte rest = true) by reflexivity.
  assert (Hname : string_of_list_ascii (map upper ("G"%char :: rest))
                  = "G28"%string) by reflexivity.
  rewrite Hinput. clearbody text rest. clear Hinput.
  rewrite scan_app.
  destruct (comment_only_line (gcode_lexer_new raw c loc) text Hs Htext)
    as (l1 & Hrun1 & Hs1 & He1 & Hc1 & Hts1 & Htl1 & Hlim1).
  rewrite Hrun1.
  destruct (bare_command_line l1 "G" rest Hs1) as (l2 & Hrun2 & Hs2 & He2);
    [apply (token_ok_same (gcode_lexer_new raw c loc)); assumption
    | rewrite Htl1; exact Hlen | vm_compute; reflexivity | exact Hrest |].
  rewrite Hrun2. unfold emissions.
  rewrite He2, He1, Hem, Hname. reflexivity.
Qed.

(** ** Further properties of the lexer *)

(** *** The effect of the primitives, as assignments *)

Lemma token_char_effect ch l :
  exists ts tlen tlim,
    token_char ch l
    = (true, set_token_length tlen (set_token_str ts (set_token_limit tlim l))).
Proof.
  destruct l as [c s ts tlen tlim es el en iv dc ln col am af iav loc em].
  unfold token_char, token_alloc, bind, gets, modify, ret;
    cbn -[firstn poke block Nat.mul Nat.eqb].
  destruct (tlen =? tlim)%nat; [destruct ts|];
    cbn -[firstn poke block Nat.mul]; do 3 eexists; reflexivity.
Qed.

Lemma emit_error_effect msg l :
  exists es el, emit_error msg l = (tt, set_error_str es (set_error_limit el l)).
Proof.
  destruct l as [c s ts tlen tlim es el en iv dc ln col am af iav loc em].
  unfold emit_error, error_printf, bind, modify, gets, ret;
    cbn -[double_until substring Nat.ltb Z.ltb Z.of_nat Z.to_nat String.length].
  repeat match goal with
  | |- context [if ?b then _ else _] => destruct b
  end; cbn -[double_until substring Z.of_nat Z.to_nat String.length];
    do 2 eexists; reflexivity.
Qed.

Ltac run_token_char :=
  match goal with
  | |- context [token_char ?c ?l] =>
      let ts := fresh "ts" in
      let tlen := fresh "tlen" in
      let tlim := fresh "tlim" in
      destruct (token_char_effect c l) as (ts & tlen & tlim & ->)
  end.

Ltac run_emit_error :=
  match goal with
  | |- context [emit_error ?m ?l] =>
      let es := fresh "es" in
      let el := fresh "el" in
      destruct (emit_error_effect m l) as (es & el & ->)
  end.

(** *** The buffer fields and the position *)

Lemma token_ok_shrink l l' :
  token_str l' = token_str l -> token_limit l' = token_limit l ->
  (token_length l' <= token_length l)%nat ->
  token_ok l -> token_ok l'.
Proof.
  unfold token_ok. intros -> -> Hle. destruct (token_str l); intros H.
  - destruct H as (H1 & H2 & H3). repeat split; lia.
  - destruct H as (H1 & H2). split; lia.
Qed.

Lemma token_char_position ch l :
  fst (token_char ch l) = true
  /\ line (snd (token_char ch l)) = line l
  /\ column (snd (token_char ch l)) = column l.
Proof.
  unfold token_char, token_alloc, bind, gets, modify, ret.
  destruct (token_length l =? token_limit l)%nat; [destruct (token_str l)|];
    fields; auto.
Qed.

Lemma token_char_keeps ch l :
  exists l', token_char ch l = (true, l') /\ keeps_buffer l l'.
Proof.
  destruct (token_char_position ch l) as (Hfst & Hline & Hcol).
  destruct (token_char ch l) as [ok l'] eqn:Hrun. cbn [fst snd] in *.
  subst ok. exists l'. split; [reflexivity|]. unfold keeps_buffer.
  split; [|split; assumption]. intros Hok.
  destruct (token_char_spec ch l Hok) as (buf & lim & Hrun' & Hl & Hle & _).
  rewrite Hrun in Hrun'. injection Hrun' as ->.
  unfold token_ok; fields. repeat split; lia.
Qed.

Lemma token_chars_keeps bytes l :
  exists l', token_chars bytes l = (true, l') /\ keeps_buffer l l'.
Proof.
  revert l; induction bytes as [|b rest IH]; intros l; cbn [token_chars].
  - exists l. unfold ret, keeps_buffer. auto.
  - unfold bind. destruct (token_char_keeps b l) as (l1 & -> & H1 & H2 & H3).
    destruct (IH l1) as (l2 & -> & H4 & H5 & H6).
    exists l2. unfold keeps_buffer. split; [reflexivity|].
    split; [auto|]. split; congruence.
Qed.

Lemma TOKEN_STOP_keeps l :
  exists l', TOKEN_STOP l = (tt, l') /\ keeps_buffer l l'.
Proof.
  destruct (TOKEN_STOP_spec l) as [loc ->]. eexists. split; [reflexivity|].
  unfold keeps_buffer; fields. split; [|split; reflexivity].
  apply token_ok_same; reflexivity.
Qed.

Lemma TOKEN_START_keeps l :
  exists l', TOKEN_START l = (tt, l') /\ keeps_buffer l l'.
Proof.
  destruct (TOKEN_START_spec l) as [loc ->]. eexists. split; [reflexivity|].
  unfold keeps_buffer; fields. split; [|split; reflexivity].
  apply token_ok_same; reflexivity.
Qed.

Lemma emit_error_keeps msg l :
  exists l', emit_error msg l = (tt, l') /\ keeps_buffer l l'.
Proof.
  unfold emit_error, error_printf, bind, modify, gets, ret, keeps_buffer.
  repeat match goal with
  | |- context [if ?b then _ else _] => destruct b
  end; eexists; (split; [reflexivity|]); fields;
    (split; [apply token_ok_same; reflexivity | split; reflexivity]).
Qed.

Lemma call_keeps e l :
  exists ok l', call e l = (ok, l') /\ keeps_buffer l l'.
Proof.
  unfold call, keeps_buffer. destruct (callback (context l) e) as [c ok].
  do 2 eexists; (split; [reflexivity|]); fields.
  split; [apply token_ok_same; reflexivity | split; reflexivity].
Qed.

Ltac use_keeps H :=
  let l' := fresh "l" in
  let Hk := fresh "Hkeep" in
  let Hl := fresh "Hline" in
  let Hc := fresh "Hcol" in
  destruct H as (l' & -> & Hk & Hl & Hc); fields.

Ltac step_keeps :=
  fields;
  match goal with
  | |- context [token_char ?c ?l] =>
      atomic l; use_keeps (token_char_keeps c l)
  | |- context [token_chars ?c ?l] =>
      atomic l; use_keeps (token_chars_keeps c l)
  | |- context [TOKEN_STOP ?l] => atomic l; use_keeps (TOKEN_STOP_keeps l)
  | |- context [TOKEN_START ?l] => atomic l; use_keeps (TOKEN_START_keeps l)
  | |- context [emit_error ?m ?l] =>
      atomic l; use_keeps (emit_error_keeps m l)
  | |- context [call ?e ?l] =>
      atomic l;
      let ok := fresh "ok" in
      let H := fresh "Hcall" in
      destruct (call_keeps e l) as (ok & H); use_keeps H; destruct ok
  | |- context [if ?b then _ else _] => atomic b; destruct b eqn:?
  | |- context [match ?x with _ => _ end] => atomic x; destruct x eqn:?
  end.

(** The buffer fields agree after a chain of primitives and assignments
    that do not lengthen the token. *)
Ltac token_ok_through :=
  match goal with
  | Hk : token_ok ?x |- token_ok ?y =>
      apply (token_ok_shrink x y);
        [reflexivity | reflexivity | cbn; lia | exact Hk]
  end.

Ltac chain_token_ok :=
  repeat match goal with
  | H : token_ok ?a -> token_ok ?b |- _ =>
      let Ha := fresh "Hok" in
      assert (Ha : token_ok a) by (first [assumption | token_ok_through]);
      specialize (H Ha)
  end.

Ltac rewrite_position :=
  repeat match goal with
  | H : line ?g = _ |- context [line ?g] => rewrite H
  | H : column ?g = _ |- context [column ?g] => rewrite H
  end.

Lemma scan_case_keeps s ch l : keeps_buffer l (snd (scan_case s ch l)).
Proof.
  unfold keeps_buffer.
  destruct s; unfold scan_case; unfold_helpers.
  all: repeat step_keeps; fields;
    (split; [intros Hok0; chain_token_ok; first [assumption | token_ok_through]
            | rewrite_position; split; reflexivity]).
Qed.

Lemma scan_iteration_keeps ch l :
  (token_ok l -> token_ok (snd (scan_iteration ch l)))
  /\ line (snd (scan_iteration ch l))
     = (if fst (scan_iteration ch l) then line l
        else if is_char ch LF then to_uint32 (line l + 1) else line l).
Proof.
  pose proof (scan_case_keeps (state l) ch l) as (Hok & Hline & Hcol).
  unfold scan_iteration, advance, bind, gets, ret, modify.
  destruct (scan_case (state l) ch l) as [b l1]. cbn [fst snd] in *.
  destruct b.
  - change (is_char NUL LF) with false. fields. split; [|assumption].
    intros H. apply (token_ok_same l1); auto.
  - destruct (is_char ch LF); fields; (split; [|congruence]);
      intros H; apply (token_ok_same l1); auto.
Qed.

Lemma scan_loop_token_ok fuel : forall l buffer l',
  scan_loop fuel l buffer = Some l' -> token_ok l -> token_ok l'.
Proof.
  induction fuel as [|fuel IH]; intros l buffer l' Hrun Hok.
  - destruct buffer; cbn in Hrun; [|discriminate]. congruence.
  - destruct buffer as [|ch rest]; [cbn in Hrun; congruence|].
    cbn [scan_loop] in Hrun.
    pose proof (scan_iteration_keeps ch l) as [Hk _].
    destruct (scan_iteration ch l) as [backed l1]. cbn [snd] in Hk.
    eapply IH; [exact Hrun | auto].
Qed.

Lemma to_uint32_add_l a n : to_uint32 (to_uint32 a + n) = to_uint32 (a + n).
Proof. unfold to_uint32, wrap_unsigned. apply Zplus_mod_idemp_l. Qed.

Lemma scan_loop_line fuel : forall l buffer l',
  scan_loop fuel l buffer = Some l' ->
  to_uint32 (line l') = to_uint32 (line l + count_newlines buffer).
Proof.
  induction fuel as [|fuel IH]; intros l buffer l' Hrun.
  - destruct buffer; cbn in Hrun; [|discriminate].
    injection Hrun as <-. cbn [count_newlines]. rewrite Z.add_0_r. reflexivity.
  - destruct buffer as [|ch rest].
    + cbn in Hrun. injection Hrun as <-. cbn [count_newlines].
      rewrite Z.add_0_r. reflexivity.
    + cbn [scan_loop] in Hrun.
      pose proof (scan_iteration_keeps ch l) as [_ Hline].
      destruct (scan_iteration ch l) as [backed l1]. cbn [fst snd] in Hline.
      rewrite (IH _ _ _ Hrun). destruct backed.
      * rewrite Hline. reflexivity.
      * cbn [count_newlines]. rewrite Hline.
        destruct (is_char ch LF).
        -- rewrite to_uint32_add_l. f_equal; lia.
        -- f_equal; lia.
Qed.

Lemma line_in_range l ch :
  0 <= line l < 2 ^ 32 -> 0 <= line (snd (scan_iteration ch l)) < 2 ^ 32.
Proof.
  intros H. destruct (scan_iteration_keeps ch l) as [_ ->].
  destruct (fst (scan_iteration ch l)); [assumption|].
  destruct (is_char ch LF); [|assumption].
  unfold to_uint32, wrap_unsigned. apply Z.mod_pos_bound. lia.
Qed.

Lemma scan_loop_line_range fuel : forall l buffer l',
  scan_loop fuel l buffer = Some l' ->
  0 <= line l < 2 ^ 32 -> 0 <= line l' < 2 ^ 32.
Proof.
  induction fuel as [|fuel IH]; intros l buffer l' Hrun Hr.
  - destruct buffer; cbn in Hrun; [|discriminate]. congruence.
  - destruct buffer as [|ch rest]; [cbn in Hrun; congruence|].
    cbn [scan_loop] in Hrun. pose proof (line_in_range l ch Hr) as H1.
    destruct (scan_iteration ch l) as [backed l1]. cbn [snd] in H1.
    eapply IH; eauto.
Qed.

(** X1.  The buffer fields agree with each other after every scan that started
    with them in agreement: the block has [token_limit] bytes and the token
    in progress fits in it. *)
Theorem token_buffer_stays_consistent :
  forall (l : GCodeLexer) (buffer : list ascii),
    token_ok l -> token_ok (after_scan l buffer).
Proof.
  intros l buffer Hok. unfold after_scan.
  destruct (gcode_lexer_scan l buffer) as [l'|] eqn:Hrun; [|assumption].
  eapply scan_loop_token_ok; eauto.
Qed.

(** X2.  The line of the position is one more than the number of newline bytes
    scanned (modulo 2^32), whatever the chunking, the errors and the
    back-ups on the way. *)
Theorem line_counts_newlines :
  forall (raw : GCodeLexer) (c : Ctx) (loc : option GCodeLocation)
         (buffer : list ascii),
    line (after_scan (gcode_lexer_new raw c loc) buffer)
    = to_uint32 (1 + count_newlines buffer).
Proof.
  intros raw c loc buffer. unfold after_scan.
  destruct (scan_total (gcode_lexer_new raw c loc) buffer) as [l' Hrun].
  rewrite Hrun.
  pose proof (scan_loop_line _ _ _ _ Hrun) as Hline.
  pose proof (scan_loop_line_range _ _ _ _ Hrun) as Hr.
  change (line (gcode_lexer_new raw c loc)) with 1 in *.
  rewrite <- Hline. unfold to_uint32, wrap_unsigned.
  symmetry. apply Z.mod_small. apply Hr. lia.
Qed.

(** *** Lines that are dropped *)

Lemma error_line_rest text : forall l,
  state l = SCAN_ERROR ->
  forallb (fun c => negb (is_char c LF)) text = true ->
  exists l',
    gcode_lexer_scan l (text ++ [LF]) = Some l'
    /\ state l' = SCAN_NEWLINE /\ emitted l' = emitted l
    /\ context l' = context l /\ token_str l' = token_str l
    /\ token_length l' = token_length l /\ token_limit l' = token_limit l.
Proof.
  induction text as [|ch rest IH]; intros l Hs Htext.
  - cbn [app].
    assert (Hit : scan_iteration LF l
                  = (false, set_column 1 (set_line (to_uint32 (line l + 1))
                                            (set_state SCAN_NEWLINE l)))).
    { unfold scan_iteration, bind, gets. rewrite Hs. reflexivity. }
    rewrite (scan_cons LF l _ [] Hit), scan_nil.
    eexists. split; [reflexivity|]. fields. repeat split.
  - cbn [forallb] in Htext. apply andb_true_iff in Htext as [Hch Hrest].
    apply negb_true_iff in Hch.
    assert (Hit : scan_iteration ch l
                  = (false, set_column (to_uint32 (column l + 1)) l)).
    { unfold scan_iteration, bind, gets. rewrite Hs. cbn [scan_case].
      unfold case_ERROR, next_byte, ret. rewrite Hch.
      unfold advance. rewrite Hch. reflexivity. }
    cbn [app]. rewrite (scan_cons ch l _ _ Hit).
    destruct (IH (set_column (to_uint32 (column l + 1)) l) Hs Hrest)
      as (l' & Hrun & H'); fields.
    exists l'. split; [assumption | exact H'].
Qed.

(** X3.  A statement in which an error was found is dropped up to its newline:
    from the Error state the rest of the line calls no callback, leaves the
    owner and the token buffer as they are, and ends in the Newline
    state. *)
Theorem error_drops_rest_of_line :
  forall (l : GCodeLexer) (text : list ascii),
    state l = SCAN_ERROR ->
    forallb (fun c => negb (is_char c LF)) text = true ->
    exists l',
      gcode_lexer_scan l (text ++ [LF]) = Some l'
      /\ state l' = SCAN_NEWLINE /\ emitted l' = emitted l
      /\ context l' = context l /\ token_str l' = token_str l
      /\ token_length l' = token_length l /\ token_limit l' = token_limit l.
Proof. intros l text. apply error_line_rest. Qed.

(** X4.  A line that starts with a semicolon, whatever follows up to the
    newline, calls no callback: it gives no end-of-statement, and leaves the
    owner and the token buffer as they are. *)
Theorem comment_only_line_is_silent :
  forall (l : GCodeLexer) (text : list ascii),
    state l = SCAN_NEWLINE ->
    forallb (fun c => negb (is_char c LF)) text = true ->
    exists l',
      gcode_lexer_scan l (";"%char :: text ++ [LF]) = Some l'
      /\ state l' = SCAN_NEWLINE /\ emitted l' = emitted l
      /\ context l' = context l /\ token_str l' = token_str l
      /\ token_length l' = token_length l /\ token_limit l' = token_limit l.
Proof. intros l text. apply comment_only_line. Qed.


(** *** Line numbers *)




(** *** Numbers *)

Lemma to_int64_small v : 0 <= v <= INT64_MAX -> to_int64 v = v.
Proof.
  unfold to_int64, wrap_signed, INT64_MAX. intros H.
  change (2 ^ (64 - 1)) with 9223372036854775808.
  change (2 ^ 64) with 18446744073709551616.
  change (2 ^ 63 - 1) with 9223372036854775807 in H.
  rewrite Z.mod_small; lia.
Qed.

Lemma to_int_small v : - 2 ^ 31 <= v < 2 ^ 31 -> to_int v = v.
Proof.
  unfold to_int, wrap_signed. intros H.
  change (2 ^ (32 - 1)) with 2147483648 in *.
  change (2 ^ 32) with 4294967296.
  change (2 ^ 31) with 2147483648 in H.
  rewrite Z.mod_small; lia.
Qed.

(** [digit_exceeds] is exact: it reports an excess exactly when the new
    value would be above [max]. *)
Lemma digit_exceeds_exact v value base max :
  0 <= v -> 0 <= value <= max -> 0 < base ->
  ((max - value) ÷ base <? v) = negb (v * base + value <=? max).
Proof.
  intros Hv Hval Hbase.
  rewrite Z.quot_div_nonneg by lia.
  destruct (v * base + value <=? max) eqn:Hle; cbn [negb].
  - apply Z.leb_le in Hle. apply Z.ltb_ge.
    apply Z.div_le_lower_bound; lia.
  - apply Z.leb_gt in Hle. apply Z.ltb_lt.
    apply Z.div_lt_upper_bound; lia.
Qed.

Lemma digit_code ch : is_digit ch = true -> 0 <= code ch - code "0" <= 9.
Proof.
  unfold is_digit, between. change (code "0") with 48.
  change (code "9") with 57. intros H.
  apply andb_true_iff in H as [H1 H2]. apply Z.leb_le in H1, H2. lia.
Qed.

Lemma decimal_fold_ge digits : forall v,
  0 <= v -> forallb is_digit digits = true ->
  v <= fold_left (fun v ch => v * 10 + (code ch - code "0")) digits v.
Proof.
  induction digits as [|d rest IH]; intros v Hv Hd; cbn [fold_left]; [lia|].
  cbn [forallb] in Hd. apply andb_true_iff in Hd as [Hd1 Hd2].
  pose proof (digit_code d Hd1).
  specialize (IH (v * 10 + (code d - code "0")) ltac:(lia) Hd2). lia.
Qed.

Lemma decimal_digit_iteration l ch :
  state l = SCAN_DECIMAL -> is_digit ch = true -> 0 <= int_value l ->
  int_value l * 10 + (code ch - code "0") <= INT64_MAX ->
  exists l',
    scan_iteration ch l = (false, l')
    /\ state l' = SCAN_DECIMAL
    /\ int_value l' = int_value l * 10 + (code ch - code "0")
    /\ emitted l' = emitted l /\ context l' = context l.
Proof.
  intros Hs Hd Hv Hmax. pose proof (digit_code ch Hd) as Hcode.
  assert (Hdot : is_char ch "." = false /\ is_char ch "e" = false
                 /\ is_char ch "E" = false /\ is_char ch LF = false).
  { unfold is_digit, between, is_char in *.
    apply andb_true_iff in Hd as [H1 H2]. apply Z.leb_le in H1, H2.
    repeat split; apply Ascii.eqb_neq; intros ->; vm_compute in H1, H2;
      first [apply H1; reflexivity | apply H2; reflexivity]. }
  destruct Hdot as (H1 & H2 & H3 & H4).
  unfold scan_iteration, bind, gets. rewrite Hs. cbn [scan_case].
  unfold case_DECIMAL. rewrite H1, H2, H3. cbn [orb].
  change (between "0" ch "9") with (is_digit ch). rewrite Hd.
  unfold ignore, TOKEN_CHAR, bind. run_token_char.
  unfold ret, digit_exceeds, bind, gets; fields.
  rewrite digit_exceeds_exact by (unfold INT64_MAX in *; lia).
  assert (Hle : (int_value l * 10 + (code ch - code "0") <=? INT64_MAX) = true)
    by (apply Z.leb_le; assumption).
  rewrite Hle. cbn [negb].
  unfold add_safe_digit, next_byte, ret, advance, bind, modify. rewrite H4.
  eexists. split; [reflexivity|]. fields.
  split; [assumption|]. split; [|split; reflexivity].
  apply to_int64_small. lia.
Qed.

Lemma decimal_digits rest : forall l,
  state l = SCAN_DECIMAL -> forallb is_digit rest = true ->
  0 <= int_value l ->
  fold_left (fun v ch => v * 10 + (code ch - code "0")) rest (int_value l)
    <= INT64_MAX ->
  exists l',
    gcode_lexer_scan l rest = Some l'
    /\ state l' = SCAN_DECIMAL
    /\ int_value l'
       = fold_left (fun v ch => v * 10 + (code ch - code "0")) rest
           (int_value l)
    /\ emitted l' = emitted l /\ context l' = context l.
Proof.
  induction rest as [|d rest IH]; intros l Hs Hd Hv Hmax.
  - exists l. repeat split; auto.
  - cbn [forallb] in Hd. apply andb_true_iff in Hd as [Hd1 Hd2].
    cbn [fold_left] in *.
    pose proof (digit_code d Hd1) as Hcode.
    pose proof (decimal_fold_ge rest
                  (int_value l * 10 + (code d - code "0")) ltac:(lia) Hd2).
    destruct (decimal_digit_iteration l d Hs Hd1 Hv ltac:(lia))
      as (l1 & Hit & Hs1 & Hv1 & He1 & Hc1).
    rewrite (scan_cons d l l1 rest Hit).
    destruct (IH l1 Hs1 Hd2 ltac:(lia) ltac:(rewrite Hv1; assumption))
      as (l2 & Hrun & Hs2 & Hv2 & He2 & Hc2).
    exists l2. split; [assumption|]. split; [assumption|].
    split; [rewrite Hv2, Hv1; reflexivity|]. split; congruence.
Qed.

Lemma decimal_first_iteration l ch :
  state l = SCAN_EXPR -> between "1" ch "9" = true ->
  exists l',
    scan_iteration ch l = (false, l')
    /\ state l' = SCAN_DECIMAL /\ int_value l' = code ch - code "0"
    /\ emitted l' = emitted l /\ context l' = context l.
Proof.
  intros Hs Hd.
  assert (Hno : is_char ch LF = false /\ is_space ch = false
                /\ is_char ch "(" = false /\ is_char ch ")" = false
                /\ is_char ch EXIT_EXPR = false /\ is_char ch "0" = false
                /\ is_char ch "'" = false /\ is_char ch "`" = false
                /\ is_char ch "." = false /\ is_char ch DQUOTE = false).
  { unfold between, is_space, is_char in *.
    apply andb_true_iff in Hd as [H1 H2]. apply Z.leb_le in H1, H2.
    repeat split; repeat (apply orb_false_iff; split);
      apply Ascii.eqb_neq; intros ->; vm_compute in H1, H2;
      first [apply H1; reflexivity | apply H2; reflexivity]. }
  destruct Hno as (H1 & H2 & H3 & H4 & H5 & H6 & H7 & H8 & H9 & H10).
  unfold scan_iteration, bind, gets. rewrite Hs. cbn [scan_case].
  unfold case_EXPR. rewrite H1, H2, H3, H4, H5, H6, H7, H8, H9, H10.
  cbn [orb]. unfold bind. run_TOKEN_START. rewrite Hd.
  unfold ignore, TOKEN_CHAR, bind. run_token_char.
  unfold set_state_m, next_byte, ret, advance, bind, modify; fields.
  rewrite H1.
  eexists. split; [reflexivity|]. fields. repeat split.
Qed.

Lemma decimal_end_iteration l ch :
  state l = SCAN_DECIMAL -> ends_decimal ch = true ->
  exists l',
    scan_iteration ch l = (true, l')
    /\ emitted l' = emitted l ++ [lex_int_literal (to_int (int_value l))]
    /\ token_length l' = 0%nat
    /\ state l'
       = (if snd (callback (context l) (lex_int_literal (to_int (int_value l))))
          then SCAN_EXPR else SCAN_ERROR).
Proof.
  intros Hs Hend. unfold ends_decimal in Hend. split_andb Hend.
  unfold scan_iteration, bind, gets. rewrite Hs. cbn [scan_case].
  unfold case_DECIMAL.
  change (between "0" ch "9") with (is_digit ch).
  repeat match goal with H : _ = false |- _ => rewrite H end.
  cbn [orb].
  unfold free_token, if_ok, EMIT_INT, emit_int, bind, modify, gets.
  run_TOKEN_STOP. unfold call; fields.
  destruct (callback (context l) (lex_int_literal (to_int (int_value l))))
    as [c ok].
  destruct ok; unfold set_state_m, BACK_UP, ret, advance, bind, modify; fields;
    change (is_char NUL LF) with false; cbv iota;
    (eexists; split; [reflexivity|]); fields; repeat split.
Qed.

(** X7.  A decimal integer literal in an expression.  With the lexer in the Expr
    state, a first digit 1..9 and further digits whose number is at most
    [INT64_MAX] are accumulated exactly: no callback is called and the
    accumulator holds the number.  The byte that ends the literal (no digit,
    point or exponent letter) is looked at again after one
    [lex_int_literal] call whose argument is that number converted to [int];
    a number below 2^31 is delivered as it is. *)
Theorem decimal_literal_is_accumulated :
  forall (l : GCodeLexer) (first : ascii) (rest : list ascii) (stop : ascii),
    state l = SCAN_EXPR ->
    between "1" first "9" = true -> forallb is_digit rest = true ->
    decimal_value (first :: rest) <= INT64_MAX ->
    ends_decimal stop = true ->
    exists l1 l2,
      gcode_lexer_scan l (first :: rest) = Some l1
      /\ state l1 = SCAN_DECIMAL
      /\ int_value l1 = decimal_value (first :: rest)
      /\ emitted l1 = emitted l
      /\ scan_iteration stop l1 = (true, l2)
      /\ emitted l2
         = emitted l
           ++ [lex_int_literal (to_int (decimal_value (first :: rest)))]
      /\ (decimal_value (first :: rest) < 2 ^ 31 ->
          to_int (decimal_value (first :: rest))
          = decimal_value (first :: rest)).
Proof.
  intros l first rest stop Hs Hfirst Hrest Hmax Hstop.
  destruct (decimal_first_iteration l first Hs Hfirst)
    as (l0 & Hit0 & Hs0 & Hv0 & He0 & Hc0).
  assert (Hcode : 1 <= code first - code "0" <= 9).
  { unfold between in Hfirst. change (code "0") with 48.
    change (code "1") with 49 in Hfirst. change (code "9") with 57 in Hfirst.
    apply andb_true_iff in Hfirst as [H1 H2]. apply Z.leb_le in H1, H2. lia. }
  unfold decimal_value in *. cbn [fold_left] in *.
  rewrite Z.mul_0_l, Z.add_0_l in *.
  destruct (decimal_digits rest l0 Hs0 Hrest ltac:(lia)
              ltac:(rewrite Hv0; assumption))
    as (l1 & Hrun & Hs1 & Hv1 & He1 & Hc1).
  destruct (decimal_end_iteration l1 stop Hs1 Hstop)
    as (l2 & Hit2 & He2 & Hlen2 & Hs2).
  exists l1, l2. rewrite (scan_cons first l l0 rest Hit0).
  rewrite Hv0 in Hv1.
  split; [assumption|]. split; [assumption|]. split; [assumption|].
  split; [congruence|]. split; [assumption|].
  split; [rewrite He2, Hv1, He1, He0; reflexivity|].
  intros Hsmall. apply to_int_small.
  pose proof (decimal_fold_ge rest (code first - code "0") ltac:(lia) Hrest).
  lia.
Qed.

(** *** String literals *)

Lemma string_byte_iteration l ch :
  state l = SCAN_STR -> token_ok l -> string_byte ch = true ->
  exists l',
    scan_iteration ch l = (false, l')
    /\ state l' = SCAN_STR /\ token_ok l'
    /\ token_bytes l' = token_bytes l ++ [ch]
    /\ emitted l' = emitted l /\ context l' = context l
    /\ after_str l' = after_str l.
Proof.
  intros Hs Hok Hch. unfold string_byte in Hch. split_andb Hch.
  destruct (token_char_spec ch l Hok) as (buf & lim & Hrun & Hl & Hle & Hpre).
  unfold scan_iteration, bind, gets. rewrite Hs. cbn [scan_case].
  unfold case_STR.
  repeat match goal with H : _ = false |- _ => rewrite H end.
  unfold ignore, TOKEN_CHAR, bind. rewrite Hrun.
  unfold next_byte, ret, advance, bind, modify; fields.
  repeat match goal with H : _ = false |- _ => rewrite H end.
  eexists. split; [reflexivity|]. fields.
  split; [assumption|]. split; [unfold token_ok; fields; lia|].
  split; [|repeat split].
  unfold token_bytes, token_block in *; fields. exact Hpre.
Qed.

Lemma string_bytes body : forall l,
  state l = SCAN_STR -> token_ok l -> forallb string_byte body = true ->
  exists l',
    gcode_lexer_scan l body = Some l'
    /\ state l' = SCAN_STR /\ token_ok l'
    /\ token_bytes l' = token_bytes l ++ body
    /\ emitted l' = emitted l /\ context l' = context l
    /\ after_str l' = after_str l.
Proof.
  induction body as [|ch rest IH]; intros l Hs Hok Hbody.
  - exists l. rewrite app_nil_r. repeat split; auto.
  - cbn [forallb] in Hbody. apply andb_true_iff in Hbody as [Hch Hrest].
    destruct (string_byte_iteration l ch Hs Hok Hch)
      as (l1 & Hit & Hs1 & Hok1 & Hb1 & He1 & Hc1 & Ha1).
    destruct (IH l1 Hs1 Hok1 Hrest)
      as (l2 & Hrun & Hs2 & Hok2 & Hb2 & He2 & Hc2 & Ha2).
    exists l2. rewrite (scan_cons ch l l1 rest Hit).
    split; [assumption|]. split; [assumption|]. split; [assumption|].
    split; [rewrite Hb2, Hb1, <- app_assoc; reflexivity|].
    repeat split; congruence.
Qed.

Lemma string_close_iteration l :
  state l = SCAN_STR -> token_ok l ->
  forallb (fun c => negb (is_char c NUL)) (token_bytes l) = true ->
  exists l',
    scan_iteration DQUOTE l = (false, l')
    /\ emitted l'
       = emitted l ++ [lex_str_literal (string_of_list_ascii (token_bytes l))]
    /\ token_length l' = 0%nat
    /\ state l'
       = (if snd (callback (context l)
                    (lex_str_literal (string_of_list_ascii (token_bytes l))))
          then after_str l else SCAN_ERROR).
Proof.
  intros Hs Hok Hnul.
  unfold scan_iteration, bind, gets. rewrite Hs. cbn [scan_case].
  unfold case_STR.
  change (is_char DQUOTE BACKSLASH) with false.
  change (is_char DQUOTE DQUOTE) with true. cbv iota.
  unfold if_ok, emit_str, terminate_token, bind.
  run_TOKEN_STOP.
  match goal with
  | |- context [token_char NUL ?x] =>
      destruct (token_char_spec NUL x) as (buf & lim & -> & Hl & Hle & Hpre);
        [apply (token_ok_same l); auto|]
  end.
  unfold gets.
  assert (Htext : forall x,
    token_str x = Some buf -> token_text x = string_of_list_ascii (token_bytes l)).
  { intros x Hx. unfold token_text. rewrite Hx.
    eapply cstr_of_prefix; [|exact Hnul].
    rewrite <- (token_bytes_same l (set_location loc l)) by reflexivity.
    exact Hpre. }
  rewrite Htext by reflexivity.
  unfold call; fields.
  destruct (callback (context l)
              (lex_str_literal (string_of_list_ascii (token_bytes l))))
    as [c1 ok1].
  destruct ok1;
    unfold set_state_m, free_token, next_byte, ret, advance, bind, modify,
      gets; fields;
    change (is_char DQUOTE LF) with false; cbv iota;
    (eexists; split; [reflexivity|]); fields; repeat split.
Qed.

(** X8.  A string literal without escapes comes out byte for byte.  With the
    lexer in the Str state (after the opening quote) and an empty token,
    bytes other than backslash, quote, newline and NUL, then the closing
    quote, make one [lex_str_literal] call with exactly those bytes; the
    lexer goes on in the state saved in [after_str], or in Error when the
    callback returned false. *)
Theorem plain_string_round_trip :
  forall (l : GCodeLexer) (body : list ascii),
    state l = SCAN_STR -> token_ok l -> token_length l = 0%nat ->
    forallb string_byte body = true ->
    exists l',
      gcode_lexer_scan l (body ++ [DQUOTE]) = Some l'
      /\ emitted l'
         = emitted l ++ [lex_str_literal (string_of_list_ascii body)]
      /\ token_length l' = 0%nat
      /\ state l'
         = (if snd (callback (context l)
                      (lex_str_literal (string_of_list_ascii body)))
            then after_str l else SCAN_ERROR).
Proof.
  intros l body Hs Hok Hlen Hbody.
  destruct (string_bytes body l Hs Hok Hbody)
    as (l1 & Hrun & Hs1 & Hok1 & Hb1 & He1 & Hc1 & Ha1).
  assert (Hb0 : token_bytes l = [])
    by (unfold token_bytes; rewrite Hlen; reflexivity).
  rewrite Hb0 in Hb1. cbn [app] in Hb1.
  destruct (string_close_iteration l1 Hs1 Hok1) as (l2 & Hit & He2 & Hl2 & Hs2).
  { rewrite Hb1, forallb_forall. intros c Hc.
    rewrite forallb_forall in Hbody. specialize (Hbody c Hc).
    unfold string_byte in Hbody. split_andb Hbody.
    apply negb_true_iff. assumption. }
  rewrite scan_app, Hrun, (scan_cons DQUOTE l1 l2 [] Hit), scan_nil.
  exists l2. split; [reflexivity|].
  rewrite He2, Hs2, Hb1, He1, Hc1, Ha1. repeat split; assumption.
Qed.

(** *** Digits *)


(** *** Error messages *)



(** *** Arguments: the pieces shared by the modes *)

Lemma emit_str_spec l :
  token_ok l ->
  forallb (fun c => negb (is_char c NUL)) (token_bytes l) = true ->
  exists l',
    emit_str l
    = (snd (callback (context l)
              (lex_str_literal (string_of_list_ascii (token_bytes l)))), l')
    /\ emitted l'
       = emitted l ++ [lex_str_literal (string_of_list_ascii (token_bytes l))]
    /\ context l'
       = fst (callback (context l)
                (lex_str_literal (string_of_list_ascii (token_bytes l))))
    /\ token_length l' = 0%nat /\ token_ok l'
    /\ state l'
       = (if snd (callback (context l)
                    (lex_str_literal (string_of_list_ascii (token_bytes l))))
          then state l else SCAN_ERROR)
    /\ arg_mode l' = arg_mode l /\ in_arg_value l' = in_arg_value l.
Proof.
  intros Hok Hnul. unfold emit_str, terminate_token, bind.
  run_TOKEN_STOP.
  match goal with
  | |- context [token_char NUL ?x] =>
      destruct (token_char_spec NUL x) as (buf & lim & -> & Hl & Hle & Hpre);
        [apply (token_ok_same l); auto|]
  end.
  unfold gets.
  assert (Htext : forall x,
    token_str x = Some buf
    -> token_text x = string_of_list_ascii (token_bytes l)).
  { intros x Hx. unfold token_text. rewrite Hx.
    eapply cstr_of_prefix; [|exact Hnul].
    rewrite <- (token_bytes_same l (set_location loc l)) by reflexivity.
    exact Hpre. }
  rewrite Htext by reflexivity.
  unfold call; fields.
  destruct (callback (context l)
              (lex_str_literal (string_of_list_ascii (token_bytes l))))
    as [c1 ok1].
  cbn [fst snd].
  destruct ok1; unfold set_state_m, free_token, ret, bind, modify; fields;
    (eexists; split; [reflexivity|]); fields;
    (split; [reflexivity|]); (split; [reflexivity|]);
    (split; [reflexivity|]);
    (split; [unfold token_ok; fields; lia|]); repeat split.
Qed.

Lemma extended_key_first_iteration l ch :
  state l = SCAN_ARGS -> arg_mode l = ARG_EXTENDED -> token_ok l ->
  token_length l = 0%nat -> raw_first_byte ch = true ->
  exists l',
    scan_iteration ch l = (false, l')
    /\ state l' = SCAN_EXTENDED_KEY /\ arg_mode l' = ARG_EXTENDED
    /\ token_ok l' /\ token_bytes l' = [upper ch]
    /\ emitted l' = emitted l /\ context l' = context l.
Proof.
  intros Hs Hm Hok Hlen Hch. unfold raw_first_byte, raw_byte in Hch.
  split_andb Hch.
  unfold scan_iteration, bind, gets. rewrite Hs. cbn [scan_case].
  unfold case_ARGS, bind, gets, ENTER_EXPR in *.
  repeat match goal with H : _ = false |- _ => rewrite H end.
  cbn [orb]. run_TOKEN_START. fields. rewrite Hm.
  unfold if_ok, TOKEN_CHAR_UPPER, bind.
  match goal with
  | |- context [token_char (upper ch) ?x] =>
      destruct (token_char_spec (upper ch) x)
        as (buf & lim & -> & Hl & Hle & Hpre);
        [apply (token_ok_same l); auto|]
  end.
  unfold set_state_m, modify, next_byte, ret, advance, bind.
  repeat match goal with H : _ = false |- _ => rewrite H end.
  eexists. split; [reflexivity|]. fields.
  split; [reflexivity|]. split; [assumption|].
  split; [unfold token_ok; fields; lia|].
  split; [|split; reflexivity].
  unfold token_bytes, token_block in *; fields.
  rewrite Hlen in *. exact Hpre.
Qed.

Lemma extended_key_iteration l ch :
  state l = SCAN_EXTENDED_KEY -> token_ok l -> raw_first_byte ch = true ->
  exists l',
    scan_iteration ch l = (false, l')
    /\ state l' = SCAN_EXTENDED_KEY /\ arg_mode l' = arg_mode l
    /\ token_ok l' /\ token_bytes l' = token_bytes l ++ [upper ch]
    /\ emitted l' = emitted l /\ context l' = context l.
Proof.
  intros Hs Hok Hch. unfold raw_first_byte, raw_byte in Hch. split_andb Hch.
  destruct (token_char_spec (upper ch) l Hok)
    as (buf & lim & Hrun & Hl & Hle & Hpre).
  unfold scan_iteration, bind, gets. rewrite Hs. cbn [scan_case].
  unfold case_EXTENDED_KEY, ENTER_EXPR in *.
  repeat match goal with H : _ = false |- _ => rewrite H end.
  cbn [orb]. unfold ignore, TOKEN_CHAR_UPPER, bind. rewrite Hrun.
  unfold next_byte, ret, advance, bind, modify; fields.
  repeat match goal with H : _ = false |- _ => rewrite H end.
  eexists. split; [reflexivity|]. fields.
  split; [assumption|]. split; [reflexivity|].
  split; [unfold token_ok; fields; lia|].
  split; [|split; reflexivity].
  unfold token_bytes, token_block in *; fields. exact Hpre.
Qed.

Lemma extended_key_rest rest : forall l,
  state l = SCAN_EXTENDED_KEY -> token_ok l ->
  forallb raw_first_byte rest = true ->
  exists l',
    gcode_lexer_scan l rest = Some l'
    /\ state l' = SCAN_EXTENDED_KEY /\ arg_mode l' = arg_mode l
    /\ token_ok l' /\ token_bytes l' = token_bytes l ++ map upper rest
    /\ emitted l' = emitted l /\ context l' = context l.
Proof.
  induction rest as [|ch rest IH]; intros l Hs Hok Hrest.
  - exists l. cbn [map]. rewrite app_nil_r. repeat split; auto.
  - cbn [forallb] in Hrest. apply andb_true_iff in Hrest as [Hch Hrest].
    destruct (extended_key_iteration l ch Hs Hok Hch)
      as (l1 & Hit & Hs1 & Hm1 & Hok1 & Hb1 & He1 & Hc1).
    destruct (IH l1 Hs1 Hok1 Hrest)
      as (l2 & Hrun & Hs2 & Hm2 & Hok2 & Hb2 & He2 & Hc2).
    exists l2. rewrite (scan_cons ch l l1 rest Hit).
    split; [assumption|]. split; [assumption|]. split; [congruence|].
    split; [assumption|].
    split; [cbn [map]; rewrite Hb2, Hb1, <- app_assoc; reflexivity|].
    split; congruence.
Qed.

Lemma key_bytes_are_text key :
  forallb raw_first_byte key = true ->
  forallb (fun c => negb (is_char c NUL)) (map upper key) = true.
Proof.
  induction key as [|ch key IH]; intros H; [reflexivity|].
  cbn [forallb map] in *. apply andb_true_iff in H as [Hch Hkey].
  rewrite (IH Hkey), andb_true_r.
  unfold raw_first_byte, raw_byte in Hch. split_andb Hch.
  apply negb_true_iff, upper_keeps_text. assumption.
Qed.

Lemma value_bytes_are_text value :
  forallb value_byte value = true ->
  forallb (fun c => negb (is_char c NUL)) value = true.
Proof.
  induction value as [|ch value IH]; intros H; [reflexivity|].
  cbn [forallb] in *. apply andb_true_iff in H as [Hch Hvalue].
  rewrite (IH Hvalue), andb_true_r.
  unfold value_byte, raw_byte in Hch. split_andb Hch.
  apply negb_true_iff. assumption.
Qed.

Lemma value_byte_step l ch :
  state l = SCAN_ARG_VALUE -> token_ok l -> value_byte ch = true ->
  exists l',
    scan_iteration ch l = (false, l')
    /\ state l' = SCAN_ARG_VALUE /\ arg_mode l' = arg_mode l /\ token_ok l'
    /\ token_bytes l' = token_bytes l ++ [ch]
    /\ emitted l' = emitted l /\ context l' = context l.
Proof.
  intros Hs Hok Hch. unfold value_byte, raw_byte in Hch. split_andb Hch.
  destruct (token_char_spec ch l Hok) as (buf & lim & Hrun & Hl & Hle & Hpre).
  unfold scan_iteration, bind, gets. rewrite Hs. cbn [scan_case].
  unfold case_ARG_VALUE, ENTER_EXPR in *.
  repeat match goal with H : _ = false |- _ => rewrite H end.
  unfold ignore, TOKEN_CHAR, bind. rewrite Hrun.
  unfold next_byte, ret, advance, bind, modify; fields.
  repeat match goal with H : _ = false |- _ => rewrite H end.
  eexists. split; [reflexivity|]. fields.
  split; [assumption|]. split; [reflexivity|].
  split; [unfold token_ok; fields; lia|].
  split; [|split; reflexivity].
  unfold token_bytes, token_block in *; fields. exact Hpre.
Qed.

Lemma value_steps rest : forall l,
  state l = SCAN_ARG_VALUE -> token_ok l -> forallb value_byte rest = true ->
  exists l',
    gcode_lexer_scan l rest = Some l'
    /\ state l' = SCAN_ARG_VALUE /\ arg_mode l' = arg_mode l /\ token_ok l'
    /\ token_bytes l' = token_bytes l ++ rest
    /\ emitted l' = emitted l /\ context l' = context l.
Proof.
  induction rest as [|ch rest IH]; intros l Hs Hok Hrest.
  - exists l. rewrite app_nil_r. repeat split; auto.
  - cbn [forallb] in Hrest. apply andb_true_iff in Hrest as [Hch Hrest].
    destruct (value_byte_step l ch Hs Hok Hch)
      as (l1 & Hit & Hs1 & Hm1 & Hok1 & Hb1 & He1 & Hc1).
    destruct (IH l1 Hs1 Hok1 Hrest)
      as (l2 & Hrun & Hs2 & Hm2 & Hok2 & Hb2 & He2 & Hc2).
    exists l2. rewrite (scan_cons ch l l1 rest Hit).
    split; [assumption|]. split; [assumption|]. split; [congruence|].
    split; [assumption|].
    split; [rewrite Hb2, Hb1, <- app_assoc; reflexivity|].
    split; congruence.
Qed.

Lemma value_end_step l sp :
  state l = SCAN_ARG_VALUE -> arg_mode l <> ARG_RAW -> token_ok l ->
  token_bytes l <> [] ->
  forallb (fun c => negb (is_char c NUL)) (token_bytes l) = true ->
  is_space sp = true ->
  exists l',
    scan_iteration sp l = (false, l')
    /\ emitted l'
       = emitted l ++ [lex_str_literal (string_of_list_ascii (token_bytes l))]
    /\ token_length l' = 0%nat
    /\ state l'
       = (if snd (callback (context l)
                    (lex_str_literal (string_of_list_ascii (token_bytes l))))
          then SCAN_ARGS else SCAN_ERROR).
Proof.
  intros Hs Hm Hok Hne Hnul Hsp.
  destruct (space_is_plain sp Hsp) as (H1 & H2 & H3 & H4).
  assert (Hlen : (0 <? token_length l)%nat = true).
  { apply Nat.ltb_lt. unfold token_bytes in Hne.
    destruct (token_length l); [contradiction Hne; reflexivity | lia]. }
  destruct (emit_str_spec l Hok Hnul)
    as (l1 & Hrun & He1 & Hc1 & Hl1 & Hok1 & Hs1 & _).
  unfold scan_iteration, bind, gets. rewrite Hs. cbn [scan_case].
  unfold case_ARG_VALUE. rewrite H3, H4, Hsp. unfold bind, gets.
  assert (Hstep : (if_ok emit_possible_str (set_state_m SCAN_ARGS)) l
                  = (tt, if snd (callback (context l)
                                   (lex_str_literal
                                      (string_of_list_ascii (token_bytes l))))
                         then set_state SCAN_ARGS l1 else l1)).
  { unfold if_ok, emit_possible_str, bind, gets. rewrite Hlen, Hrun.
    destruct (snd (callback (context l) _)); reflexivity. }
  destruct (arg_mode l); [| |contradiction Hm; reflexivity];
    rewrite Hstep; unfold next_byte, ret, advance, bind, modify; rewrite H3;
    (eexists; split; [reflexivity|]);
    destruct (snd (callback (context l) _)); fields;
    rewrite ?Hs, ?Hs1; repeat split; assumption.
Qed.

(** X15.  An argument in extended mode.  In the argument position, with the mode
    Extended and an empty token: the bytes of a key, an equals sign, then a
    value that starts at once (no quote or brace) and runs to the next
    whitespace, give two [lex_str_literal] calls, the first with the key
    folded to upper case, the second with the bytes of the value as they
    are.  The first callback is taken to return true; the lexer is back in
    the argument position when the second does too, and in Error
    otherwise. *)
Theorem extended_argument :
  forall (l : GCodeLexer) (k : ascii) (key : list ascii)
         (v : ascii) (value : list ascii) (sp : ascii),
    state l = SCAN_ARGS -> arg_mode l = ARG_EXTENDED -> token_ok l ->
    token_length l = 0%nat ->
    forallb raw_first_byte (k :: key) = true ->
    forallb value_byte (v :: value) = true -> is_space sp = true ->
    snd (callback (context l)
           (lex_str_literal (string_of_list_ascii (map upper (k :: key)))))
    = true ->
    exists l',
      gcode_lexer_scan l ((k :: key) ++ "="%char :: (v :: value) ++ [sp])
      = Some l'
      /\ emitted l'
         = emitted l
           ++ [lex_str_literal (string_of_list_ascii (map upper (k :: key)));
               lex_str_literal (string_of_list_ascii (v :: value))]
      /\ token_length l' = 0%nat
      /\ state l'
         = (if snd (callback
                      (fst (callback (context l)
                              (lex_str_literal
                                 (string_of_list_ascii
                                    (map upper (k :: key))))))
                      (lex_str_literal (string_of_list_ascii (v :: value))))
            then SCAN_ARGS else SCAN_ERROR).
Proof.
  intros l k key v value sp Hs Hm Hok Hlen Hkey Hvalue Hsp Hcb.
  assert (Hkey' := Hkey). cbn [forallb] in Hkey'.
  apply andb_true_iff in Hkey' as [Hk Hrest].
  destruct (extended_key_first_iteration l k Hs Hm Hok Hlen Hk)
    as (l1 & Hit1 & Hs1 & Hm1 & Hok1 & Hb1 & He1 & Hc1).
  rewrite <- app_comm_cons, (scan_cons k l l1 _ Hit1), scan_app.
  destruct (extended_key_rest key l1 Hs1 Hok1 Hrest)
    as (l2 & -> & Hs2 & Hm2 & Hok2 & Hb2 & He2 & Hc2).
  rewrite Hb1 in Hb2. change ([upper k] ++ map upper key)
    with (map upper (k :: key)) in Hb2.
  (* the equals sign *)
  destruct (emit_str_spec l2 Hok2) as (l3 & Hrun3 & He3 & Hc3 & Hl3 & Hok3
                                      & Hs3 & Hm3 & _).
  { rewrite Hb2. apply key_bytes_are_text, Hkey. }
  rewrite Hb2 in Hrun3, He3, Hc3, Hs3.
  rewrite Hc2, Hc1 in Hrun3, Hc3, Hs3.
  rewrite Hcb in Hrun3, Hs3.
  assert (Hit3 : scan_iteration "=" l2
                 = (false, set_column (to_uint32 (column l3 + 1))
                             (set_state SCAN_AFTER_EXTENDED_SEPARATOR l3))).
  { unfold scan_iteration, bind, gets. rewrite Hs2. cbn [scan_case].
    unfold case_EXTENDED_KEY.
    change (is_char "=" LF || is_char "=" ";") with false.
    change (is_space "=") with false. change (is_char "=" "=") with true.
    cbv iota. unfold if_ok, emit_possible_str, bind, gets.
    assert (Hpos : (0 <? token_length l2)%nat = true).
    { apply Nat.ltb_lt. unfold token_bytes in Hb2.
      destruct (token_length l2); [discriminate Hb2 | lia]. }
    rewrite Hpos, Hrun3. reflexivity. }
  rewrite (scan_cons "=" l2 _ _ Hit3).
  (* the first byte of the value *)
  assert (Hvalue' := Hvalue). cbn [forallb] in Hvalue'.
  apply andb_true_iff in Hvalue' as [Hv _].
  assert (Hv' := Hv). unfold value_byte, raw_byte in Hv'. split_andb Hv'.
  match goal with
  | |- context [gcode_lexer_scan ?x ((v :: value) ++ [sp])] =>
      assert (Hit4 : scan_iteration v x
                     = (true, set_column (to_uint32 (column x + 1))
                                (set_state SCAN_ARG_VALUE
                                   (set_in_arg_value true x))))
  end.
  { unfold scan_iteration, bind, gets. fields. cbn [scan_case].
    unfold case_AFTER_EXTENDED_SEPARATOR, set_state_m, BACK_UP, bind, modify,
      ret, advance, ENTER_EXPR in *.
    repeat match goal with H : _ = false |- _ => rewrite H end.
    reflexivity. }
  rewrite <- app_comm_cons, (scan_cons_backup v _ _ _ Hit4), app_comm_cons,
    scan_app.
  match goal with
  | |- context [gcode_lexer_scan ?x (v :: value)] =>
      destruct (value_steps (v :: value) x eq_refl)
        as (l5 & -> & Hs5 & Hm5 & Hok5 & Hb5 & He5 & Hc5);
        [apply (token_ok_same l3); auto | exact Hvalue |]
  end.
  match type of Hb5 with
  | _ = token_bytes ?x ++ _ =>
      assert (Hb0 : token_bytes x = [])
        by (unfold token_bytes; fields; rewrite Hl3; reflexivity);
      rewrite Hb0 in Hb5
  end.
  fields. cbn [app] in Hb5.
  destruct (value_end_step l5 sp Hs5) as (l6 & Hit6 & He6 & Hlen6 & Hs6).
  { rewrite Hm5, Hm3, Hm2, Hm1. discriminate. }
  { assumption. }
  { rewrite Hb5. discriminate. }
  { rewrite Hb5. apply value_bytes_are_text, Hvalue. }
  { assumption. }
  rewrite (scan_cons sp l5 l6 [] Hit6), scan_nil.
  exists l6. split; [reflexivity|].
  rewrite He6, Hs6, Hb5, He5, Hc5, He3, Hc3, He2, He1, <- app_assoc.
  repeat split; assumption.
Qed.

Lemma after_extended_key_spaces spaces : forall l,
  state l = SCAN_AFTER_EXTENDED_KEY -> forallb is_space spaces = true ->
  exists l',
    gcode_lexer_scan l spaces = Some l'
    /\ state l' = SCAN_AFTER_EXTENDED_KEY /\ arg_mode l' = arg_mode l
    /\ emitted l' = emitted l /\ token_length l' = token_length l.
Proof.
  induction spaces as [|sp spaces IH]; intros l Hs Hsp.
  - exists l. repeat split; auto.
  - cbn [forallb] in Hsp. apply andb_true_iff in Hsp as [Hsp Hspaces].
    destruct (space_is_plain sp Hsp) as (H1 & H2 & H3 & H4).
    assert (Heq : is_char sp "=" = false)
      by (destruct (is_space_cases sp Hsp) as [-> | [-> | [-> | ->]]];
          reflexivity).
    assert (Hit : scan_iteration sp l
                  = (false, set_column (to_uint32 (column l + 1)) l)).
    { unfold scan_iteration, bind, gets. rewrite Hs. cbn [scan_case].
      unfold case_AFTER_EXTENDED_KEY, next_byte, ret, advance, bind, modify.
      rewrite Heq, Hsp, H3. reflexivity. }
    rewrite (scan_cons sp l _ _ Hit).
    destruct (IH (set_column (to_uint32 (column l + 1)) l) Hs Hspaces)
      as (l' & Hrun & H'); fields.
    exists l'. split; [assumption | exact H'].
Qed.

Lemma lost_byte_iteration l ch :
  state l = SCAN_AFTER_EXTENDED_KEY -> arg_mode l = ARG_EXTENDED ->
  raw_first_byte ch = true ->
  exists l',
    scan_iteration ch l = (false, l')
    /\ state l' = SCAN_ARGS /\ emitted l' = emitted l
    /\ token_length l' = token_length l.
Proof.
  intros Hs Hm Hch. unfold raw_first_byte, raw_byte in Hch.
  split_andb Hch.
  unfold scan_iteration, bind, gets. rewrite Hs. cbn [scan_case].
  unfold case_AFTER_EXTENDED_KEY, end_arg_segment, set_state_m, bind, gets,
    modify, next_byte, ret, advance.
  repeat match goal with H : _ = false |- _ => rewrite H end.
  fields. rewrite Hm. fields.
  repeat match goal with H : _ = false |- _ => rewrite H end.
  eexists. split; [reflexivity|]. fields. repeat split.
Qed.

(** X16.  In extended mode a key must be followed by an equals sign, but a byte
    other than that after the key and whitespace is neither an error nor
    part of a token.  From the argument position: the bytes of a key,
    whitespace, and one more byte that could start a key give the one
    [lex_str_literal] call for the key; the last byte is consumed without a
    callback, the token stays empty, and the lexer is back in the argument
    position, not in Error. *)
Theorem byte_after_extended_key_is_lost :
  forall (l : GCodeLexer) (k : ascii) (key : list ascii) (sp : ascii)
         (spaces : list ascii) (ch : ascii),
    state l = SCAN_ARGS -> arg_mode l = ARG_EXTENDED -> token_ok l ->
    token_length l = 0%nat ->
    forallb raw_first_byte (k :: key) = true ->
    is_space sp = true -> forallb is_space spaces = true ->
    raw_first_byte ch = true ->
    snd (callback (context l)
           (lex_str_literal (string_of_list_ascii (map upper (k :: key)))))
    = true ->
    exists l',
      gcode_lexer_scan l ((k :: key) ++ sp :: spaces ++ [ch]) = Some l'
      /\ state l' = SCAN_ARGS
      /\ emitted l'
         = emitted l
           ++ [lex_str_literal (string_of_list_ascii (map upper (k :: key)))]
      /\ token_length l' = 0%nat.
Proof.
  intros l k key sp spaces ch Hs Hm Hok Hlen Hkey Hsp Hspaces Hch Hcb.
  assert (Hkey' := Hkey). cbn [forallb] in Hkey'.
  apply andb_true_iff in Hkey' as [Hk Hrest].
  destruct (extended_key_first_iteration l k Hs Hm Hok Hlen Hk)
    as (l1 & Hit1 & Hs1 & Hm1 & Hok1 & Hb1 & He1 & Hc1).
  rewrite <- app_comm_cons, (scan_cons k l l1 _ Hit1), scan_app.
  destruct (extended_key_rest key l1 Hs1 Hok1 Hrest)
    as (l2 & -> & Hs2 & Hm2 & Hok2 & Hb2 & He2 & Hc2).
  rewrite Hb1 in Hb2. change ([upper k] ++ map upper key)
    with (map upper (k :: key)) in Hb2.
  destruct (emit_str_spec l2 Hok2) as (l3 & Hrun3 & He3 & Hc3 & Hl3 & Hok3
                                      & Hs3 & Hm3 & _).
  { rewrite Hb2. apply key_bytes_are_text, Hkey. }
  rewrite Hb2 in Hrun3, He3, Hc3, Hs3.
  rewrite Hc2, Hc1 in Hrun3, Hc3, Hs3.
  rewrite Hcb in Hrun3, Hs3.
  destruct (space_is_plain sp Hsp) as (H1 & H2 & H3 & H4).
  assert (Hit3 : scan_iteration sp l2
                 = (false, set_column (to_uint32 (column l3 + 1))
                             (set_state SCAN_AFTER_EXTENDED_KEY l3))).
  { unfold scan_iteration, bind, gets. rewrite Hs2. cbn [scan_case].
    unfold case_EXTENDED_KEY. rewrite H3, H4, Hsp. cbn [orb].
    unfold if_ok, emit_possible_str, bind, gets.
    assert (Hpos : (0 <? token_length l2)%nat = true).
    { apply Nat.ltb_lt. unfold token_bytes in Hb2.
      destruct (token_length l2); [discriminate Hb2 | lia]. }
    rewrite Hpos, Hrun3.
    unfold set_state_m, next_byte, ret, advance, bind, modify. rewrite H3.
    reflexivity. }
  rewrite (scan_cons sp l2 _ _ Hit3), scan_app.
  match goal with
  | |- context [gcode_lexer_scan ?x spaces] =>
      destruct (after_extended_key_spaces spaces x eq_refl Hspaces)
        as (l4 & -> & Hs4 & Hm4 & He4 & Hl4)
  end.
  fields.
  destruct (lost_byte_iteration l4 ch Hs4) as (l5 & Hit5 & Hs5 & He5 & Hl5).
  { rewrite Hm4, Hm3, Hm2, Hm1. reflexivity. }
  { assumption. }
  rewrite (scan_cons ch l4 l5 [] Hit5), scan_nil.
  exists l5. split; [reflexivity|]. split; [assumption|].
  split; [rewrite He5, He4, He3, He2, He1; reflexivity|].
  rewrite Hl5, Hl4. assumption.
Qed.

(** *** Arguments in traditional mode *)

Lemma traditional_key_iteration l key :
  state l = SCAN_ARGS -> arg_mode l = ARG_TRADITIONAL -> token_ok l ->
  token_length l = 0%nat -> raw_first_byte key = true ->
  snd (callback (context l)
         (lex_str_literal (String (upper key) EmptyString))) = true ->
  exists l',
    scan_iteration key l = (false, l')
    /\ state l' = SCAN_AFTER_TRADITIONAL_KEY
    /\ arg_mode l' = ARG_TRADITIONAL /\ token_ok l'
    /\ token_length l' = 0%nat
    /\ emitted l'
       = emitted l ++ [lex_str_literal (String (upper key) EmptyString)]
    /\ context l'
       = fst (callback (context l)
                (lex_str_literal (String (upper key) EmptyString))).
Proof.
  intros Hs Hm Hok Hlen Hkey Hcb.
  unfold raw_first_byte, raw_byte in Hkey. split_andb Hkey.
  unfold scan_iteration, bind, gets. rewrite Hs. cbn [scan_case].
  unfold case_ARGS, bind, gets, ENTER_EXPR in *.
  repeat match goal with H : _ = false |- _ => rewrite H end.
  cbn [orb]. run_TOKEN_START. fields. rewrite Hm.
  unfold if_ok, and_then, TOKEN_CHAR_UPPER, bind.
  match goal with
  | |- context [token_char (upper key) ?x] =>
      destruct (token_char_spec (upper key) x)
        as (buf & lim & -> & Hl & Hle & Hpre);
        [apply (token_ok_same l); auto|]
  end.
  unfold emit_str, terminate_token, bind. run_TOKEN_STOP.
  match goal with
  | |- context [token_char NUL ?x] =>
      destruct (token_char_spec NUL x)
        as (buf2 & lim2 & -> & Hl2 & Hle2 & Hpre2);
        [unfold token_ok; fields; lia|]
  end.
  unfold gets.
  assert (Htext : forall x,
    token_str x = Some buf2 ->
    token_text x = String (upper key) EmptyString).
  { intros x Hx. unfold token_text. rewrite Hx.
    change (String (upper key) EmptyString)
      with (string_of_list_ascii [upper key]).
    eapply cstr_of_prefix.
    - unfold token_bytes, token_block in Hpre, Hpre2; fields.
      rewrite Hlen in *. rewrite Hpre in Hpre2. exact Hpre2.
    - cbn [forallb]. rewrite upper_keeps_text by assumption. reflexivity. }
  rewrite Htext by reflexivity.
  unfold call; fields.
  destruct (callback (context l)
              (lex_str_literal (String (upper key) EmptyString))) as [c1 ok1].
  cbn [snd fst] in *. subst ok1.
  unfold free_token, set_state_m, next_byte, ret, advance, bind, modify;
    fields.
  repeat match goal with H : _ = false |- _ => rewrite H end.
  eexists. split; [reflexivity|]. fields.
  split; [reflexivity|]. split; [assumption|].
  split; [unfold token_ok; fields; lia|]. repeat split.
Qed.

(** X14.  An argument in traditional mode.  In the argument position, with the
    mode Traditional and an empty token: a key byte, then a value that
    starts at once (no [=], quote or brace) and runs to the next whitespace,
    give two [lex_str_literal] calls, the first with the key folded to upper
    case (one byte), the second with the bytes of the value as they are.
    The first callback is taken to return true; the lexer is back in the
    argument position when the second does too, and in Error otherwise. *)
Theorem traditional_argument :
  forall (l : GCodeLexer) (key first : ascii) (rest : list ascii) (sp : ascii),
    state l = SCAN_ARGS -> arg_mode l = ARG_TRADITIONAL -> token_ok l ->
    token_length l = 0%nat ->
    raw_first_byte key = true -> raw_first_byte first = true ->
    forallb value_byte rest = true -> is_space sp = true ->
    snd (callback (context l)
           (lex_str_literal (String (upper key) EmptyString))) = true ->
    exists l',
      gcode_lexer_scan l (key :: first :: rest ++ [sp]) = Some l'
      /\ emitted l'
         = emitted l
           ++ [lex_str_literal (String (upper key) EmptyString);
               lex_str_literal (string_of_list_ascii (first :: rest))]
      /\ token_length l' = 0%nat
      /\ state l'
         = (if snd (callback
                      (fst (callback (context l)
                              (lex_str_literal
                                 (String (upper key) EmptyString))))
                      (lex_str_literal (string_of_list_ascii (first :: rest))))
            then SCAN_ARGS else SCAN_ERROR).
Proof.
  intros l key first rest sp Hs Hm Hok Hlen Hkey Hfirst Hrest Hsp Hcb.
  destruct (traditional_key_iteration l key Hs Hm Hok Hlen Hkey Hcb)
    as (l1 & Hit1 & Hs1 & Hm1 & Hok1 & Hlen1 & He1 & Hc1).
  rewrite (scan_cons key l l1 _ Hit1).
  assert (Hf := Hfirst). unfold raw_first_byte, raw_byte in Hf. split_andb Hf.
  assert (Hit2 : scan_iteration first l1
                 = (true, set_column (to_uint32 (column l1 + 1))
                            (set_in_arg_value true
                               (set_state SCAN_ARG_VALUE l1)))).
  { unfold scan_iteration, bind, gets. rewrite Hs1. cbn [scan_case].
    unfold case_AFTER_TRADITIONAL_KEY, set_state_m, BACK_UP, bind, modify,
      ret, ENTER_EXPR in *.
    repeat match goal with H : _ = false |- _ => rewrite H end.
    reflexivity. }
  rewrite (scan_cons_backup first l1 _ _ Hit2).
  change (first :: rest ++ [sp]) with ((first :: rest) ++ [sp]).
  rewrite scan_app.
  assert (Hvf : value_byte first = true).
  { unfold value_byte, raw_byte.
    repeat match goal with H : _ = false |- _ => rewrite H end.
    reflexivity. }
  match goal with
  | |- context [gcode_lexer_scan ?x (first :: rest)] =>
      destruct (value_steps (first :: rest) x eq_refl)
        as (l2 & -> & Hs2 & Hm2 & Hok2 & Hb2 & He2 & Hc2);
        [apply (token_ok_same l1); auto
        | cbn [forallb]; rewrite Hvf, Hrest; reflexivity |]
  end.
  match type of Hb2 with
  | _ = token_bytes ?x ++ _ =>
      assert (Hb0 : token_bytes x = [])
        by (unfold token_bytes; fields; rewrite Hlen1; reflexivity);
      rewrite Hb0 in Hb2
  end.
  fields. cbn [app] in Hb2.
  destruct (value_end_step l2 sp Hs2
              ltac:(rewrite Hm2, Hm1; discriminate) Hok2)
    as (l3 & Hit3 & He3 & Hlen3 & Hs3).
  { rewrite Hb2. discriminate. }
  { rewrite Hb2, forallb_forall. intros c Hc.
    assert (Hv : value_byte c = true).
    { destruct Hc as [<- | Hc]; [assumption|].
      rewrite forallb_forall in Hrest. auto. }
    unfold value_byte, raw_byte in Hv. split_andb Hv.
    apply negb_true_iff. assumption. }
  { assumption. }
  rewrite (scan_cons sp l2 l3 [] Hit3), scan_nil.
  exists l3. split; [reflexivity|].
  rewrite He3, Hs3, Hb2, He2, Hc2, He1, Hc1, <- app_assoc.
  repeat split; assumption.
Qed.

(** *** The mode of the arguments *)

(** X17.  Raw mode is chosen by what [strcmp] reads in the token buffer, which is
    not terminated yet at that point: with a buffer that reads M117 or ECHO
    as a C string, whatever the command name in its first [token_length]
    bytes is, whitespace after the name selects raw mode; the identifier
    emitted is the name. *)
Theorem raw_mode_is_read_from_the_buffer :
  forall (l : GCodeLexer) (sp : ascii),
    state l = SCAN_COMMAND_NAME -> token_ok l ->
    token_text l = "M117"%string \/ token_text l = "ECHO"%string ->
    forallb (fun c => negb (is_char c NUL)) (token_bytes l) = true ->
    snd (callback (context l)
           (lex_identifier (string_of_list_ascii (token_bytes l)))) = true ->
    is_space sp = true ->
    exists l',
      scan_iteration sp l = (false, l')
      /\ state l' = SCAN_ARGS /\ arg_mode l' = ARG_RAW
      /\ emitted l'
         = emitted l ++ [lex_identifier (string_of_list_ascii (token_bytes l))].
Proof.
  intros l sp Hs Hok Htext Hnul Hcb Hsp.
  destruct (space_is_plain sp Hsp) as (H1 & H2 & H3 & H4).
  assert (Hraw : (String.eqb (token_text l) "M117"
                  || String.eqb (token_text l) "ECHO") = true)
    by (destruct Htext as [-> | ->]; reflexivity).
  unfold scan_iteration, bind, gets. rewrite Hs. cbn [scan_case].
  unfold case_COMMAND_NAME. rewrite H1, H2, H3, Hsp.
  unfold ignore, enter_args, set_state_m, bind, gets, modify.
  assert (Ht : token_text (set_state SCAN_ARGS l) = token_text l)
    by reflexivity.
  rewrite Ht, Hraw.
  unfold emit_ident, terminate_token, bind.
  run_TOKEN_STOP.
  match goal with
  | |- context [token_char NUL ?x] =>
      destruct (token_char_spec NUL x) as (buf & lim & -> & Hl & Hle & Hpre);
        [apply (token_ok_same l); auto|]
  end.
  unfold gets.
  assert (Htext' : forall x,
    token_str x = Some buf
    -> token_text x = string_of_list_ascii (token_bytes l)).
  { intros x Hx. unfold token_text. rewrite Hx.
    eapply cstr_of_prefix; [|exact Hnul].
    erewrite <- token_bytes_same; [exact Hpre | reflexivity | reflexivity]. }
  rewrite Htext' by reflexivity.
  unfold call; fields.
  destruct (callback (context l)
              (lex_identifier (string_of_list_ascii (token_bytes l))))
    as [c1 ok1].
  cbn [snd] in Hcb. subst ok1.
  unfold free_token, next_byte, ret, advance, bind, modify. rewrite H3.
  eexists. split; [reflexivity|]. fields.
  split; [reflexivity|]. split; reflexivity.
Qed.

(** *** Newlines *)

Lemma newline_iteration l :
  ends_at_newline (state l) = true ->
  fst (scan_iteration LF l) = false
  /\ state (snd (scan_iteration LF l)) = SCAN_NEWLINE.
Proof.
  intros Hs. destruct (scan_iteration_state LF l) as [-> ->].
  destruct (state l) eqn:Hst; try discriminate Hs; clear Hs;
    unfold scan_case; unfold_helpers;
    cbn [is_char is_space Ascii.eqb Bool.eqb orb andb negb
         LF HT VT CR DQUOTE BACKSLASH ENTER_EXPR EXIT_EXPR NUL];
    repeat step; fields; rewrite_frames;
    cbn [is_char is_space Ascii.eqb Bool.eqb orb andb negb
         LF HT VT CR DQUOTE BACKSLASH ENTER_EXPR EXIT_EXPR NUL] in *;
    try discriminate; rewrite ?Hst; split; reflexivity.
Qed.

(** X11.  Outside numbers, symbols, identifiers and numeric string escapes a
    newline byte ends the statement at once: in each of these states the
    newline is consumed (no back-up) and the lexer is in the Newline state
    afterwards, whatever the callbacks return. *)
Theorem newline_ends_statement :
  forall l : GCodeLexer,
    ends_at_newline (state l) = true ->
    fst (scan_iteration LF l) = false
    /\ state (snd (scan_iteration LF l)) = SCAN_NEWLINE.
Proof. exact newline_iteration. Qed.

(** X12.  [gcode_lexer_finish] flushes a statement that was left open in one of
    these states: the lexer is in the Newline state afterwards, and a second
    call changes nothing. *)
Theorem finish_flushes_statement :
  forall l : GCodeLexer,
    ends_at_newline (state l) = true ->
    exists l',
      gcode_lexer_finish l = Some l'
      /\ state l' = SCAN_NEWLINE
      /\ gcode_lexer_finish l' = Some l'.
Proof.
  intros l Hs. unfold gcode_lexer_finish at 1.
  destruct (state_eqb (state l) SCAN_NEWLINE) eqn:Hnew; cbn [negb].
  - assert (Hst : state l = SCAN_NEWLINE)
      by (destruct (state l); try discriminate Hnew; reflexivity).
    exists l. split; [reflexivity|]. split; [assumption|].
    unfold gcode_lexer_finish. rewrite Hst. reflexivity.
  - destruct (newline_iteration l Hs) as [Hfst Hsnd].
    destruct (scan_iteration LF l) as [b l1] eqn:Hit.
    cbn [fst snd] in Hfst, Hsnd. subst b.
    rewrite (scan_cons LF l l1 [] Hit), scan_nil.
    exists l1. split; [reflexivity|]. split; [assumption|].
    unfold gcode_lexer_finish. rewrite Hsnd. reflexivity.
Qed.

Lemma escape_newline_iteration l :
  escape_open l = true ->
  exists l',
    scan_iteration LF l = (false, l')
    /\ state l' = SCAN_ERROR /\ emitted l' = emitted l
    /\ context l' = context l.
Proof.
  intros Hopen. unfold escape_open in Hopen.
  unfold scan_iteration, bind, gets.
  destruct (state l) eqn:Hst; try discriminate Hopen; cbn [scan_case].
  - unfold case_STR_HEX, digit_count_is, bind, gets, ret.
    change (hex_digit_to_int LF =? -1) with true. cbv iota. fields.
    rewrite Hopen.
    unfold ERROR, set_state_m, free_token, next_byte, bind, modify, ret.
    run_emit_error. unfold advance, bind, modify.
    change (is_char LF LF) with true. cbv iota.
    eexists. split; [reflexivity|]. fields. repeat split.
  - unfold case_STR_LOW_UNICODE.
    change (hex_digit_to_int LF =? -1) with true. cbv iota.
    unfold ERROR, set_state_m, free_token, next_byte, bind, modify, ret.
    run_emit_error. unfold advance, bind, modify.
    change (is_char LF LF) with true. cbv iota.
    eexists. split; [reflexivity|]. fields. repeat split.
  - unfold case_STR_HIGH_UNICODE.
    change (hex_digit_to_int LF =? -1) with true. cbv iota.
    unfold ERROR, set_state_m, free_token, next_byte, bind, modify, ret.
    run_emit_error. unfold advance, bind, modify.
    change (is_char LF LF) with true. cbv iota.
    eexists. split; [reflexivity|]. fields. repeat split.
Qed.

(** X13.  A newline inside a numeric string escape ([\u], [\U], or [\x] before
    its first digit) is an error that does not end the statement: the lexer
    is in the Error state after the newline, so the whole next line is
    dropped as well, without a callback, and [gcode_lexer_finish] leaves the
    lexer in the Error state. *)
Theorem newline_in_escape_drops_next_line :
  forall (l : GCodeLexer) (text : list ascii),
    escape_open l = true ->
    forallb (fun c => negb (is_char c LF)) text = true ->
    (exists l1,
       gcode_lexer_finish l = Some l1
       /\ state l1 = SCAN_ERROR /\ emitted l1 = emitted l)
    /\ (exists l2,
          gcode_lexer_scan l (LF :: text ++ [LF]) = Some l2
          /\ state l2 = SCAN_NEWLINE /\ emitted l2 = emitted l
          /\ context l2 = context l).
Proof.
  intros l text Hopen Htext.
  destruct (escape_newline_iteration l Hopen) as (l1 & Hit & Hs1 & He1 & Hc1).
  split.
  - exists l1. unfold gcode_lexer_finish.
    assert (Hnew : state_eqb (state l) SCAN_NEWLINE = false).
    { unfold escape_open in Hopen.
      destruct (state l); try discriminate Hopen; reflexivity. }
    rewrite Hnew. cbn [negb].
    rewrite (scan_cons LF l l1 [] Hit), scan_nil. auto.
  - rewrite (scan_cons LF l l1 _ Hit).
    destruct (error_line_rest text l1 Hs1 Htext)
      as (l2 & Hrun & Hs2 & He2 & Hc2 & _).
    exists l2. split; [assumption|]. split; [assumption|].
    split; congruence.
Qed.

(** *** Reset *)

(** X20.  After [gcode_lexer_reset], whatever state the lexer was left in, a line
    that holds a command name and nothing else is lexed as on a new lexer:
    the name as an identifier, then the end of the statement. *)
Theorem reset_makes_ready :
  forall (l : GCodeLexer) (first : ascii) (rest : list ascii),
    token_ok l ->
    name_first_byte first = true -> forallb name_byte rest = true ->
    exists l',
      gcode_lexer_scan (gcode_lexer_reset l) (first :: rest ++ [LF]) = Some l'
      /\ state l' = SCAN_NEWLINE
      /\ emitted l'
         = emitted l
           ++ [lex_identifier
                 (string_of_list_ascii (map upper (first :: rest)));
               lex_end_statement].
Proof.
  intros l first rest Hok Hfirst Hrest.
  apply (bare_command_line (gcode_lexer_reset l) first rest);
    try assumption; try reflexivity.
  unfold token_ok, gcode_lexer_reset in *; fields.
  destruct (token_str l); [lia | tauto].
Qed.

(** *** Tokens that are handed over without a terminator *)






End Facts.

Local Open Scope string_scope.

(** *** The keyword table *)

Lemma lookup_is_table_entry str len e :
  Keywords.gcode_keyword_lookup str len = Some e ->
  (1 <= len <= 8)%nat
  /\ (Keywords.hash str len <= 32)%nat
  /\ e = nth (Keywords.hash str len) Keywords.wordlist Keywords.slot
  /\ first_char str = first_char (Keywords.name e)
  /\ rest_chars str = rest_chars (Keywords.name e).
Proof.
  unfold Keywords.gcode_keyword_lookup, Keywords.MAX_WORD_LENGTH,
    Keywords.MIN_WORD_LENGTH, Keywords.MAX_HASH_VALUE.
  destruct ((len <=? 8)%nat && (1 <=? len)%nat) eqn:Hlen; [|discriminate].
  destruct (Keywords.hash str len <=? 32)%nat eqn:Hkey; [|discriminate].
  match goal with
  | |- context [if ?b then _ else _] => destruct b eqn:Hcmp; [|discriminate]
  end.
  intros [= <-].
  apply andb_true_iff in Hlen as [H1 H2], Hcmp as [H3 H4].
  apply Nat.leb_le in H1, H2, Hkey.
  apply Ascii.eqb_eq in H3. apply String.eqb_eq in H4.
  repeat split; auto.
Qed.

Lemma string_by_parts (a b : string) :
  a <> EmptyString -> b <> EmptyString ->
  first_char a = first_char b -> rest_chars a = rest_chars b -> a = b.
Proof.
  destruct a, b; cbn; intros; try contradiction; congruence.
Qed.

(** C4, as amended.  The lookup returns an entry exactly for the 24 words
    of its table (the operators, the punctuation [.], [,], [(], [)], the
    newline, and IF, ELSE, AND, OR, NAN, INFINITY in upper case), each with
    a token id between 262 and 285, and null for every other string; the
    length passed is the length of the string. *)
Theorem keyword_lookup_exact :
  (forall (str : string) (e : Keywords.GCodeKeywordDetail),
      Keywords.gcode_keyword_lookup str (String.length str) = Some e
      <-> In e Keywords.keywords /\ Keywords.name e = str)
  /\ Forall (fun e => 262 <= Keywords.id e <= 285) Keywords.keywords
  /\ List.length Keywords.keywords = Keywords.TOTAL_KEYWORDS.
Proof.
  split; [|split].
  - intros str e. split.
    + intros H. apply lookup_is_table_entry in H
        as (Hlen & Hkey & He & Hfirst & Hrest).
      destruct str as [|c t]; [cbn in Hlen; lia|].
      remember (Keywords.hash (String c t) (String.length (String c t))) as key
        eqn:Hk.
      do 33 (destruct key as [|key];
        [subst e; cbn in Hfirst, Hrest;
         first
           [ (* an unused slot: the string would start with NUL *)
             subst c t; vm_compute in Hk; discriminate Hk
           | split;
             [ vm_compute; repeat (first [left; reflexivity | right])
             | symmetry; apply string_by_parts;
               [discriminate | discriminate | exact Hfirst | exact Hrest] ] ]
        |]).
      lia.
    + intros [Hin <-].
      vm_compute in Hin.
      repeat (destruct Hin as [<- | Hin]; [vm_compute; reflexivity|]).
      contradiction.
  - apply Forall_forall. intros e He. vm_compute in He.
    repeat (destruct He as [<- | He]; [cbn; lia|]). contradiction.
  - reflexivity.
Qed.

(** C4, counterexample.  The brackets, the braces, TRUE and FALSE are not
    in the table: the lookup returns null for them. *)
Lemma brackets_and_booleans_are_not_keywords :
  Keywords.gcode_keyword_lookup "{" 1 = None
  /\ Keywords.gcode_keyword_lookup "}" 1 = None
  /\ Keywords.gcode_keyword_lookup "[" 1 = None
  /\ Keywords.gcode_keyword_lookup "]" 1 = None
  /\ Keywords.gcode_keyword_lookup "TRUE" 4 = None
  /\ Keywords.gcode_keyword_lookup "FALSE" 5 = None.
Proof. vm_compute. repeat split. Qed.

(** *** Runs on concrete inputs *)

(** C5, counterexample.  An owner whose [lex_end_statement] returns false:
    after the line G1 the lexer is in the Newline state, not in Error, and
    the next line is emitted as usual. *)
Lemma end_statement_false_is_no_error :
  snd (@callback sample_platform reject_end_statement tt lex_end_statement)
  = false
  /\ state (after_scan new_rejecting_end (text_lines ["G1"])) = SCAN_NEWLINE
  /\ emitted (after_scan new_rejecting_end (text_lines ["G1"]))
     = [lex_identifier "G1"; lex_end_statement]
  /\ emissions (gcode_lexer_scan new_rejecting_end (text_lines ["G1"; "G2"]))
     = [lex_identifier "G1"; lex_end_statement;
        lex_identifier "G2"; lex_end_statement].
Proof. vm_compute. repeat split. Qed.

Lemma rejected_token_is_an_error_witness :
  fst (run_helper via_emit_ident (after_scan new_rejecting_x ["x"%char]))
  = false
  /\ state (snd (run_helper via_emit_ident
                   (after_scan new_rejecting_x ["x"%char])))
     = SCAN_ERROR.
Proof.
  refine (proj1 (@rejected_token_is_an_error sample_platform
                   reject_identifier_x via_emit_ident
                   (after_scan new_rejecting_x ["x"%char])
                   (lex_identifier "X") _ _)); vm_compute; reflexivity.
Defined.

(** C6, counterexample.  After the command name M117: an expression in the
    text is tokenised on its own, and a semicolon that comes first after the
    name starts a comment; in neither case is the rest of the line one
    string literal. *)
Lemma raw_text_is_not_always_one_string :
  emissions (gcode_lexer_scan new_accepting (text_lines ["M117 a{1}"]))
  = [lex_identifier "M117"; lex_str_literal "a"; lex_bridge;
     lex_keyword "{"; lex_int_literal 1; lex_keyword "}"; lex_end_statement]
  /\ emissions (gcode_lexer_scan new_accepting (text_lines ["M117 ;x"]))
     = [lex_identifier "M117"; lex_end_statement].
Proof. vm_compute. repeat split. Qed.

Lemma raw_argument_is_one_string_witness :
  exists l',
    gcode_lexer_scan (after_scan new_accepting (list_ascii_of_string "M117"))
      (" "%char :: [] ++ "H"%char :: list_ascii_of_string "i; there" ++ [LF])
    = Some l'
    /\ state l' = SCAN_NEWLINE
    /\ emitted l'
       = (emitted (after_scan new_accepting (list_ascii_of_string "M117"))
          ++ [lex_identifier "M117";
              lex_str_literal
                (string_of_list_ascii
                   ("H"%char :: list_ascii_of_string "i; there"));
              lex_end_statement])%list.
Proof.
  apply (@raw_argument_is_one_string sample_platform accept_all
           (after_scan new_accepting (list_ascii_of_string "M117"))
           "M117" " "%char [] "H"%char (list_ascii_of_string "i; there")).
  - vm_compute; reflexivity.
  - vm_compute. repeat split; repeat constructor.
  - left; reflexivity.
  - vm_compute; reflexivity.
  - vm_compute; reflexivity.
  - vm_compute; reflexivity.
  - vm_compute; reflexivity.
  - vm_compute; reflexivity.
  - vm_compute; reflexivity.
  - vm_compute; reflexivity.
Defined.

(** C7, counterexample.  The comment line gives no end-of-statement: the
    emissions are not the three of the claim. *)
Lemma comment_line_has_no_end_of_statement :
  emissions
    (gcode_lexer_scan new_accepting (text_lines ["; just a comment"; "G28"]))
  <> [lex_end_statement; lex_identifier "G28"; lex_end_statement].
Proof. vm_compute. discriminate. Qed.

Lemma expr_nesting_is_a_count_witness :
  0 <= expr_nesting (after_scan new_accepting (text_lines ["G1 X{((1)}"]))
    <= 11.
Proof.
  destruct (@expr_nesting_is_a_count sample_platform accept_all)
    as (_ & _ & _ & _ & _ & H).
  apply (H (@zeroed sample_platform accept_all tt) tt None
           (text_lines ["G1 X{((1)}"])).
  - discriminate.
  - vm_compute; reflexivity.
Defined.

(** C2.  The integer literal 2147483648, which lies in [0, INT64_MAX], is
    delivered as -2147483648: [emit_int] takes its value as an [int]. *)
Lemma int_literal_is_cut_to_int :
  emissions (gcode_lexer_scan new_accepting (text_lines ["G1 X{2147483648}"]))
  = [lex_identifier "G1"; lex_str_literal "X"; lex_keyword "{";
     lex_int_literal (-2147483648); lex_keyword "}"; lex_end_statement]
  /\ emissions
       (gcode_lexer_scan new_accepting (text_lines ["G1 X{4294967297}"]))
     = [lex_identifier "G1"; lex_str_literal "X"; lex_keyword "{";
        lex_int_literal 1; lex_keyword "}"; lex_end_statement].
Proof. vm_compute. repeat split. Qed.

(** C3.  The reserved word IF in an expression is folded to lower case and
    handed to [lex_identifier]; no keyword is emitted for it, and the table,
    which holds IF, has no entry for the folded word. *)
Lemma reserved_word_is_an_identifier :
  emissions (gcode_lexer_scan new_accepting (text_lines ["G1 X{IF}"]))
  = [lex_identifier "G1"; lex_str_literal "X"; lex_keyword "{";
     lex_identifier "if"; lex_keyword "}"; lex_end_statement]
  /\ Keywords.gcode_keyword_lookup "if" 2 = None
  /\ Keywords.gcode_keyword_lookup "IF" 2 = Some (Keywords.kw "IF" 278).
Proof. vm_compute. repeat split. Qed.

(** C8.  In a string, the escape backslash-x followed by the letter G, which
    is no hexadecimal digit, is no error: [hex_digit_to_int] gives G the
    value 16 and the string is emitted with the byte 16. *)
Lemma hex_escape_takes_letters_past_f :
  hex_digit_to_int "G" = 16
  /\ hex_digit_to_int "Z" = 35
  /\ emissions
       (gcode_lexer_scan new_accepting
          (list_ascii_of_string "G1 X"
           ++ [DQUOTE; BACKSLASH; "x"; "G"; DQUOTE; LF])%char%list)
     = [lex_identifier "G1"; lex_str_literal "X";
        lex_str_literal (String "016" EmptyString); lex_end_statement].
Proof. vm_compute. repeat split. Qed.

(** C10.  Two lexers after [gcode_lexer_reset], and a new one, on the same
    input.  The flag [in_arg_value] and the bytes of the token buffer stay
    as the lines scanned before the reset left them, and both are read
    before they are written. *)
Lemma reset_keeps_what_was_scanned :
  (* the line [G1 "abc"] after a line that ended inside a value ... *)
  emissions_since
    (gcode_lexer_reset (after_scan new_accepting (text_lines ["G1 X5"])))
    (gcode_lexer_scan
       (gcode_lexer_reset (after_scan new_accepting (text_lines ["G1 X5"])))
       (list_ascii_of_string "G1 " ++ [DQUOTE; "a"; "b"; "c"; DQUOTE; LF])%char%list)
  = [lex_identifier "G1"; lex_str_literal "abc"; lex_end_statement]
  (* ... and on a new lexer *)
  /\ emissions
       (gcode_lexer_scan new_accepting
          (list_ascii_of_string "G1 " ++ [DQUOTE; "a"; "b"; "c"; DQUOTE; LF])%char%list)
     = [lex_identifier "G1"; lex_str_literal "abc";
        lex_str_literal EmptyString; lex_end_statement]
  (* the line [M117 hi] after a line with a longer token ... *)
  /\ emissions_since
       (gcode_lexer_reset (after_scan new_accepting (text_lines ["G1 X12345"])))
       (gcode_lexer_scan
          (gcode_lexer_reset
             (after_scan new_accepting (text_lines ["G1 X12345"])))
          (text_lines ["M117 hi"]))
     = [lex_identifier "M117"; lex_str_literal "H"; lex_str_literal "i";
        lex_end_statement]
  (* ... and on a new lexer *)
  /\ emissions (gcode_lexer_scan new_accepting (text_lines ["M117 hi"]))
     = [lex_identifier "M117"; lex_str_literal "hi"; lex_end_statement].
Proof. vm_compute. repeat split. Qed.

(** *** Runs of the further properties on concrete inputs *)

Lemma token_buffer_stays_consistent_witness :
  token_ok new_accepting
  /\ token_ok (after_scan new_accepting (text_lines ["G1 X10"; "M117 hello"])).
Proof.
  assert (Hnew : token_ok new_accepting) by (vm_compute; split; reflexivity).
  split; [exact Hnew|].
  exact (@token_buffer_stays_consistent sample_platform accept_all
           new_accepting (text_lines ["G1 X10"; "M117 hello"]) Hnew).
Defined.

Lemma error_drops_rest_of_line_witness :
  exists l',
    gcode_lexer_scan (after_scan new_accepting (list_ascii_of_string "G1 X{'"))
      (list_ascii_of_string " + 1}" ++ [LF])
    = Some l'
    /\ state l' = SCAN_NEWLINE
    /\ emitted l'
       = emitted (after_scan new_accepting (list_ascii_of_string "G1 X{'"))
    /\ context l'
       = context (after_scan new_accepting (list_ascii_of_string "G1 X{'"))
    /\ token_str l'
       = token_str (after_scan new_accepting (list_ascii_of_string "G1 X{'"))
    /\ token_length l'
       = token_length
           (after_scan new_accepting (list_ascii_of_string "G1 X{'"))
    /\ token_limit l'
       = token_limit
           (after_scan new_accepting (list_ascii_of_string "G1 X{'")).
Proof.
  apply (@error_drops_rest_of_line sample_platform accept_all
           (after_scan new_accepting (list_ascii_of_string "G1 X{'"))
           (list_ascii_of_string " + 1}")).
  - vm_compute; reflexivity.
  - vm_compute; reflexivity.
Defined.

Lemma comment_only_line_is_silent_witness :
  exists l',
    gcode_lexer_scan new_accepting
      (";"%char :: list_ascii_of_string " G1 X{" ++ [LF])
    = Some l'
    /\ state l' = SCAN_NEWLINE /\ emitted l' = emitted new_accepting
    /\ context l' = context new_accepting
    /\ token_str l' = token_str new_accepting
    /\ token_length l' = token_length new_accepting
    /\ token_limit l' = token_limit new_accepting.
Proof.
  apply (@comment_only_line_is_silent sample_platform accept_all
           new_accepting (list_ascii_of_string " G1 X{")).
  - vm_compute; reflexivity.
  - vm_compute; reflexivity.
Defined.



Lemma decimal_literal_is_accumulated_witness :
  exists l1 l2,
    gcode_lexer_scan (after_scan new_accepting (list_ascii_of_string "G1 X{"))
      ("4"%char :: list_ascii_of_string "2")
    = Some l1
    /\ state l1 = SCAN_DECIMAL
    /\ int_value l1 = decimal_value ("4"%char :: list_ascii_of_string "2")
    /\ emitted l1
       = emitted (after_scan new_accepting (list_ascii_of_string "G1 X{"))
    /\ scan_iteration "}" l1 = (true, l2)
    /\ emitted l2
       = (emitted (after_scan new_accepting (list_ascii_of_string "G1 X{"))
          ++ [lex_int_literal
                (to_int
                   (decimal_value ("4"%char :: list_ascii_of_string "2")))])%list
    /\ (decimal_value ("4"%char :: list_ascii_of_string "2") < 2 ^ 31 ->
        to_int (decimal_value ("4"%char :: list_ascii_of_string "2"))
        = decimal_value ("4"%char :: list_ascii_of_string "2")).
Proof.
  apply (@decimal_literal_is_accumulated sample_platform accept_all
           (after_scan new_accepting (list_ascii_of_string "G1 X{"))
           "4"%char (list_ascii_of_string "2") "}"%char).
  - vm_compute; reflexivity.
  - vm_compute; reflexivity.
  - vm_compute; reflexivity.
  - vm_compute; discriminate.
  - vm_compute; reflexivity.
Defined.

Lemma plain_string_round_trip_witness :
  exists l',
    gcode_lexer_scan
      (after_scan new_accepting
         (list_ascii_of_string "G1 X{" ++ [DQUOTE])%list)
      (list_ascii_of_string "a b;{" ++ [DQUOTE])
    = Some l'
    /\ emitted l'
       = (emitted
            (after_scan new_accepting
               (list_ascii_of_string "G1 X{" ++ [DQUOTE])%list)
          ++ [lex_str_literal
                (string_of_list_ascii (list_ascii_of_string "a b;{"))])%list
    /\ token_length l' = 0%nat
    /\ state l'
       = (if snd (callback
                    (context
                       (after_scan new_accepting
                          (list_ascii_of_string "G1 X{" ++ [DQUOTE])%list))
                    (lex_str_literal
                       (string_of_list_ascii (list_ascii_of_string "a b;{"))))
          then after_str
                 (after_scan new_accepting
                    (list_ascii_of_string "G1 X{" ++ [DQUOTE])%list)
          else SCAN_ERROR).
Proof.
  apply (@plain_string_round_trip sample_platform accept_all
           (after_scan new_accepting
              (list_ascii_of_string "G1 X{" ++ [DQUOTE])%list)
           (list_ascii_of_string "a b;{")).
  - vm_compute; reflexivity.
  - vm_compute. repeat split; repeat constructor.
  - vm_compute; reflexivity.
  - vm_compute; reflexivity.
Defined.



Lemma newline_ends_statement_witness :
  fst (scan_iteration LF
         (after_scan new_accepting (list_ascii_of_string "G1 X{(")))
  = false
  /\ state (snd (scan_iteration LF
                   (after_scan new_accepting
                      (list_ascii_of_string "G1 X{("))))
     = SCAN_NEWLINE.
Proof.
  apply (@newline_ends_statement sample_platform accept_all
           (after_scan new_accepting (list_ascii_of_string "G1 X{("))).
  vm_compute; reflexivity.
Defined.

Lemma finish_flushes_statement_witness :
  exists l',
    gcode_lexer_finish (after_scan new_accepting (list_ascii_of_string "G28"))
    = Some l'
    /\ state l' = SCAN_NEWLINE
    /\ gcode_lexer_finish l' = Some l'.
Proof.
  apply (@finish_flushes_statement sample_platform accept_all
           (after_scan new_accepting (list_ascii_of_string "G28"))).
  vm_compute; reflexivity.
Defined.

Lemma newline_in_escape_drops_next_line_witness :
  (exists l1,
     gcode_lexer_finish
       (after_scan new_accepting
          (list_ascii_of_string "G1 X" ++ [DQUOTE; BACKSLASH; "u"%char])%list)
     = Some l1
     /\ state l1 = SCAN_ERROR
     /\ emitted l1
        = emitted
            (after_scan new_accepting
               (list_ascii_of_string "G1 X"
                ++ [DQUOTE; BACKSLASH; "u"%char])%list))
  /\ (exists l2,
        gcode_lexer_scan
          (after_scan new_accepting
             (list_ascii_of_string "G1 X"
              ++ [DQUOTE; BACKSLASH; "u"%char])%list)
          (LF :: list_ascii_of_string "G28" ++ [LF])
        = Some l2
        /\ state l2 = SCAN_NEWLINE
        /\ emitted l2
           = emitted
               (after_scan new_accepting
                  (list_ascii_of_string "G1 X"
                   ++ [DQUOTE; BACKSLASH; "u"%char])%list)
        /\ context l2
           = context
               (after_scan new_accepting
                  (list_ascii_of_string "G1 X"
                   ++ [DQUOTE; BACKSLASH; "u"%char])%list)).
Proof.
  apply (@newline_in_escape_drops_next_line sample_platform accept_all
           (after_scan new_accepting
              (list_ascii_of_string "G1 X"
               ++ [DQUOTE; BACKSLASH; "u"%char])%list)
           (list_ascii_of_string "G28")).
  - vm_compute; reflexivity.
  - vm_compute; reflexivity.
Defined.

Lemma traditional_argument_witness :
  exists l',
    gcode_lexer_scan (after_scan new_accepting (list_ascii_of_string "G1 "))
      ("x"%char :: "-"%char :: list_ascii_of_string "2.5" ++ [" "%char])
    = Some l'
    /\ emitted l'
       = (emitted (after_scan new_accepting (list_ascii_of_string "G1 "))
          ++ [lex_str_literal (String (upper "x") EmptyString);
              lex_str_literal
                (string_of_list_ascii
                   ("-"%char :: list_ascii_of_string "2.5"))])%list
    /\ token_length l' = 0%nat
    /\ state l'
       = (if snd (callback
                    (fst (callback
                            (context
                               (after_scan new_accepting
                                  (list_ascii_of_string "G1 ")))
                            (lex_str_literal
                               (String (upper "x") EmptyString))))
                    (lex_str_literal
                       (string_of_list_ascii
                          ("-"%char :: list_ascii_of_string "2.5"))))
          then SCAN_ARGS else SCAN_ERROR).
Proof.
  apply (@traditional_argument sample_platform accept_all
           (after_scan new_accepting (list_ascii_of_string "G1 "))
           "x"%char "-"%char (list_ascii_of_string "2.5") " "%char).
  - vm_compute; reflexivity.
  - vm_compute; reflexivity.
  - vm_compute. repeat split; repeat constructor.
  - vm_compute; reflexivity.
  - vm_compute; reflexivity.
  - vm_compute; reflexivity.
  - vm_compute; reflexivity.
  - vm_compute; reflexivity.
  - vm_compute; reflexivity.
Defined.

Lemma extended_argument_witness :
  exists l',
    gcode_lexer_scan (after_scan new_accepting (list_ascii_of_string "SET "))
      (("f"%char :: list_ascii_of_string "oo")
       ++ "="%char :: ("1"%char :: list_ascii_of_string "=2") ++ [" "%char])
    = Some l'
    /\ emitted l'
       = (emitted (after_scan new_accepting (list_ascii_of_string "SET "))
          ++ [lex_str_literal
                (string_of_list_ascii
                   (map upper ("f"%char :: list_ascii_of_string "oo")));
              lex_str_literal
                (string_of_list_ascii
                   ("1"%char :: list_ascii_of_string "=2"))])%list
    /\ token_length l' = 0%nat
    /\ state l'
       = (if snd (callback
                    (fst (callback
                            (context
                               (after_scan new_accepting
                                  (list_ascii_of_string "SET ")))
                            (lex_str_literal
                               (string_of_list_ascii
                                  (map upper
                                     ("f"%char
                                      :: list_ascii_of_string "oo"))))))
                    (lex_str_literal
                       (string_of_list_ascii
                          ("1"%char :: list_ascii_of_string "=2"))))
          then SCAN_ARGS else SCAN_ERROR).
Proof.
  apply (@extended_argument sample_platform accept_all
           (after_scan new_accepting (list_ascii_of_string "SET "))
           "f"%char (list_ascii_of_string "oo")
           "1"%char (list_ascii_of_string "=2") " "%char).
  - vm_compute; reflexivity.
  - vm_compute; reflexivity.
  - vm_compute. repeat split; repeat constructor.
  - vm_compute; reflexivity.
  - vm_compute; reflexivity.
  - vm_compute; reflexivity.
  - vm_compute; reflexivity.
  - vm_compute; reflexivity.
Defined.

Lemma byte_after_extended_key_is_lost_witness :
  exists l',
    gcode_lexer_scan (after_scan new_accepting (list_ascii_of_string "SET "))
      (("f"%char :: list_ascii_of_string "oo")
       ++ " "%char :: [] ++ ["b"%char])
    = Some l'
    /\ state l' = SCAN_ARGS
    /\ emitted l'
       = (emitted (after_scan new_accepting (list_ascii_of_string "SET "))
          ++ [lex_str_literal
                (string_of_list_ascii
                   (map upper ("f"%char :: list_ascii_of_string "oo")))])%list
    /\ token_length l' = 0%nat.
Proof.
  apply (@byte_after_extended_key_is_lost sample_platform accept_all
           (after_scan new_accepting (list_ascii_of_string "SET "))
           "f"%char (list_ascii_of_string "oo") " "%char [] "b"%char).
  - vm_compute; reflexivity.
  - vm_compute; reflexivity.
  - vm_compute. repeat split; repeat constructor.
  - vm_compute; reflexivity.
  - vm_compute; reflexivity.
  - vm_compute; reflexivity.
  - vm_compute; reflexivity.
  - vm_compute; reflexivity.
  - vm_compute; reflexivity.
Defined.

Lemma raw_mode_is_read_from_the_buffer_witness :
  exists l',
    scan_iteration " "
      (after_scan new_accepting
         (text_lines ["M117"] ++ list_ascii_of_string "M1")%list)
    = (false, l')
    /\ state l' = SCAN_ARGS /\ arg_mode l' = ARG_RAW
    /\ emitted l'
       = (emitted
            (after_scan new_accepting
               (text_lines ["M117"] ++ list_ascii_of_string "M1")%list)
          ++ [lex_identifier
                (string_of_list_ascii
                   (token_bytes
                      (after_scan new_accepting
                         (text_lines ["M117"]
                          ++ list_ascii_of_string "M1")%list)))])%list.
Proof.
  apply (@raw_mode_is_read_from_the_buffer sample_platform accept_all
           (after_scan new_accepting
              (text_lines ["M117"] ++ list_ascii_of_string "M1")%list)
           " "%char).
  - vm_compute; reflexivity.
  - vm_compute. repeat split; repeat constructor.
  - left. vm_compute; reflexivity.
  - vm_compute; reflexivity.
  - vm_compute; reflexivity.
  - vm_compute; reflexivity.
Defined.



Lemma reset_makes_ready_witness :
  exists l',
    gcode_lexer_scan
      (gcode_lexer_reset
         (after_scan new_accepting (list_ascii_of_string "G1 X{1 +")))
      ("G"%char :: list_ascii_of_string "28" ++ [LF])
    = Some l'
    /\ state l' = SCAN_NEWLINE
    /\ emitted l'
       = (emitted (after_scan new_accepting (list_ascii_of_string "G1 X{1 +"))
          ++ [lex_identifier
                (string_of_list_ascii
                   (map upper ("G"%char :: list_ascii_of_string "28")));
              lex_end_statement])%list.
Proof.
  apply (@reset_makes_ready sample_platform accept_all
           (after_scan new_accepting (list_ascii_of_string "G1 X{1 +"))
           "G"%char (list_ascii_of_string "28")).
  - vm_compute. repeat split; repeat constructor.
  - vm_compute; reflexivity.
  - vm_compute; reflexivity.
Defined.
